(** * Media rendering pipeline of the desktop client: a shallow embedding

    The development follows four translation units:

    - [Waveform]     PaintWaveform of history_view_document.cpp
    - [DocumentView] the grouping sizes and the voice seek of
                     history_view_document.cpp
    - [PhotoView]    history_view_photo.cpp (tier choice, image cache,
                     streaming errors, grouping sizes)
    - [Footer]       stickers_list_footer.cpp (scroll state, animation tick,
                     icon selection)

    Conventions.  A C++ [int] is a [Z]; the sizes and pixel coordinates that
    flow through this code stay far inside the 32-bit range, and signed
    overflow has no defined wrap-around to write out.  Integer division is
    the truncating [Z.quot].  In PaintWaveform, whose running to the end is
    itself in question, the two divisions by something other than a literal
    (by the bar step and by [wavemax + 1]) are partial, and a zero divisor
    stops the call.  [uint64] arithmetic is written with its reduction modulo
    [2^64], and the conversion of a [uint64] to [int] with its reduction to
    32 bits.  A [float64] that carries a pixel position, an elapsed fraction
    or a proportion is an exact rational ([Q]); where the code divides by a
    [float64] made from the element's geometry, which can be zero, the IEEE
    outcomes (infinities, NaN) are kept as constructors of their own.
    Style-sheet constants ([st::...]) live in generated headers and are
    passed in as records; what comes from other libraries (Qt, the UI
    library's [anim::value] and easing functions, the image toolkit) is
    written after its documented behaviour or taken as a parameter. *)

From Stdlib Require Import ZArith List Lia Bool QArith Qround Lqa.
Import ListNotations.

Local Open Scope Z_scope.

(** ** Helpers shared by the translation units *)

(** [std::clamp(v, lo, hi)]: [(v < lo) ? lo : (hi < v) ? hi : v]. *)
Definition clampZ (v lo hi : Z) : Z :=
  if v <? lo then lo else if hi <? v then hi else v.

(** The consecutive integers [i; i+1; ...; i+n-1]. *)
Fixpoint seqZ (i : Z) (n : nat) : list Z :=
  match n with
  | O => []
  | S n' => i :: seqZ (i + 1) n'
  end.

(** [base::SafeRound] / [std::round]: nearest integer, halves away from
    zero. *)
Definition SafeRound (q : Q) : Z :=
  if Qle_bool 0 q then Qfloor (q + (1 # 2)) else Qceiling (q - (1 # 2)).

(** * PaintWaveform *)

Module Waveform.

(** The style constants PaintWaveform reads ([st::msgWaveformBar], ...). *)
Record WaveStyle := {
  msgWaveformBar : Z;
  msgWaveformSkip : Z;
  msgWaveformMin : Z;
  msgWaveformMax : Z;
  lineWidth : Z
}.

(** [VoiceData]: the waveform samples ([VoiceWaveform], signed chars) and
    their recorded maximum. *)
Record VoiceData := {
  waveform : list Z;
  wavemax : Z
}.

(** [QVector::at(i)]: defined only for [0 <= i < size()]. *)
Definition at_ (wf : list Z) (i : Z) : option Z :=
  if i <? 0 then None else nth_error wf (Z.to_nat i).

(** [a / b] on [int]: truncating, and undefined for a zero divisor. *)
Definition intDiv (a b : Z) : option Z :=
  if b =? 0 then None else Some (Z.quot a b).

(** What stops a call before its end: a [QVector::at] outside the array,
    or an [int] division by zero. *)
Inductive Fault := ReadOutside | DivisionByZero.

(** A call ran to its end with a result, or was stopped. *)
Inductive Outcome (A : Type) :=
| Done (a : A)
| Stopped (f : Fault).

Arguments Done {A} _.
Arguments Stopped {A} _.

Inductive Color := Active | Inactive.

(** One [p.fillRect(QRectF(x, y, w, h), color)]. *)
Record FillRect := {
  rx : Q; ry : Q; rw : Q; rh : Q; rcolor : Color
}.

(** What the "Draw bar" part of one iteration emits.  [bar_bucket] is a
    ghost field: the indices of the samples that were folded into
    [maxValue] for this bar; the code does not store it. *)
Record Bar := {
  bar_left : Z;
  bar_max : Z;
  bar_value : Z;
  bar_rects : list FillRect;
  bar_bucket : list Z
}.

(** The lambda computing [wf]: null unless the voice data is present, its
    waveform is non-empty and its first sample is non-negative. *)
Definition chooseWaveform (voiceData : option VoiceData) : option (list Z) :=
  match voiceData with
  | None => None
  | Some vd =>
      match waveform vd with
      | [] => None
      | v0 :: _ => if v0 <? 0 then None else Some (waveform vd)
      end
  end.

Section Paint.

Variable st : WaveStyle.
Variable wf : option (list Z).
Variable wfSize barCount barNormValue : Z.
Variable activeWidth : Q.

Definition maxDelta : Z := msgWaveformMax st - msgWaveformMin st.

Definition barWidth : Z := msgWaveformBar st.

(** The fillRect calls of one bar of value [barValue]. *)
Definition fillBar (barLeft barValue : Z) : list FillRect :=
  let barHeight := inject_Z (msgWaveformMin st + barValue) in
  let barTop := (inject_Z (lineWidth st)
                 + inject_Z (msgWaveformMax st - barValue) / 2)%Q in
  let l := inject_Z barLeft in
  let w := inject_Z barWidth in
  if Qlt_le_dec l activeWidth then
    if Qlt_le_dec activeWidth (l + w)%Q then
      let leftWidth := (activeWidth - l)%Q in
      let rightWidth := (w - leftWidth)%Q in
      [ {| rx := l; ry := barTop; rw := leftWidth; rh := barHeight; rcolor := Active |};
        {| rx := activeWidth; ry := barTop; rw := rightWidth; rh := barHeight;
           rcolor := Inactive |} ]
    else
      [ {| rx := l; ry := barTop; rw := w; rh := barHeight; rcolor := Active |} ]
  else
    [ {| rx := l; ry := barTop; rw := w; rh := barHeight; rcolor := Inactive |} ].

(** The "Draw bar" part: the bar's value,
    [((maxValue * maxDelta) + (barNormValue / 2)) / barNormValue], and its
    fillRect calls; [None] when [barNormValue] is zero. *)
Definition drawBar (barLeft maxValue : Z) : option (Z * list FillRect) :=
  match intDiv (maxValue * maxDelta + Z.quot barNormValue 2) barNormValue with
  | Some barValue => Some (barValue, fillBar barLeft barValue)
  | None => None
  end.

(** The [for] loop, with [n] the number of iterations still to run
    ([i < wfSize] holds exactly [wfSize - i] more times).  An access outside
    the array stops the call, and so does a bar whose value divides by
    zero. *)
Fixpoint paintLoop (n : nat) (i barLeft sum maxValue : Z) (bucket : list Z)
  : Outcome (list Bar) :=
  match n with
  | O => Done []
  | S n' =>
      match (match wf with Some w => at_ w i | None => Some 0 end) with
      | None => Stopped ReadOutside
      | Some value =>
          if sum + barCount <? wfSize then
            paintLoop n' (i + 1) barLeft (sum + barCount)
                      (Z.max maxValue value) (bucket ++ [i])
          else
            let sum' := sum + barCount - wfSize in
            let consumed := sum' <? Z.quot (barCount + 1) 2 in
            let maxValue' := if consumed then Z.max maxValue value else maxValue in
            let bucket' := if consumed then bucket ++ [i] else bucket in
            match drawBar barLeft maxValue' with
            | None => Stopped DivisionByZero
            | Some (barValue, rects) =>
                let bar := {| bar_left := barLeft; bar_max := maxValue';
                              bar_value := barValue; bar_rects := rects;
                              bar_bucket := bucket' |} in
                match paintLoop n' (i + 1)
                                (barLeft + (barWidth + msgWaveformSkip st))
                                sum'
                                (if consumed then 0 else value)
                                (if consumed then [] else [i]) with
                | Stopped f => Stopped f
                | Done rest => Done (bar :: rest)
                end
            end
      end
  end.

End Paint.

(** [barNormValue = (wf ? voiceData->wavemax : 0) + 1]. *)
Definition barNormValueOf (wf : option (list Z)) (voiceData : option VoiceData) : Z :=
  (match wf, voiceData with
   | Some _, Some vd => wavemax vd
   | _, _ => 0
   end) + 1.

(** [barCount = std::min(availableWidth / (barWidth + skip), wfSize)];
    [None] when the bar step [barWidth + skip] is zero. *)
Definition barCountOf (st : WaveStyle) (availableWidth wfSize : Z) : option Z :=
  match intDiv availableWidth (msgWaveformBar st + msgWaveformSkip st) with
  | Some count => Some (Z.min count wfSize)
  | None => None
  end.

(** [PaintWaveform(p, context, voiceData, availableWidth, progress)];
    [kWaveformSamplesCount] is [::Media::Player::kWaveformSamplesCount]. *)
Definition PaintWaveform (st : WaveStyle) (kWaveformSamplesCount : Z)
    (voiceData : option VoiceData) (availableWidth : Z) (progress : Q)
  : Outcome (list Bar) :=
  let wf := chooseWaveform voiceData in
  let wfSize := match wf with
                | Some w => Z.of_nat (length w)
                | None => kWaveformSamplesCount
                end in
  let activeWidth := inject_Z (SafeRound (inject_Z availableWidth * progress)) in
  match barCountOf st availableWidth wfSize with
  | None => Stopped DivisionByZero
  | Some barCount =>
      let barNormValue := barNormValueOf wf voiceData in
      paintLoop st wf wfSize barCount barNormValue activeWidth
                (Z.to_nat wfSize) 0 0 0 0 []
  end.

(** A running maximum [m] aggregates the samples of [bucket]: it bounds
    each of them and is one of them, or the initial zero. *)
Definition aggregates (w : list Z) (m : Z) (bucket : list Z) : Prop :=
  (forall j v, In j bucket -> at_ w j = Some v -> v <= m)
  /\ (m = 0 \/ exists j, In j bucket /\ at_ w j = Some m).

End Waveform.

(** * Document element: grouping sizes and voice seek *)

Module DocumentView.

(** A [style::FileLayout]-like block of constants ([st.padding], ...). *)
Record FileLayout := {
  padding_left : Z;
  padding_top : Z;
  padding_right : Z;
  padding_bottom : Z;
  thumbSize : Z;
  nameTop : Z;
  linkTop : Z
}.

Record DocStyle := {
  msgFileLayout : FileLayout;
  msgFileThumbLayout : FileLayout;
  msgFileLayoutGrouped : FileLayout;
  msgFileThumbLayoutGrouped : FileLayout;
  msgPadding_left : Z;
  msgPadding_right : Z;
  msgFileTopMinus : Z;
  msgWaveformMax : Z;
  msgWaveformMin : Z;
  historyTranscribeSkip : Z
}.

(** [Ui::Text::String]: only its height for a given width is used. *)
Record TextString := {
  countHeight : Z -> Z
}.

(** The outcome of [int / float64(int)] and of what is derived from it.
    A zero divisor gives an infinity, or a NaN when the dividend is zero
    too. *)
Inductive float64 :=
| Fin (q : Q)
| PosInf
| NegInf
| NaN.

Definition divInt (a b : Z) : float64 :=
  if b =? 0 then
    (if a =? 0 then NaN else if 0 <? a then PosInf else NegInf)
  else Fin (inject_Z a / inject_Z b).

(** [std::clamp(v, 0., 1.)]: [(v < 0.) ? 0. : (1. < v) ? 1. : v]; every
    comparison with a NaN is false. *)
Definition clamp01 (v : float64) : float64 :=
  match v with
  | Fin q => if Qlt_le_dec q 0 then Fin 0
             else if Qlt_le_dec 1 q then Fin 1 else Fin q
  | PosInf => Fin 1
  | NegInf => Fin 0
  | NaN => NaN
  end.

(** A proportion lies within [0, 1]. *)
Definition inUnit (v : float64) : Prop :=
  match v with
  | Fin q => (0 <= q /\ q <= 1)%Q
  | _ => False
  end.

(** Modelled from the spec: [HistoryDocumentVoice] is declared in
    history_item_components.h; it holds the seek sub-state (whether a seek is
    in progress, the proportion where it started and the current one, written
    by [setSeekingStart] and [setSeekingCurrent]) and the transcribe button
    (its size when present). *)
Record Voice := {
  seeking : bool;
  seekingStart : float64;
  seekingCurrent : float64;
  transcribe : option (Z * Z)
}.

Definition setSeekingStart (v : Voice) (p : float64) : Voice :=
  {| seeking := seeking v; seekingStart := p;
     seekingCurrent := seekingCurrent v; transcribe := transcribe v |}.

Definition setSeekingCurrent (v : Voice) (p : float64) : Voice :=
  {| seeking := seeking v; seekingStart := seekingStart v;
     seekingCurrent := p; transcribe := transcribe v |}.

(** The components of a Document element that the functions below read. *)
Record Document := {
  thumbed : bool;
  captioned : option TextString;
  voice : option Voice;
  maxWidth : Z;
  width : Z;
  isBubbleTop : bool
}.

Inductive LayoutMode := Full | Grouped.

(** [QRect(x, y, w, h).contains(QPoint(px, py))] as Qt defines it: the
    right edge is [x + w - 1], and an edge pair in the wrong order is
    swapped. *)
Definition QRect_contains (x y w h px py : Z) : bool :=
  let x2 := x + w - 1 in
  let y2 := y + h - 1 in
  let '(l, r) := if x2 <? x - 1 then (x2, x) else (x, x2) in
  let '(t, b) := if y2 <? y - 1 then (y2, y) else (y, y2) in
  negb ((px <? l) || (r <? px)) && negb ((py <? t) || (b <? py)).

Section Sizes.

Variable st : DocStyle.

Definition groupedLayout (d : Document) : FileLayout :=
  if thumbed d then msgFileThumbLayoutGrouped st else msgFileLayoutGrouped st.

Definition sizeForGroupingOptimal (d : Document) (maxWidth_ : Z) : Z * Z :=
  let l := groupedLayout d in
  let height := padding_top l + thumbSize l + padding_bottom l in
  let height :=
    match captioned d with
    | Some caption =>
        let captionw := maxWidth_ - msgPadding_left st - msgPadding_right st in
        height + countHeight caption captionw
    | None => height
    end in
  (maxWidth_, height).

Definition sizeForGrouping (d : Document) (width_ : Z) : Z * Z :=
  let l := groupedLayout d in
  let height := padding_top l + thumbSize l + padding_bottom l in
  let height :=
    match captioned d with
    | Some caption =>
        let captionw := width_ - msgPadding_left st - msgPadding_right st in
        height + countHeight caption captionw
    | None => height
    end in
  (maxWidth d, height).

(** What the voice part of [textState] decides. *)
Inductive VoiceHit :=
| HitTranscribe
| HitSeek
| HitNone.

(** The layout block that [textState] selects for a mode, and the one
    [updatePressed] uses. *)
Definition layoutFor (d : Document) (mode : LayoutMode) : FileLayout :=
  match mode with
  | Full => if thumbed d then msgFileThumbLayout st else msgFileLayout st
  | Grouped => groupedLayout d
  end.

Definition nameleftOf (l : FileLayout) : Z :=
  padding_left l + thumbSize l + padding_right l.

Definition namerightOf (l : FileLayout) : Z := padding_left l.

(** The [namewidth] of [textState] at the waveform test: the layout width
    without the name margins and without the transcribe button. *)
Definition seekNamewidth (d : Document) (v : Voice) (layoutWidth : Z)
    (mode : LayoutMode) : Z :=
  let l := layoutFor d mode in
  let namewidth := layoutWidth - nameleftOf l - namerightOf l in
  match transcribe v with
  | Some (tw, _) => namewidth - (historyTranscribeSkip st + tw)
  | None => namewidth
  end.

(** The divisor of [updatePressed]. *)
Definition pressedNamewidth (d : Document) : Z :=
  let l := layoutFor d Full in
  width d - nameleftOf l - namerightOf l.

(** The voice block of [Document::textState(point, layout, request, mode)]:
    the width guard at its top, and then from
    [const auto voice = Get<HistoryDocumentVoice>()] up to the return of the
    seek link; [playingThis] is the test on the player state.  The second
    component is the voice component afterwards. *)
Definition textStateVoice (d : Document) (layoutWidth : Z) (mode : LayoutMode)
    (playingThis : bool) (px py : Z) : VoiceHit * option Voice :=
  if layoutWidth <? msgPadding_left st + msgPadding_right st + 1 then
    (HitNone, voice d)
  else
    let topMinus := if isBubbleTop d then 0 else msgFileTopMinus st in
    let l := layoutFor d mode in
    let nameleft := nameleftOf l in
    let nametop := nameTop l - topMinus in
    match voice d with
    | None => (HitNone, None)
    | Some v =>
        let waveformbottom :=
          padding_top l - topMinus + msgWaveformMax st + msgWaveformMin st in
        let namewidth := seekNamewidth d v layoutWidth mode in
        let onButton :=
          match transcribe v with
          | Some (tw, th) =>
              QRect_contains (nameleft + namewidth + historyTranscribeSkip st)
                             (padding_top l - topMinus) tw th px py
          | None => false
          end in
        if onButton then (HitTranscribe, Some v)
        else if QRect_contains nameleft nametop namewidth
                               (waveformbottom - nametop) px py
                && playingThis then
          (HitSeek,
           Some (if seeking v then v
                 else setSeekingStart v (divInt (px - nameleft) namewidth)))
        else (HitNone, Some v)
    end.

(** [Document::updatePressed(point)]: the voice component afterwards. *)
Definition updatePressed (d : Document) (px : Z) : option Voice :=
  match voice d with
  | None => None
  | Some v =>
      if seeking v then
        let l := layoutFor d Full in
        let nameleft := nameleftOf l in
        Some (setSeekingCurrent v
                (clamp01 (divInt (px - nameleft) (pressedNamewidth d))))
      else Some v
  end.

End Sizes.

End DocumentView.

(** * Photo element *)

Module PhotoView.

(** An [Image*] handed out by the media view. *)
Definition Image := nat.

Definition QSize := (Z * Z)%type.

Definition scaleSize (s : QSize) (ratio : Z) : QSize :=
  (fst s * ratio, snd s * ratio).

Definition QSize_eqb (a b : QSize) : bool :=
  (fst a =? fst b) && (snd a =? snd b).

(** [Data::PhotoMedia] as the element reads it: the image of each
    [PhotoSize], the inline thumbnail, and [loaded()]. *)
Record PhotoMedia := {
  imageLarge : option Image;
  imageThumbnail : option Image;
  imageSmall : option Image;
  thumbnailInline : option Image;
  loaded : bool
}.

(** ** Tier choice *)

Inductive Tier := Large | Thumbnail | Small | InlineBlurred.

Definition tierImage (m : PhotoMedia) (t : Tier) : option Image :=
  match t with
  | Large => imageLarge m
  | Thumbnail => imageThumbnail m
  | Small => imageSmall m
  | InlineBlurred => thumbnailInline m
  end.

(** The pixmap a [pix(size, args)] call yields: which image, from which
    tier, and whether [args.blurred()] was used. *)
Record Pix := {
  pix_tier : Tier;
  pix_image : Image;
  pix_blurred : bool
}.

(** The [pix] lambda of [Photo::paintUserpicFrame]; [None] is the empty
    [QPixmap()]. *)
Definition paintUserpicFrame_pix (m : PhotoMedia) : option Pix :=
  match imageLarge m with
  | Some large => Some {| pix_tier := Large; pix_image := large; pix_blurred := false |}
  | None =>
    match imageThumbnail m with
    | Some thumbnail =>
        Some {| pix_tier := Thumbnail; pix_image := thumbnail; pix_blurred := true |}
    | None =>
      match imageSmall m with
      | Some small =>
          Some {| pix_tier := Small; pix_image := small; pix_blurred := true |}
      | None =>
        match thumbnailInline m with
        | Some blurred =>
            Some {| pix_tier := InlineBlurred; pix_image := blurred; pix_blurred := true |}
        | None => None
        end
      end
    end
  end.

(** The [image] and the [Option::Blur] flag of
    [Photo::validateGroupedCache]; [None] is [Image::BlankMedia()]. *)
Definition validateGroupedCache_image (m : PhotoMedia) : option (Tier * Image) :=
  match imageLarge m with
  | Some i => Some (Large, i)
  | None =>
    match imageThumbnail m with
    | Some i => Some (Thumbnail, i)
    | None =>
      match imageSmall m with
      | Some i => Some (Small, i)
      | None =>
        match thumbnailInline m with
        | Some i => Some (InlineBlurred, i)
        | None => None
        end
      end
    end
  end.

Definition validateGroupedCache_blur (m : PhotoMedia) : bool :=
  negb (loaded m).

(** The [loadLevel] of [Photo::validateGroupedCache]. *)
Definition validateGroupedCache_loadLevel (m : PhotoMedia) : Z :=
  if loaded m then 2
  else match thumbnailInline m, imageSmall m, imageThumbnail m with
       | None, None, None => 0
       | _, _, _ => 1
       end.

(** The two images [Photo::prepareImageCache(outer)] passes on to
    [PrepareWithBlurredBackground]: the sharp [large] one and the [blurred]
    background, each with the tier it came from. *)
Definition prepareImageCache_blurred (m : PhotoMedia) : option (Tier * Image) :=
  match thumbnailInline m with
  | Some embedded => Some (InlineBlurred, embedded)
  | None =>
    match imageThumbnail m with
    | Some thumbnail => Some (Thumbnail, thumbnail)
    | None =>
      match imageSmall m with
      | Some small => Some (Small, small)
      | None =>
        match imageLarge m with
        | Some large => Some (Large, large)
        | None => None
        end
      end
    end
  end.

(** The bitmap that ends up shown by [prepareImageCache]: the sharp large
    image when there is one, else the blurred background. *)
Definition prepareImageCache_shown (m : PhotoMedia) : option (Tier * Image * bool) :=
  match imageLarge m with
  | Some large => Some (Large, large, false)
  | None =>
    match prepareImageCache_blurred m with
    | Some (t, i) => Some (t, i, true)
    | None => None
    end
  end.

(** ** The redraw cache *)

(** The image toolkit the cache is built with: [QImage] with its size,
    [PrepareWithBlurredBackground] (already applied to the frame-resize
    decision) and [Images::Round]. *)
Record ImageKit := {
  QImage : Type;
  qsize : QImage -> QSize;
  PrepareWithBlurredBackground :
    QSize -> option Image -> option Image -> QImage;
  Round : QImage -> Z -> Z -> QImage
}.

(** [PhotoData]: whether the photo has a video and whether its playback
    already failed. *)
Record PhotoData := {
  hasVideo : bool;
  videoPlaybackFailed : bool
}.

(** [Photo::Streamed]: the streaming instance, reduced to the answer of
    [instance.valid()]. *)
Record Streamed := {
  instance_valid : bool
}.

(** The mutable part of a Photo element.  [prepareCalls] and
    [streamOpens] are ghost counters: how often [prepareImageCache] ran and
    how often a streaming document was opened
    ([streaming().sharedDocument]). *)
Record Photo (K : ImageKit) := {
  dataMedia : PhotoMedia;
  data : PhotoData;
  streamed : option Streamed;
  imageCache : QImage K;
  imageCacheRoundRadius : Z;
  imageCacheRoundCorners : Z;
  imageCacheBlurred : Z;
  prepareCalls : nat;
  streamOpens : nat
}.

Arguments dataMedia {K} _.
Arguments data {K} _.
Arguments streamed {K} _.
Arguments imageCache {K} _.
Arguments imageCacheRoundRadius {K} _.
Arguments imageCacheRoundCorners {K} _.
Arguments imageCacheBlurred {K} _.
Arguments prepareCalls {K} _.
Arguments streamOpens {K} _.

Section Cache.

Context {K : ImageKit}.

(** [style::DevicePixelRatio()]. *)
Variable ratio : Z.

(** [Photo::prepareImageCache(outer)]. *)
Definition prepareImageCache1 (m : PhotoMedia) (outer : QSize) : QImage K :=
  let large := imageLarge m in
  let blurred := option_map snd (prepareImageCache_blurred m) in
  PrepareWithBlurredBackground K outer large blurred.

(** [Photo::prepareImageCache(outer, radius, corners)]. *)
Definition prepareImageCache (m : PhotoMedia) (outer : QSize)
    (radius corners : Z) : QImage K :=
  Round K (prepareImageCache1 m outer) radius corners.

Definition shouldBeBlurred (m : PhotoMedia) : Z :=
  match imageLarge m with Some _ => 0 | None => 1 end.

(** The test that lets [validateImageCache] return early. *)
Definition cacheIsValid (s : Photo K) (outer : QSize) (radius corners : Z) : bool :=
  QSize_eqb (qsize K (imageCache s)) (scaleSize outer ratio)
  && (imageCacheRoundRadius s =? radius)
  && (imageCacheRoundCorners s =? corners)
  && (imageCacheBlurred s =? shouldBeBlurred (dataMedia s)).

(** One of the four recorded values differs from the requested ones. *)
Definition cacheKeyDiffers (s : Photo K) (outer : QSize) (radius corners : Z) : Prop :=
  qsize K (imageCache s) <> scaleSize outer ratio
  \/ imageCacheRoundRadius s <> radius
  \/ imageCacheRoundCorners s <> corners
  \/ imageCacheBlurred s <> shouldBeBlurred (dataMedia s).

(** [Photo::validateImageCache(outer, radius, corners)]. *)
Definition validateImageCache (s : Photo K) (outer : QSize)
    (radius corners : Z) : Photo K :=
  if cacheIsValid s outer radius corners then s
  else
    {| dataMedia := dataMedia s;
       data := data s;
       streamed := streamed s;
       imageCache := prepareImageCache (dataMedia s) outer radius corners;
       imageCacheRoundRadius := radius;
       imageCacheRoundCorners := corners;
       imageCacheBlurred := shouldBeBlurred (dataMedia s);
       prepareCalls := S (prepareCalls s);
       streamOpens := streamOpens s |}.

End Cache.

(** ** Streaming *)

Section Streaming.

Context {K : ImageKit}.

Definition withStreamed (s : Photo K) (v : option Streamed) : Photo K :=
  {| dataMedia := dataMedia s; data := data s; streamed := v;
     imageCache := imageCache s;
     imageCacheRoundRadius := imageCacheRoundRadius s;
     imageCacheRoundCorners := imageCacheRoundCorners s;
     imageCacheBlurred := imageCacheBlurred s;
     prepareCalls := prepareCalls s; streamOpens := streamOpens s |}.

(** Modelled from the spec: [PhotoData::setVideoPlaybackFailed()] lives in
    data_photo.cpp; it marks the asset playback-failed. *)
Definition setVideoPlaybackFailed (s : Photo K) : Photo K :=
  {| dataMedia := dataMedia s;
     data := {| hasVideo := hasVideo (data s); videoPlaybackFailed := true |};
     streamed := streamed s;
     imageCache := imageCache s;
     imageCacheRoundRadius := imageCacheRoundRadius s;
     imageCacheRoundCorners := imageCacheRoundCorners s;
     imageCacheBlurred := imageCacheBlurred s;
     prepareCalls := prepareCalls s; streamOpens := streamOpens s |}.

(** Modelled from the spec: [PhotoData::videoCanBePlayed()] lives in
    data_photo.cpp; an asset marked playback-failed is not playable any
    more, so that it is not retried on every autoplay check. *)
Definition videoCanBePlayed (d : PhotoData) : bool :=
  hasVideo d && negb (videoPlaybackFailed d).

(** [Photo::setStreamed] (the heavy-part registration is not tracked). *)
Definition setStreamed (s : Photo K) (value : option Streamed) : Photo K :=
  withStreamed s value.

(** [Photo::stopAnimation()]. *)
Definition stopAnimation (s : Photo K) : Photo K :=
  setStreamed s None.

(** [Photo::handleStreamingError(error)]. *)
Definition handleStreamingError (s : Photo K) : Photo K :=
  stopAnimation (setVideoPlaybackFailed s).

(** [Photo::checkStreamedIsStarted()]: it resumes or starts the player
    inside an existing instance and never creates or destroys one; the
    player's own state is not tracked. *)
Definition checkStreamedIsStarted (s : Photo K) : Photo K :=
  match streamed s with
  | None => s
  | Some _ => s
  end.

(** [Photo::createStreamingObjects()]; [valid] is what
    [_streamed->instance.valid()] answers for the instance just opened. *)
Definition createStreamingObjects (valid : bool) (s : Photo K) : bool * Photo K :=
  let s1 :=
    {| dataMedia := dataMedia s; data := data s;
       streamed := Some {| instance_valid := valid |};
       imageCache := imageCache s;
       imageCacheRoundRadius := imageCacheRoundRadius s;
       imageCacheRoundCorners := imageCacheRoundCorners s;
       imageCacheBlurred := imageCacheBlurred s;
       prepareCalls := prepareCalls s;
       streamOpens := S (streamOpens s) |} in
  if negb valid then (false, stopAnimation s1)
  else (true, checkStreamedIsStarted s1).

(** [Photo::playAnimation(autoplay)]; [autoplayEnabled] is
    [videoAutoplayEnabled()]. *)
Definition playAnimation (autoplayEnabled valid : bool) (autoplay : bool)
    (s : Photo K) : Photo K :=
  match streamed s with
  | Some _ =>
      if autoplay then s
      else if autoplayEnabled then s
      else stopAnimation s
  | None =>
      if videoCanBePlayed (data s) then
        let '(ok, s1) := createStreamingObjects valid s in
        if negb ok then setVideoPlaybackFailed s1 else s1
      else s
  end.

(** The autoplay check at the top of [Photo::paintUserpicFrame]. *)
Definition paintUserpicFrame_autoplay (autoplayEnabled valid : bool)
    (s : Photo K) : Photo K :=
  let autoplay := videoCanBePlayed (data s) && autoplayEnabled in
  let startPlay := autoplay && (match streamed s with None => true | Some _ => false end) in
  if startPlay then playAnimation autoplayEnabled valid true s
  else checkStreamedIsStarted s.

End Streaming.

(** ** Grouping sizes *)

(** [Photo::sizeForGroupingOptimal(maxWidth)]; [w], [h] are
    [_data->width()], [_data->height()]. *)
Definition sizeForGroupingOptimal (w h : Z) (maxWidth : Z) : QSize :=
  (Z.max w 1, Z.max h 1).

(** [Photo::sizeForGrouping(width)]. *)
Definition sizeForGrouping (w h : Z) (width : Z) : QSize :=
  sizeForGroupingOptimal w h width.

(** ** The cache of a photo drawn in an album *)

(** The flags of [Images::Option] that [validateGroupedCache] combines. *)
Record OptionBits := {
  RoundLarge : Z;
  Blur : Z;
  RoundSkipTopLeft : Z;
  RoundSkipTopRight : Z;
  RoundSkipBottomLeft : Z;
  RoundSkipBottomRight : Z
}.

(** [RectParts corners]: which corners are to be rounded. *)
Record RectParts := {
  TopLeft : bool;
  TopRight : bool;
  BottomLeft : bool;
  BottomRight : bool
}.

(** Conversion to [uint64]. *)
Definition toU64 (z : Z) : Z := z mod 2 ^ 64.

(** The [options] of [validateGroupedCache]. *)
Definition groupedOptions (O : OptionBits) (loaded_ : bool) (corners : RectParts)
  : Z :=
  Z.lor
    (Z.lor
       (Z.lor
          (Z.lor (Z.lor (RoundLarge O) (if loaded_ then 0 else Blur O))
                 (if TopLeft corners then 0 else RoundSkipTopLeft O))
          (if TopRight corners then 0 else RoundSkipTopRight O))
       (if BottomLeft corners then 0 else RoundSkipBottomLeft O))
    (if BottomRight corners then 0 else RoundSkipBottomRight O).

(** The [key] of [validateGroupedCache]:
    [(uint64(width) << 48) | (uint64(height) << 32)
     | (uint64(options) << 16) | (uint64(loadLevel))]. *)
Definition groupedCacheKey (width height options loadLevel : Z) : Z :=
  Z.lor
    (Z.lor
       (Z.lor (toU64 (Z.shiftl (toU64 width) 48))
              (toU64 (Z.shiftl (toU64 height) 32)))
       (toU64 (Z.shiftl (toU64 options) 16)))
    (toU64 loadLevel).

(** The caller's [cacheKey] and [cache]; [renders] is a ghost counter of
    the [pixNoCache] calls. *)
Record GroupedCache (Pixmap : Type) := {
  cacheKey : Z;
  cache : Pixmap;
  renders : nat
}.

Arguments cacheKey {Pixmap} _.
Arguments cache {Pixmap} _.
Arguments renders {Pixmap} _.

Section GroupedCacheOf.

Context {Pixmap : Type}.

Variable O : OptionBits.

(** [style::ConvertScale], [Ui::GetImageScaleSizeForGeometry],
    [style::DevicePixelRatio()] and [Image::pixNoCache(size, {options,
    outer})], the last one applied to [None] for [Image::BlankMedia()]. *)
Variable ConvertScale : Z -> Z.

Variable GetImageScaleSizeForGeometry : QSize -> QSize -> QSize.

Variable ratio : Z.

Variable pixNoCache : option Image -> QSize -> Z -> QSize -> Pixmap.

(** The key [validateGroupedCache] computes. *)
Definition validateGroupedCache_key (m : PhotoMedia) (geometry : QSize)
    (corners : RectParts) : Z :=
  groupedCacheKey (fst geometry) (snd geometry)
    (groupedOptions O (loaded m) corners)
    (validateGroupedCache_loadLevel m).

(** [Photo::validateGroupedCache(geometry, corners, cacheKey, cache)];
    [dataWidth] and [dataHeight] are [_data->width()] and
    [_data->height()], [geometry] the size of the rectangle. *)
Definition validateGroupedCache (m : PhotoMedia) (dataWidth dataHeight : Z)
    (geometry : QSize) (corners : RectParts) (c : GroupedCache Pixmap)
  : GroupedCache Pixmap :=
  let width := fst geometry in
  let height := snd geometry in
  let options := groupedOptions O (loaded m) corners in
  let key := validateGroupedCache_key m geometry corners in
  if cacheKey c =? key then c
  else
    let pixSize :=
      GetImageScaleSizeForGeometry
        (ConvertScale dataWidth, ConvertScale dataHeight) (width, height) in
    let image := option_map snd (validateGroupedCache_image m) in
    {| cacheKey := key;
       cache := pixNoCache image (scaleSize pixSize ratio) options
                           (width, height);
       renders := S (renders c) |}.

End GroupedCacheOf.

(** ** Playback checks *)

Section Playback.

Context {K : ImageKit}.

(** [Photo::checkAnimation()]. *)
Definition checkAnimation (autoplayEnabled : bool) (s : Photo K) : Photo K :=
  match streamed s with
  | Some _ => if negb autoplayEnabled then stopAnimation s else s
  | None => s
  end.

End Playback.

End PhotoView.

(** * Sticker and emoji footer *)

Module Footer.

(** ** Set ids of the emoji sections *)

(** [Ui::Emoji::Section], in the order of its enumerators. *)
Inductive EmojiSection :=
| Recent | People | Nature | Food | Activity | Travel | Objects | Symbols.

Definition EmojiSection_eqb (a b : EmojiSection) : bool :=
  match a, b with
  | Recent, Recent | People, People | Nature, Nature | Food, Food
  | Activity, Activity | Travel, Travel | Objects, Objects
  | Symbols, Symbols => true
  | _, _ => false
  end.

(** [static_cast<uint64>(section)]. *)
Definition sectionIndex (s : EmojiSection) : Z :=
  match s with
  | Recent => 0 | People => 1 | Nature => 2 | Food => 3
  | Activity => 4 | Travel => 5 | Objects => 6 | Symbols => 7
  end.

(** [static_cast<EmojiSection>(index)] for an index up to [Symbols]. *)
Definition sectionOfIndex (i : Z) : option EmojiSection :=
  match i with
  | 0 => Some Recent | 1 => Some People | 2 => Some Nature | 3 => Some Food
  | 4 => Some Activity | 5 => Some Travel | 6 => Some Objects
  | 7 => Some Symbols
  | _ => None
  end.

(** Reduction of a [uint64] result. *)
Definition u64 (z : Z) : Z := z mod 2 ^ 64.

(** Conversion of a [uint64] to [int]. *)
Definition toInt (z : Z) : Z := (z + 2 ^ 31) mod 2 ^ 32 - 2 ^ 31.

Definition kEmojiSectionSetIdBase : Z := 0x77FFFFFFFFFFFFF0.

Definition EmojiSectionSetId (section : EmojiSection) : Z :=
  u64 (kEmojiSectionSetIdBase + sectionIndex section + 1).

Definition RecentEmojiSectionSetId : Z := EmojiSectionSetId Recent.

Definition AllEmojiSectionSetId : Z := kEmojiSectionSetIdBase.

Definition SetIdEmojiSection (id : Z) : option EmojiSection :=
  let base := RecentEmojiSectionSetId in
  if id <? base then None
  else
    let index := u64 (id - base) in
    if index <=? sectionIndex Symbols then sectionOfIndex index else None.

(** ** Animated values *)

(** [anim::value] of the UI library: where the animation started, where
    it is and where it goes. *)
Record AnimValue := {
  a_from : Q;
  a_cur : Q;
  a_to : Q
}.

(** [anim::value(from, to)]. *)
Definition animValue (from to : Z) : AnimValue :=
  {| a_from := inject_Z from; a_cur := inject_Z from; a_to := inject_Z to |}.

(** [value.start(to)]. *)
Definition a_start (v : AnimValue) (to : Z) : AnimValue :=
  {| a_from := a_cur v; a_cur := a_cur v; a_to := inject_Z to |}.

(** [value.finish()]. *)
Definition a_finish (v : AnimValue) : AnimValue :=
  {| a_from := a_to v; a_cur := a_to v; a_to := a_to v |}.

(** [value.update(dt, transition)]. *)
Definition a_update (v : AnimValue) (dt : Q) (transition : Q -> Q -> Q) : AnimValue :=
  {| a_from := a_from v;
     a_cur := (a_from v + transition (a_to v - a_from v) dt)%Q;
     a_to := a_to v |}.

(** [qRound(d)]. *)
Definition qRound (d : Q) : Z := Qfloor (d + (1 # 2)).

(** Conversion of a [float64] to [int]: truncation. *)
Definition truncQ (d : Q) : Z :=
  if Qle_bool 0 d then Qfloor d else Qceiling d.

Inductive ValidateIconAnimations := AnimFull | AnimScroll | AnimNone.

(** What the footer takes from its surroundings: the animation switch, the
    layout direction, style constants, the easing functions [anim::linear]
    and [anim::easeOutCubic], and the set ids [Data::Stickers::FavedSetId]
    and [Data::Stickers::RecentSetId]. *)
Record Env := {
  animDisabled : bool;
  rtl : bool;
  stickerIconMove : Z;
  startDragDistance : Z;
  linear : Q -> Q -> Q;
  easeOutCubic : Q -> Q -> Q;
  FavedSetId : Z;
  RecentSetId : Z
}.

(** ** One scroll axis *)

(** [StickersListFooter::ScrollState], with the fields the .cpp file
    uses; [animating] is whether its [animation] object is running. *)
Record ScrollState := {
  selected : Z;
  max : Z;
  draggingStartX : Z;
  dragging : bool;
  x : AnimValue;
  selectionX : AnimValue;
  selectionWidth : AnimValue;
  animationStart : Z;
  animating : bool
}.

(** The integer offset the layout uses: the rounded current position. *)
Definition offset (s : ScrollState) : Z := qRound (a_cur (x s)).

(** The offset of an axis lies within its scroll range. *)
Definition inBounds (s : ScrollState) : Prop :=
  0 <= offset s <= max s.

(** The same for the position before rounding. *)
Definition positionInRange (s : ScrollState) : Prop :=
  (0 <= a_cur (x s))%Q /\ (a_cur (x s) <= inject_Z (max s))%Q.

(** A handler that found the position in range left it in range. *)
Definition keepsPosition (before after : ScrollState) : Prop :=
  positionInRange before -> positionInRange after.

(** What a handler guarantees for the axis it moved from [before] to
    [after]: the range is the same, the offset lies in it, and a position
    that was in range still is. *)
Definition settlesInRange (before after : ScrollState) : Prop :=
  max after = max before /\ inBounds after /\ keepsPosition before after.

(** While an animation towards [final] runs, ticks keep its target and
    range; once the animation object has stopped the position is the
    target. *)
Definition heading (M final : Z) (s : ScrollState) : Prop :=
  max s = M
  /\ a_to (x s) = inject_Z final
  /\ (animating s = false -> a_cur (x s) = inject_Z final)
  /\ (animating s = true -> animationStart s <> 0).

(** [state.x = anim::value(newX, newX); state.animationStart = 0;
    state.animation.stop();] *)
Definition jumpTo (s : ScrollState) (newX : Z) : ScrollState :=
  {| selected := selected s; max := max s;
     draggingStartX := draggingStartX s; dragging := dragging s;
     x := animValue newX newX;
     selectionX := selectionX s; selectionWidth := selectionWidth s;
     animationStart := 0; animating := false |}.

Definition setDragging (s : ScrollState) (b : bool) : ScrollState :=
  {| selected := selected s; max := max s;
     draggingStartX := draggingStartX s; dragging := b;
     x := x s;
     selectionX := selectionX s; selectionWidth := selectionWidth s;
     animationStart := animationStart s; animating := animating s |}.

Section WithEnv.

Variable env : Env.

(** The time [animationCallback] works with: [now], advanced by the
    duration when animations are disabled. *)
Definition effectiveNow (now : Z) : Z :=
  if animDisabled env then now + stickerIconMove env else now.

(** [ScrollState::animationCallback(now)]. *)
Definition animationCallback (now : Z) (s : ScrollState) : bool * ScrollState :=
  let now := if animDisabled env then now + stickerIconMove env else now in
  if animationStart s =? 0 then (false, s)
  else
    let dt := (inject_Z (now - animationStart s) / inject_Z (stickerIconMove env))%Q in
    if Qle_bool 1 dt then
      (false,
       {| selected := selected s; max := max s;
          draggingStartX := draggingStartX s; dragging := dragging s;
          x := a_finish (x s);
          selectionX := a_finish (selectionX s);
          selectionWidth := a_finish (selectionWidth s);
          animationStart := 0; animating := animating s |})
    else
      (true,
       {| selected := selected s; max := max s;
          draggingStartX := draggingStartX s; dragging := dragging s;
          x := a_update (x s) dt (linear env);
          selectionX := a_update (selectionX s) dt (easeOutCubic env);
          selectionWidth := a_update (selectionWidth s) dt (easeOutCubic env);
          animationStart := animationStart s; animating := animating s |}).

(** One firing of the axis' animation object: it runs the callback and
    stops once the callback answers false. *)
Definition tick (now : Z) (s : ScrollState) : ScrollState :=
  if animating s then
    let '(again, s') := animationCallback now s in
    {| selected := selected s'; max := max s';
       draggingStartX := draggingStartX s'; dragging := dragging s';
       x := x s'; selectionX := selectionX s';
       selectionWidth := selectionWidth s';
       animationStart := animationStart s'; animating := again |}
  else s.

(** [StickersListFooter::checkDragging(state)]. *)
Definition checkDragging (mouseDownX mousePosX : Z) (s : ScrollState) : ScrollState :=
  if dragging s then
    let newX := clampZ ((if rtl env then -1 else 1) * (mouseDownX - mousePosX)
                        + draggingStartX s) 0 (max s) in
    if negb (newX =? qRound (a_cur (x s))) then jumpTo s newX else s
  else s.

(** [StickersListFooter::finishDragging(state)]. *)
Definition finishDragging1 (mouseDownX mousePosX : Z) (s : ScrollState)
  : bool * ScrollState :=
  if negb (dragging s) then (false, s)
  else
    let newX := clampZ (draggingStartX s + mouseDownX - mousePosX) 0 (max s) in
    let s1 := if negb (newX =? qRound (a_cur (x s))) then jumpTo s newX else s in
    (true, setDragging s1 false).

(** The [use] lambda of [scrollByWheelEvent]; the second component is the
    value left in [delta]. *)
Definition wheelUse (delta : Z) (s : ScrollState) : ScrollState * Z :=
  let now := qRound (a_cur (x s)) in
  let used := now - delta in
  let next := clampZ used 0 (max s) in
  let delta' := next - used in
  (if negb (next =? now) then jumpTo s next else s, delta').

(** [UpdateAnimated(value, to, animations)]. *)
Definition UpdateAnimated3 (v : AnimValue) (to : Z)
    (animations : ValidateIconAnimations) : AnimValue :=
  match animations with
  | AnimFull => a_start v to
  | _ => animValue to to
  end.

End WithEnv.

(** ** The footer *)

Record IconInfo := {
  index : Z;
  left : Z;
  adjustedLeft : Z;
  width : Z;
  visible : bool
}.

(** A default-constructed [IconInfo]. *)
Definition IconInfo0 : IconInfo :=
  {| index := 0; left := 0; adjustedLeft := 0; width := 0; visible := false |}.

(** The footer widget.  Each icon is kept by its [setId];
    [subiconsWidthAnimation] is the current value of the width animation
    while it runs; [pressed] is the icon index held in [_pressed]. *)
Record Footer := {
  icons : list Z;
  iconState : ScrollState;
  subiconState : ScrollState;
  iconsLeft : Z;
  iconsRight : Z;
  widgetWidth : Z;
  singleWidth : Z;
  subiconsWidth : Z;
  subiconsExpanded : bool;
  subiconsWidthAnimation : option Q;
  iconsMouseDown : Z * Z;
  iconsMousePos : Z * Z;
  pressed : option Z;
  activeByScrollId : Z
}.

Definition withStates (f : Footer) (i s : ScrollState) : Footer :=
  {| icons := icons f; iconState := i; subiconState := s;
     iconsLeft := iconsLeft f; iconsRight := iconsRight f;
     widgetWidth := widgetWidth f; singleWidth := singleWidth f;
     subiconsWidth := subiconsWidth f;
     subiconsExpanded := subiconsExpanded f;
     subiconsWidthAnimation := subiconsWidthAnimation f;
     iconsMouseDown := iconsMouseDown f; iconsMousePos := iconsMousePos f;
     pressed := pressed f; activeByScrollId := activeByScrollId f |}.

Definition withMouse (f : Footer) (down pos : Z * Z) (p : option Z) : Footer :=
  {| icons := icons f; iconState := iconState f; subiconState := subiconState f;
     iconsLeft := iconsLeft f; iconsRight := iconsRight f;
     widgetWidth := widgetWidth f; singleWidth := singleWidth f;
     subiconsWidth := subiconsWidth f;
     subiconsExpanded := subiconsExpanded f;
     subiconsWidthAnimation := subiconsWidthAnimation f;
     iconsMouseDown := down; iconsMousePos := pos;
     pressed := p; activeByScrollId := activeByScrollId f |}.

(** [_icons[i].setId]. *)
Definition iconSetId (f : Footer) (i : Z) : option Z :=
  if i <? 0 then None else nth_error (icons f) (Z.to_nat i).

(** [_subiconsWidthAnimation.value(final)]. *)
Definition subiconsWidthValue (f : Footer) (final : Z) : Q :=
  match subiconsWidthAnimation f with
  | Some v => v
  | None => inject_Z final
  end.

(** [enumerateIcons(callback)]: the loop from icon [i] on, with [left] the
    offset accumulated so far; the callback threads a value of type [A] and
    answers false to stop. *)
Fixpoint enumerateIconsFrom {A : Type} (f : Footer)
    (callback : A -> IconInfo -> bool * A)
    (rest : list Z) (i left_ : Z) (acc : A) : A :=
  match rest with
  | [] => acc
  | setId :: rest' =>
      let iconsX := SafeRound (a_cur (x (iconState f))) in
      let shift := iconsLeft f - iconsX in
      let width_ : Q :=
        if setId =? AllEmojiSectionSetId then
          subiconsWidthValue f (if subiconsExpanded f then subiconsWidth f
                                else singleWidth f)
        else inject_Z (singleWidth f) in
      let shifted := shift + left_ in
      let visible_ :=
        (if Qlt_le_dec 0 (inject_Z shifted + width_) then true else false)
        && (shifted <? widgetWidth f) in
      let '(continue, acc') :=
        callback acc {| index := i; left := left_; adjustedLeft := shifted;
                        width := SafeRound width_; visible := visible_ |} in
      if continue then
        enumerateIconsFrom f callback rest' (i + 1)
                           (truncQ (inject_Z left_ + width_)) acc'
      else acc'
  end.

Definition enumerateIcons {A : Type} (f : Footer)
    (callback : A -> IconInfo -> bool * A) (acc : A) : A :=
  enumerateIconsFrom f callback (icons f) 0 0 acc.

(** [enumerateSubicons(callback)]: sections [People] to [Symbols]. *)
Fixpoint enumerateSubiconsFrom {A : Type} (f : Footer)
    (callback : A -> IconInfo -> bool * A)
    (n : nat) (i left_ : Z) (acc : A) : A :=
  match n with
  | O => acc
  | S n' =>
      let iconsX := SafeRound (a_cur (x (subiconState f))) in
      let shift := - iconsX in
      let shifted := shift + left_ in
      let visible_ := (0 <? shifted + singleWidth f) && (shifted <? subiconsWidth f) in
      let '(continue, acc') :=
        callback acc {| index := i - sectionIndex People; left := left_;
                        adjustedLeft := shifted; width := singleWidth f;
                        visible := visible_ |} in
      if continue then
        enumerateSubiconsFrom f callback n' (i + 1) (left_ + singleWidth f) acc'
      else acc'
  end.

Definition enumerateSubicons {A : Type} (f : Footer)
    (callback : A -> IconInfo -> bool * A) (acc : A) : A :=
  enumerateSubiconsFrom f callback
    (Z.to_nat (sectionIndex Symbols - sectionIndex People + 1))
    (sectionIndex People) 0 acc.

Definition findInfo (idx : Z) (result info : IconInfo) : bool * IconInfo :=
  if index info =? idx then (false, info) else (true, result).

(** [iconInfo(index)] and [subiconInfo(index)]. *)
Definition iconInfo (f : Footer) (idx : Z) : IconInfo :=
  enumerateIcons f (findInfo idx) IconInfo0.

Definition subiconInfo (f : Footer) (idx : Z) : IconInfo :=
  enumerateSubicons f (findInfo idx) IconInfo0.

(** ** Selection *)

Definition withIconState (f : Footer) (s : ScrollState) : Footer :=
  withStates f s (subiconState f).

Definition withSubiconState (f : Footer) (s : ScrollState) : Footer :=
  withStates f (iconState f) s.

Definition setSelected (s : ScrollState) (n : Z) : ScrollState :=
  {| selected := n; max := max s;
     draggingStartX := draggingStartX s; dragging := dragging s;
     x := x s;
     selectionX := selectionX s; selectionWidth := selectionWidth s;
     animationStart := animationStart s; animating := animating s |}.

(** [updateEmojiSectionWidth()]; the width animation restarts from the
    width it leaves. *)
Definition updateEmojiSectionWidth (f : Footer) : Footer :=
  let sel := selected (iconState f) in
  let expanded :=
    (0 <=? sel) && (sel <? Z.of_nat (length (icons f)))
    && (match iconSetId f sel with
        | Some id => id =? AllEmojiSectionSetId
        | None => false
        end) in
  if Bool.eqb (subiconsExpanded f) expanded then f
  else
    {| icons := icons f; iconState := iconState f;
       subiconState := subiconState f;
       iconsLeft := iconsLeft f; iconsRight := iconsRight f;
       widgetWidth := widgetWidth f; singleWidth := singleWidth f;
       subiconsWidth := subiconsWidth f;
       subiconsExpanded := expanded;
       subiconsWidthAnimation :=
         Some (inject_Z (if expanded then singleWidth f else subiconsWidth f));
       iconsMouseDown := iconsMouseDown f; iconsMousePos := iconsMousePos f;
       pressed := pressed f; activeByScrollId := activeByScrollId f |}.

(** The centred offset [iconsXFinal] of [setSelectedIcon]. *)
Definition iconsXFinal (f : Footer) (info : IconInfo) : Z :=
  let relativeLeft := left info - iconsLeft f in
  let iconsWidthForCentering := 2 * relativeLeft + width info in
  clampZ (Z.quot (iconsLeft f + iconsWidthForCentering + iconsRight f
                  - widgetWidth f) 2)
         0 (max (iconState f)).

(** The centred offset [subiconsXFinal] of [setSelectedSubicon]. *)
Definition subiconsXFinal (f : Footer) (info : IconInfo) : Z :=
  let relativeLeft := left info in
  let subiconsWidthForCentering := 2 * relativeLeft + width info in
  clampZ (Z.quot (subiconsWidthForCentering - subiconsWidth f) 2)
         0 (max (subiconState f)).

(** The last part of both setters: jump to the final offset, or start the
    animation towards it at time [now] ([crl::now()]). *)
Definition scrollTo (s : ScrollState) (final : Z)
    (animations : ValidateIconAnimations) (now : Z) : ScrollState :=
  match animations with
  | AnimNone =>
      {| selected := selected s; max := max s;
         draggingStartX := draggingStartX s; dragging := dragging s;
         x := animValue final final;
         selectionX := selectionX s; selectionWidth := selectionWidth s;
         animationStart := animationStart s; animating := false |}
  | _ =>
      {| selected := selected s; max := max s;
         draggingStartX := draggingStartX s; dragging := dragging s;
         x := a_start (x s) final;
         selectionX := selectionX s; selectionWidth := selectionWidth s;
         animationStart := now; animating := true |}
  end.

Definition withSelection (s : ScrollState) (sx sw : AnimValue) : ScrollState :=
  {| selected := selected s; max := max s;
     draggingStartX := draggingStartX s; dragging := dragging s;
     x := x s;
     selectionX := sx; selectionWidth := sw;
     animationStart := animationStart s; animating := animating s |}.

(** [setSelectedIcon(newSelected, animations)]. *)
Definition setSelectedIcon (now : Z) (newSelected : Z)
    (animations : ValidateIconAnimations) (f : Footer) : Footer :=
  if selected (iconState f) =? newSelected then f
  else
    let f1 := withIconState f (setSelected (iconState f) newSelected) in
    let f2 := updateEmojiSectionWidth f1 in
    let info := iconInfo f2 (selected (iconState f2)) in
    let s := iconState f2 in
    let s1 := withSelection s
                (UpdateAnimated3 (selectionX s) (left info) animations)
                (UpdateAnimated3 (selectionWidth s) (width info) animations) in
    let f3 := withIconState f2 s1 in
    withIconState f3 (scrollTo s1 (iconsXFinal f3 info) animations now).

(** [setSelectedSubicon(newSelected, animations)]. *)
Definition setSelectedSubicon (now : Z) (newSelected : Z)
    (animations : ValidateIconAnimations) (f : Footer) : Footer :=
  if selected (subiconState f) =? newSelected then f
  else
    let f1 := withSubiconState f (setSelected (subiconState f) newSelected) in
    let info := subiconInfo f1 (selected (subiconState f1)) in
    withSubiconState f1
      (scrollTo (subiconState f1) (subiconsXFinal f1 info) animations now).

(** [refreshScrollableDimensions()]. *)
Definition refreshScrollableDimensions (f : Footer) : Footer :=
  let last := iconInfo f (Z.of_nat (length (icons f)) - 1) in
  let s := iconState f in
  let max_ := Z.max (left last + width last + iconsLeft f + iconsRight f
                     - widgetWidth f) 0 in
  let x_ := if Qlt_le_dec (inject_Z max_) (a_cur (x s))
            then animValue max_ max_ else x s in
  withIconState f
    {| selected := selected s; max := max_;
       draggingStartX := draggingStartX s; dragging := dragging s;
       x := x_;
       selectionX := selectionX s; selectionWidth := selectionWidth s;
       animationStart := animationStart s; animating := animating s |}.

Section Events.

Variable env : Env.

(** The loop of [validateSelectedIcon] from icon [i] on; the result is
    [(favedIconIndex, newSelected, newSubSelected)]. *)
Fixpoint scanIcons (setId : Z) (isEmojiSection : bool) (rest : list Z)
    (i favedIconIndex newSelected newSubSelected : Z) : Z * Z * Z :=
  match rest with
  | [] => (favedIconIndex, newSelected, newSubSelected)
  | id :: rest' =>
      if (id =? setId)
         || ((id =? FavedSetId env) && (setId =? RecentSetId env)) then
        (favedIconIndex, i, newSubSelected)
      else if id =? FavedSetId env then
        scanIcons setId isEmojiSection rest' (i + 1) i newSelected newSubSelected
      else if isEmojiSection && (id =? AllEmojiSectionSetId) then
        scanIcons setId isEmojiSection rest' (i + 1) favedIconIndex i
                  (toInt (u64 (setId - EmojiSectionSetId People)))
      else
        scanIcons setId isEmojiSection rest' (i + 1)
                  favedIconIndex newSelected newSubSelected
  end.

Definition isEmojiSectionId (setId : Z) : bool :=
  match SetIdEmojiSection setId with
  | Some section => negb (EmojiSection_eqb section Recent)
  | None => false
  end.

(** The two indices [validateSelectedIcon] hands to the setters. *)
Definition chosenIndices (f : Footer) (setId : Z) : Z * Z :=
  let '(favedIconIndex, newSelected, newSubSelected) :=
    scanIcons setId (isEmojiSectionId setId) (icons f) 0 (-1) (-1) (-1) in
  (if 0 <=? newSelected then newSelected
   else if 0 <=? favedIconIndex then favedIconIndex else 0,
   if 0 <=? newSubSelected then newSubSelected else 0).

(** [validateSelectedIcon(setId, animations)]; [now] and [now'] are what
    [crl::now()] answers inside the two setters. *)
Definition validateSelectedIcon (now now' : Z) (setId : Z)
    (animations : ValidateIconAnimations) (f : Footer) : Footer :=
  let f0 :=
    {| icons := icons f; iconState := iconState f;
       subiconState := subiconState f;
       iconsLeft := iconsLeft f; iconsRight := iconsRight f;
       widgetWidth := widgetWidth f; singleWidth := singleWidth f;
       subiconsWidth := subiconsWidth f;
       subiconsExpanded := subiconsExpanded f;
       subiconsWidthAnimation := subiconsWidthAnimation f;
       iconsMouseDown := iconsMouseDown f; iconsMousePos := iconsMousePos f;
       pressed := pressed f; activeByScrollId := setId |} in
  let '(sel, sub) := chosenIndices f0 setId in
  setSelectedSubicon now' sub animations
    (setSelectedIcon now sel animations f0).

(** ** Mouse and wheel *)

(** [mousePressEvent] once the pointer is over icon [over] (neither the
    settings nor the search button). *)
Definition mousePressEvent (pos : Z * Z) (over : option Z) (f : Footer) : Footer :=
  let i := iconState f in
  let s := subiconState f in
  let i' := {| selected := selected i; max := max i;
               draggingStartX := qRound (a_cur (x i)); dragging := dragging i;
               x := x i; selectionX := selectionX i;
               selectionWidth := selectionWidth i;
               animationStart := animationStart i; animating := animating i |} in
  let s' := {| selected := selected s; max := max s;
               draggingStartX := qRound (a_cur (x s)); dragging := dragging s;
               x := x s; selectionX := selectionX s;
               selectionWidth := selectionWidth s;
               animationStart := animationStart s; animating := animating s |} in
  withMouse (withStates f i' s') pos pos over.

(** [mouseMoveEvent]. *)
Definition mouseMoveEvent (pos : Z * Z) (f : Footer) : Footer :=
  let f1 := withMouse f (iconsMouseDown f) pos (pressed f) in
  let manhattan := Z.abs (fst pos - fst (iconsMouseDown f))
                   + Z.abs (snd pos - snd (iconsMouseDown f)) in
  let f2 :=
    match pressed f1, icons f1 with
    | Some idx, _ :: _ =>
        if negb (dragging (iconState f1))
           && (startDragDistance env <=? manhattan) then
          match iconSetId f1 idx with
          | Some id =>
              if id =? AllEmojiSectionSetId then
                withSubiconState f1 (setDragging (subiconState f1) true)
              else withIconState f1 (setDragging (iconState f1) true)
          | None => f1
          end
        else f1
    | _, _ => f1
    end in
  withStates f2
    (checkDragging env (fst (iconsMouseDown f2)) (fst pos) (iconState f2))
    (checkDragging env (fst (iconsMouseDown f2)) (fst pos) (subiconState f2)).

(** [finishDragging()]. *)
Definition finishDragging (f : Footer) : bool * Footer :=
  let '(icon, i') :=
    finishDragging1 (fst (iconsMouseDown f)) (fst (iconsMousePos f)) (iconState f) in
  let '(subicon, s') :=
    finishDragging1 (fst (iconsMouseDown f)) (fst (iconsMousePos f)) (subiconState f) in
  (icon || subicon, withStates f i' s').

(** [mouseReleaseEvent] with the pointer released over icon [over]: a drag
    is finished; otherwise a click on the pressed icon moves the selection
    frame onto it. *)
Definition mouseReleaseEvent (pos : Z * Z) (over : option Z) (f : Footer) : Footer :=
  match icons f with
  | [] => f
  | _ :: _ =>
      let wasDown := pressed f in
      let f1 := withMouse f (iconsMouseDown f) pos None in
      let '(dragged, f2) := finishDragging f1 in
      if dragged then f2
      else
        match wasDown, over with
        | Some a, Some b =>
            if a =? b then
              let info := iconInfo f2 b in
              withIconState f2
                (withSelection (iconState f2)
                   (animValue (left info) (left info))
                   (animValue (width info) (width info)))
            else f2
        | _, _ => f2
        end
  end.

(** The [delta] of [scrollByWheelEvent] from the event's angle and pixel
    deltas; [None] when the event scrolls in neither direction. *)
Definition wheelDelta (angle pixel : Z * Z) : option Z :=
  let horizontal := negb (fst angle =? 0) in
  let vertical := negb (snd angle =? 0) in
  if negb horizontal && negb vertical then None
  else if horizontal then
    Some ((if rtl env then -1 else 1)
          * (if negb (fst pixel =? 0) then fst pixel else fst angle))
  else Some (if negb (snd pixel =? 0) then snd pixel else snd angle).

(** Whether the wheel scrolls the sub-icon strip: [_subiconsExpanded] and
    the icon under the pointer is the "All Emoji" one. *)
Definition wheelOnSubicons (f : Footer) (over : Z) : bool :=
  subiconsExpanded f
  && (match iconSetId f over with
      | Some id => id =? AllEmojiSectionSetId
      | None => false
      end).

(** [scrollByWheelEvent(e)] with the pointer over icon [over]. *)
Definition scrollByWheelEvent (angle pixel : Z * Z) (over : Z) (f : Footer) : Footer :=
  match wheelDelta angle pixel with
  | None => f
  | Some delta =>
      if wheelOnSubicons f over then
        withSubiconState f (fst (wheelUse delta (subiconState f)))
      else
        withIconState f (fst (wheelUse delta (iconState f)))
  end.

(** Ticks of an axis' animation at the given times, in order. *)
Definition ticks (nows : list Z) (s : ScrollState) : ScrollState :=
  fold_left (fun acc now => tick env now acc) nows s.

End Events.

(** ** Visible icons, the chosen set and the geometry refresh *)

(** [enumerateVisibleIcons(callback)]: the callback sees the visible
    icons; the walk ends at the first hidden icon whose adjusted left edge
    is positive. *)
Definition enumerateVisibleIcons {A : Type} (f : Footer)
    (callback : A -> IconInfo -> A) (acc : A) : A :=
  enumerateIcons f
    (fun acc info =>
       if visible info then (true, callback acc info)
       else if 0 <? adjustedLeft info then (false, acc)
       else (true, acc))
    acc.

(** Every [IconInfo] that [enumerateIcons] hands to a callback which never
    stops the walk, in order. *)
Definition allIconInfos (f : Footer) : list IconInfo :=
  enumerateIcons f (fun acc info => (true, acc ++ [info])) [].

(** The [IconInfo]s that [enumerateVisibleIcons] hands to its callback. *)
Definition visibleIconInfos (f : Footer) : list IconInfo :=
  enumerateVisibleIcons f (fun acc info => acc ++ [info]) [].

(** The set id that [mouseReleaseEvent] fires through [_setChosen] for a
    click on icon [idx] with sub-icon [subindex]; [None] when there is no
    such icon or when the [Expects] of [EmojiSectionSetId] fails. *)
Definition chosenSetId (f : Footer) (idx subindex : Z) : option Z :=
  match iconSetId f idx with
  | Some setId =>
      if setId =? AllEmojiSectionSetId then
        option_map EmojiSectionSetId
          (sectionOfIndex (sectionIndex People + subindex))
      else Some setId
  | None => None
  end.

(** [UpdateAnimated(value, to)]. *)
Definition UpdateAnimated2 (v : AnimValue) (to : Z) : AnimValue :=
  if SafeRound (a_to v) =? to then v
  else
    let from := if negb (Qeq_bool (a_from v) (a_to v)) then a_from v
                else inject_Z to in
    {| a_from := from; a_cur := from; a_to := inject_Z to |}.

(** [x.finish(); selectionX.finish(); selectionWidth.finish();
    animationStart = 0; animation.stop();] on the icon axis. *)
Definition settleIconAxis (s : ScrollState) : ScrollState :=
  {| selected := selected s; max := max s;
     draggingStartX := draggingStartX s; dragging := dragging s;
     x := a_finish (x s);
     selectionX := a_finish (selectionX s);
     selectionWidth := a_finish (selectionWidth s);
     animationStart := 0; animating := false |}.

(** [x.finish(); animationStart = 0; animation.stop();] on the sub-icon
    axis. *)
Definition settleSubiconAxis (s : ScrollState) : ScrollState :=
  {| selected := selected s; max := max s;
     draggingStartX := draggingStartX s; dragging := dragging s;
     x := a_finish (x s);
     selectionX := selectionX s; selectionWidth := selectionWidth s;
     animationStart := 0; animating := false |}.

(** [processHideFinished()]. *)
Definition processHideFinished (f : Footer) : Footer :=
  withMouse
    (withStates f (settleIconAxis (iconState f))
                  (settleSubiconAxis (subiconState f)))
    (iconsMouseDown f) (iconsMousePos f) None.

Definition withWidths (f : Footer) (single subicons : Z) : Footer :=
  {| icons := icons f; iconState := iconState f; subiconState := subiconState f;
     iconsLeft := iconsLeft f; iconsRight := iconsRight f;
     widgetWidth := widgetWidth f; singleWidth := single;
     subiconsWidth := subicons;
     subiconsExpanded := subiconsExpanded f;
     subiconsWidthAnimation := subiconsWidthAnimation f;
     iconsMouseDown := iconsMouseDown f; iconsMousePos := iconsMousePos f;
     pressed := pressed f; activeByScrollId := activeByScrollId f |}.

Definition withWidthAnimation (f : Footer) (value : option Q) : Footer :=
  {| icons := icons f; iconState := iconState f; subiconState := subiconState f;
     iconsLeft := iconsLeft f; iconsRight := iconsRight f;
     widgetWidth := widgetWidth f; singleWidth := singleWidth f;
     subiconsWidth := subiconsWidth f;
     subiconsExpanded := subiconsExpanded f;
     subiconsWidthAnimation := value;
     iconsMouseDown := iconsMouseDown f; iconsMousePos := iconsMousePos f;
     pressed := pressed f; activeByScrollId := activeByScrollId f |}.

(** The axis with a new range, the position pulled back into it:
    [state.max = max; if (state.x.current() > state.max) state.x =
    anim::value(state.max, state.max);] *)
Definition withRange (s : ScrollState) (max_ : Z) : ScrollState :=
  {| selected := selected s; max := max_;
     draggingStartX := draggingStartX s; dragging := dragging s;
     x := if Qlt_le_dec (inject_Z max_) (a_cur (x s))
          then animValue max_ max_ else x s;
     selectionX := selectionX s; selectionWidth := selectionWidth s;
     animationStart := animationStart s; animating := animating s |}.

(** The width [refreshSubiconsGeometry] gives to the expanded strip of
    sub-icons. *)
Definition subiconsWidthFor (f : Footer) : Z :=
  let half := Z.quot (singleWidth f) 2 in
  let count := sectionIndex Symbols - sectionIndex Recent in
  let widthMax := count * singleWidth f in
  let widthMin := 4 * singleWidth f + half in
  let collapsedWidth := toInt (Z.of_nat (length (icons f))) * singleWidth f in
  let w := clampZ (widgetWidth f + singleWidth f - collapsedWidth)
                  widthMin widthMax in
  if w <? widthMax then
    half + Z.quot (w - half) (singleWidth f) * singleWidth f
  else w.

Section Geometry.

Variable env : Env.

(** [updateEmojiWidthCallback()]; [now] is what [crl::now()] answers. *)
Definition updateEmojiWidthCallback (now : Z) (f : Footer) : Footer :=
  let f1 := refreshScrollableDimensions f in
  let info := iconInfo f1 (selected (iconState f1)) in
  let s := iconState f1 in
  let s1 := withSelection s
              (UpdateAnimated2 (selectionX s) (left info))
              (UpdateAnimated2 (selectionWidth s) (width info)) in
  let s2 := if animating s1 then snd (animationCallback env now s1) else s1 in
  withIconState f1 s2.

(** One frame of [_subiconsWidthAnimation], the animation that
    [updateEmojiSectionWidth] starts: the animated width takes the value
    [value], or the animation has come to its end ([None], after which
    [value(final)] answers the final width), and its callback
    [updateEmojiWidthCallback] runs. *)
Definition subiconsWidthFrame (now : Z) (value : option Q) (f : Footer)
  : Footer :=
  updateEmojiWidthCallback now (withWidthAnimation f value).

(** [refreshSubiconsGeometry()]; [barSelection] is [_barSelection]. *)
Definition refreshSubiconsGeometry (barSelection : bool) (now : Z) (f : Footer)
  : Footer :=
  if barSelection then f
  else
    let s := settleSubiconAxis (subiconState f) in
    let count := sectionIndex Symbols - sectionIndex Recent in
    let widthMax := count * singleWidth f in
    let w := subiconsWidthFor f in
    let f1 := withWidths f (singleWidth f) w in
    updateEmojiWidthCallback now
      (withSubiconState f1 (withRange s (Z.max (widthMax - w) 0))).

(** [refreshIconsGeometry(activeSetId, animations)]; [stickerIconWidth] and
    [iconWidth] are [st::stickerIconWidth] and [st().iconWidth], and [now],
    [now1], [now2] are the answers of [crl::now()] in the width callback
    and in the two setters. *)
Definition refreshIconsGeometry (barSelection : bool)
    (stickerIconWidth iconWidth : Z) (now now1 now2 : Z)
    (activeSetId : Z) (animations : ValidateIconAnimations) (f : Footer)
  : Footer :=
  let f0 := withMouse f (iconsMouseDown f) (iconsMousePos f) None in
  let f1 := withIconState f0 (settleIconAxis (iconState f0)) in
  let single :=
    if barSelection then stickerIconWidth
    else if (1 <? Z.of_nat (length (icons f1)))
            && (match iconSetId f1 1 with
                | Some id => id =? EmojiSectionSetId People
                | None => false
                end) then
      toInt (u64 (widgetWidth f1 - iconsLeft f1 - iconsRight f1)
             / Z.of_nat (length (icons f1)))
    else iconWidth in
  let f2 := withWidths f1 single (subiconsWidth f1) in
  let f3 := refreshScrollableDimensions f2 in
  let f4 := refreshSubiconsGeometry barSelection now f3 in
  let f5 := withStates f4 (setSelected (iconState f4) (-1))
                          (setSelected (subiconState f4) (-1)) in
  validateSelectedIcon env now1 now2 activeSetId animations f5.

End Geometry.

(** ** The fading at both ends of the icon row *)

(** [current / width] for a [float64] and an [int]: a zero divisor gives
    an infinity, or a NaN when the dividend is zero too. *)
Definition divQ (a : Q) (b : Z) : DocumentView.float64 :=
  if b =? 0 then
    (if Qeq_bool a 0 then DocumentView.NaN
     else if Qlt_le_dec 0 a then DocumentView.PosInf else DocumentView.NegInf)
  else DocumentView.Fin (a / inject_Z b).

(** [expanding ? (1. - progress * (1. - normal)) : normal] for the
    [normal] opacity that [std::clamp] answered: a proportion or a NaN. *)
Definition fadeOpacity (expanding : bool) (progress : Q)
    (normal : DocumentView.float64) : DocumentView.float64 :=
  if expanding then
    match normal with
    | DocumentView.Fin o => DocumentView.Fin (1 - progress * (1 - o))
    | _ => DocumentView.NaN
    end
  else normal.

(** The test [o > 0]. *)
Definition isPositive (o : DocumentView.float64) : bool :=
  match o with
  | DocumentView.Fin q => if Qlt_le_dec 0 q then true else false
  | DocumentView.PosInf => true
  | _ => false
  end.

(** [paintLeftRightFading(p, context)]: the opacity of the left and of the
    right fading, each with whether it is painted; [fadeLeftWidth] and
    [fadeRightWidth] are [st().fadeLeft.width()] and
    [st().fadeRight.width()]. *)
Definition paintLeftRightFading (fadeLeftWidth fadeRightWidth : Z)
    (expanding : bool) (progress : Q) (f : Footer)
  : (DocumentView.float64 * bool) * (DocumentView.float64 * bool) :=
  let o_left_normal :=
    DocumentView.clamp01 (divQ (a_cur (x (iconState f))) fadeLeftWidth) in
  let o_left := fadeOpacity expanding progress o_left_normal in
  let o_right_normal :=
    DocumentView.clamp01
      (divQ (inject_Z (max (iconState f)) - a_cur (x (iconState f)))
            fadeRightWidth) in
  let o_right := fadeOpacity expanding progress o_right_normal in
  ((o_left, isPositive o_left), (o_right, isPositive o_right)).

End Footer.

(** * File names: removing tag symbols *)

Module TagSymbols.

(** [QChar::isHighSurrogate()] and [QChar::isLowSurrogate()] on a UTF-16
    code unit. *)
Definition isHighSurrogate (c : Z) : bool := Z.land c 0xfc00 =? 0xd800.

Definition isLowSurrogate (c : Z) : bool := Z.land c 0xfc00 =? 0xdc00.

(** [QChar::surrogateToUcs4(high, low)], computed in [char32_t]. *)
Definition surrogateToUcs4 (high low : Z) : Z :=
  (Z.shiftl high 10 + low - 0x35fdc00) mod 2 ^ 32.

(** The test of the loop of [CleanTagSymbols] on a code unit and the one
    after it. *)
Definition tagPair (c c' : Z) : bool :=
  isHighSurrogate c && isLowSurrogate c' && (0xe0000 <=? surrogateToUcs4 c c').

(** The same test at position [ch] of [value]; it fails when [ch + 1] is
    the end. *)
Definition isTagAt (value : list Z) (ch : nat) : bool :=
  match nth_error value ch, nth_error value (S ch) with
  | Some c, Some c' => tagPair c c'
  | _, _ => false
  end.

(** The [n] code units of [value] from position [from] on. *)
Definition mid (value : list Z) (from n : nat) : list Z :=
  firstn n (skipn from value).

(** The loop of [CleanTagSymbols] from position [ch] on, with the start
    [from] of the pending run and the [result] so far; positions count from
    [begin].  It answers the final [from] and [result]. *)
Fixpoint CleanLoop (value : list Z) (fuel : nat) (ch from : nat)
    (result : list Z) : nat * list Z :=
  match fuel with
  | O => (from, result)
  | S fuel' =>
      if (ch =? length value)%nat then (from, result)
      else if isTagAt value ch then
        let result' :=
          if (from <? ch)%nat then result ++ mid value from (ch - from)
          else result in
        CleanLoop value fuel' (ch + 2) (ch + 2) result'
      else CleanLoop value fuel' (ch + 1) from result
  end.

(** [CleanTagSymbols(value)]. *)
Definition CleanTagSymbols (value : list Z) : list Z :=
  let '(from, result) := CleanLoop value (length value) 0 0 [] in
  if (from =? 0)%nat then value
  else if (from <? length value)%nat then
    result ++ mid value from (length value - from)
  else result.

End TagSymbols.

(** * Voice messages: the playback progress *)

Module VoiceProgress.

Import Footer.

Definition kAudioVoiceMsgUpdateView : Z := 100.

(** Modelled from the spec: [HistoryDocumentVoicePlayback] is declared in
    history_item_components.h; the .cpp file uses its animated [progress],
    the [position] the progress was last computed for, and its
    [progressAnimation]: when it was [started] and whether it runs. *)
Record VoicePlayback := {
  progress : AnimValue;
  position : Z;
  started : Z;
  running : bool
}.

(** [std::clamp(v, 0., 1.)] on a finite value. *)
Definition clampUnit (v : Q) : Q :=
  if Qlt_le_dec v 0 then 0%Q else if Qlt_le_dec 1 v then 1%Q else v.

(** [qMin(a, b)]. *)
Definition qMin (a b : Q) : Q := if Qlt_le_dec a b then a else b.

(** The [prg] of [Document::updateStatusText]. *)
Definition playbackProgress (statePosition stateLength : Z) : Q :=
  if stateLength =? 0 then 0%Q
  else clampUnit (inject_Z statePosition / inject_Z stateLength).

(** [progress.start(prg)]. *)
Definition startTo (v : AnimValue) (to : Q) : AnimValue :=
  {| a_from := a_cur v; a_cur := a_cur v; a_to := to |}.

(** The playback block of [Document::updateStatusText] for the voice
    message that is playing: [was] tells whether the playback object existed
    before [ensurePlayback], [p] is the object after it, [now] what
    [crl::now()] answers when the progress animation starts. *)
Definition updatePlayback (now : Z) (statePosition stateLength : Z)
    (was : bool) (p : VoicePlayback) : VoicePlayback :=
  if negb was || negb (statePosition =? position p) then
    let prg := playbackProgress statePosition stateLength in
    {| progress := if position p <? statePosition then startTo (progress p) prg
                   else {| a_from := 0; a_cur := 0; a_to := prg |};
       position := statePosition;
       started := now;
       running := true |}
  else p.

Section Callback.

(** [anim::Disabled()] and [anim::linear]. *)
Variable animDisabled : bool.

Variable linear : Q -> Q -> Q.

(** [Document::voiceProgressAnimationCallback(now)]; the argument is the
    playback object of the voice component, [None] when there is no voice
    component or no playback. *)
Definition voiceProgressAnimationCallback (now : Z) (playback : option VoicePlayback)
  : bool * option VoicePlayback :=
  let now := if animDisabled then now + 2 * kAudioVoiceMsgUpdateView else now in
  match playback with
  | Some p =>
      let dt := (inject_Z (now - started p)
                 / inject_Z (2 * kAudioVoiceMsgUpdateView))%Q in
      if Qle_bool 1 dt then
        (false,
         Some {| progress := a_finish (progress p); position := position p;
                 started := started p; running := false |})
      else
        (true,
         Some {| progress := a_update (progress p) (qMin dt 1) linear;
                 position := position p;
                 started := started p; running := running p |})
  | None => (false, None)
  end.

End Callback.

End VoiceProgress.

(** * Document element: the status and the link under the thumbnail *)

Module DocumentStatus.

(** [Ui::FileStatusSizeReady], [Ui::FileStatusSizeLoaded] and
    [Ui::FileStatusSizeFailed]. *)
Record StatusSizes := {
  FileStatusSizeReady : Z;
  FileStatusSizeLoaded : Z;
  FileStatusSizeFailed : Z
}.

(** What [updateStatusText] and [textState] read of the transfer:
    [failed] is [status == FileDownloadFailed || status == FileUploadFailed],
    [uploadFailed] is [status == FileUploadFailed], the offsets are
    [uploadingData->offset] and [loadOffset()]. *)
Record Transfer := {
  failed : bool;
  uploadFailed : bool;
  uploading : bool;
  uploadOffset : Z;
  loading : bool;
  loadOffset : Z;
  dataLoaded : bool
}.

(** [isVoiceMessage()], else [isAudioFile()], else neither. *)
Inductive Kind := VoiceMessage | AudioFile | OtherFile.

(** The player's state for the kind of the document: [isThis] is
    [state.id == AudioMsgId(_data, ...)], [stopped] is
    [IsStoppedOrStopping(state.state)], [showPauseIcon] is
    [ShowPauseIcon(state.state)], [seeking] is [instance()->isSeeking(type)]. *)
Record PlayerState := {
  isThis : bool;
  stopped : bool;
  statePosition : Z;
  stateLength : Z;
  stateFrequency : Z;
  showPauseIcon : bool;
  seeking : bool
}.

Inductive LinkText := Download | OpenWith | Cancel.

Inductive LinkHandler := SaveHandler | OpenWithHandler | CancelHandler.

(** The status of a Document element: [_statusSize], the text of the link
    under the thumbnail when the element is thumbed, and a ghost counter of
    the [setStatusSize] calls. *)
Record Status := {
  statusSize : Z;
  link : option LinkText;
  formatted : nat
}.

Section WithSizes.

Variable sizes : StatusSizes.

(** The first [if] chain of [updateStatusText]. *)
Definition transferStatusSize (t : Transfer) : Z :=
  if failed t then FileStatusSizeFailed sizes
  else if uploading t then uploadOffset t
  else if loading t then loadOffset t
  else if dataLoaded t then FileStatusSizeLoaded sizes
  else FileStatusSizeReady sizes.

(** [statusSize], [realDuration] and [showPause] at the end of
    [updateStatusText], before the comparison with [_statusSize]. *)
Definition statusValues (kind : Kind) (t : Transfer) (player : PlayerState)
  : Z * Z * bool :=
  match kind with
  | OtherFile => (transferStatusSize t, 0, false)
  | _ =>
      let '(size, realDuration, showPause) :=
        if isThis player && negb (stopped player) then
          (-1 - Z.quot (statePosition player) (stateFrequency player),
           Z.quot (stateLength player) (stateFrequency player),
           showPauseIcon player)
        else (transferStatusSize t, 0, false) in
      (size, realDuration,
       if negb showPause && isThis player then seeking player else showPause)
  end.

(** The text [setStatusSize] gives the link under the thumbnail. *)
Definition linkTextFor (size : Z) : LinkText :=
  if size =? FileStatusSizeReady sizes then Download
  else if size =? FileStatusSizeLoaded sizes then OpenWith
  else if size =? FileStatusSizeFailed sizes then Download
  else if 0 <=? size then Cancel
  else OpenWith.

(** Modelled from the spec: [File::setStatusSize] lives in
    history_view_file.cpp; it stores the size it is given as the cached
    [_statusSize] and formats the status text anew. *)
Definition File_setStatusSize (newSize : Z) (s : Status) : Status :=
  {| statusSize := newSize; link := link s; formatted := S (formatted s) |}.

(** [Document::setStatusSize(newSize, realDuration)]; [thumbed] tells
    whether the element has the thumbnail component. *)
Definition setStatusSize (thumbed : bool) (newSize : Z) (s : Status) : Status :=
  let s1 := File_setStatusSize newSize s in
  {| statusSize := statusSize s1;
     link := if thumbed then Some (linkTextFor (statusSize s1)) else link s1;
     formatted := formatted s1 |}.

(** [Document::updateStatusText()]: the answer [showPause] and the status
    afterwards. *)
Definition updateStatusText (thumbed : bool) (kind : Kind) (t : Transfer)
    (player : PlayerState) (s : Status) : bool * Status :=
  let '(size, realDuration, showPause) := statusValues kind t player in
  (showPause,
   if negb (size =? statusSize s) then setStatusSize thumbed size s else s).

End WithSizes.

(** The handler [textState] answers for a point on the link under the
    thumbnail of a thumbed element; [None] after a failed upload, when the
    link is not tested. *)
Definition thumbedLinkHandler (t : Transfer) : option LinkHandler :=
  if uploadFailed t then None
  else Some (if loading t || uploading t then CancelHandler
             else if dataLoaded t then OpenWithHandler
             else SaveHandler).

End DocumentStatus.

(** * Document element: optimal and current size *)

Module DocumentSize.

(** Style constants the two functions read besides those of
    [DocumentView.DocStyle]: [st::msgFileMinWidth], [st::msgMaxWidth],
    [st::mediaUnreadSkip], [st::mediaUnreadSize], [st::msgDateFont->height],
    [st::msgDateDelta.y()], [st::mediaCaptionSkip] and
    [st::msgPadding.bottom()]. *)
Record SizeStyle := {
  msgFileMinWidth : Z;
  msgMaxWidth : Z;
  mediaUnreadSkip : Z;
  mediaUnreadSize : Z;
  msgDateFontHeight : Z;
  msgDateDelta_y : Z;
  mediaCaptionSkip : Z;
  msgPadding_bottom : Z
}.

(** The voice component as the two functions read it once the
    transcription entry has been looked up: the width of the transcribe
    button when there is one, and the transcription text when it is not
    empty. *)
Record VoicePart := {
  transcribe : option Z;
  transcribeText : option DocumentView.TextString
}.

(** The element and what its parent answers: the components present,
    [MaxStatusWidth(_data)], [_parent->skipBlockWidth()],
    [_parent->bottomInfoIsWide()], the bubble flags and [maxWidth()]. *)
Record Element := {
  thumbed : bool;
  named : option Z;
  captioned : option DocumentView.TextString;
  voice : option VoicePart;
  isVoiceMessage : bool;
  statusWidth : Z;
  skipBlockWidth : Z;
  bottomInfoIsWide : bool;
  isBubbleTop : bool;
  isBubbleBottom : bool;
  maxWidth : Z
}.

Definition withCaptioned (e : Element)
    (c : option DocumentView.TextString) : Element :=
  {| thumbed := thumbed e; named := named e; captioned := c; voice := voice e;
     isVoiceMessage := isVoiceMessage e; statusWidth := statusWidth e;
     skipBlockWidth := skipBlockWidth e;
     bottomInfoIsWide := bottomInfoIsWide e;
     isBubbleTop := isBubbleTop e; isBubbleBottom := isBubbleBottom e;
     maxWidth := maxWidth e |}.

(** The transcription text the element shows, if any. *)
Definition shownTranscribe (e : Element) : option DocumentView.TextString :=
  match voice e with
  | Some v => transcribeText v
  | None => None
  end.

Section Sizes.

Variable st : DocumentView.DocStyle.

Variable ss : SizeStyle.

Definition fileLayout (e : Element) : DocumentView.FileLayout :=
  if thumbed e then DocumentView.msgFileThumbLayout st
  else DocumentView.msgFileLayout st.

(** [Document::countOptimalSize()] from the choice of the layout on;
    [isParentMedia] is [_parent->media() == this], [hasGroupId] is
    [_realParent->groupId()].  It answers the size and the element, which
    has lost its caption when it is neither the parent's media nor in a
    group. *)
Definition countOptimalSize (isParentMedia hasGroupId : bool) (e : Element)
  : (Z * Z) * Element :=
  let e :=
    if negb isParentMedia && negb hasGroupId then withCaptioned e None else e in
  let hasTranscribe :=
    match shownTranscribe e with Some _ => true | None => false end in
  let l := fileLayout e in
  let maxWidth_ := msgFileMinWidth ss in
  let tleft := DocumentView.padding_left l + DocumentView.thumbSize l
               + DocumentView.padding_right l in
  let tright := DocumentView.padding_left l in
  let maxWidth_ :=
    if thumbed e then Z.max maxWidth_ (tleft + statusWidth e + tright)
    else
      let unread := if isVoiceMessage e
                    then mediaUnreadSkip ss + mediaUnreadSize ss else 0 in
      Z.max maxWidth_ (tleft + statusWidth e + unread + skipBlockWidth e
                       + DocumentView.msgPadding_right st) in
  let maxWidth_ :=
    match named e with
    | Some namew =>
        Z.min (Z.max maxWidth_ (tleft + namew + tright)) (msgMaxWidth ss)
    | None => maxWidth_
    end in
  let maxWidth_ :=
    match voice e with
    | Some {| transcribe := Some buttonWidth |} =>
        maxWidth_ + (DocumentView.historyTranscribeSkip st + buttonWidth)
    | _ => maxWidth_
    end in
  let minHeight := DocumentView.padding_top l + DocumentView.thumbSize l
                   + DocumentView.padding_bottom l in
  let minHeight :=
    if (match captioned e with Some _ => false | None => true end)
       && negb hasTranscribe && bottomInfoIsWide e
    then minHeight + (msgDateFontHeight ss - msgDateDelta_y ss)
    else minHeight in
  let minHeight :=
    if negb (isBubbleTop e) then minHeight - DocumentView.msgFileTopMinus st
    else minHeight in
  let captionw := maxWidth_ - DocumentView.msgPadding_left st
                  - DocumentView.msgPadding_right st in
  let minHeight :=
    match shownTranscribe e with
    | Some text =>
        let minHeight := minHeight + DocumentView.countHeight text captionw in
        match captioned e with
        | Some _ => minHeight + mediaCaptionSkip ss
        | None => if isBubbleBottom e then minHeight + msgPadding_bottom ss
                  else minHeight
        end
    | None => minHeight
    end in
  let minHeight :=
    match captioned e with
    | Some caption =>
        let minHeight := minHeight + DocumentView.countHeight caption captionw in
        if isBubbleBottom e then minHeight + msgPadding_bottom ss else minHeight
    | None => minHeight
    end in
  ((maxWidth_, minHeight), e).

(** [Document::countCurrentSize(newWidth)]; [None] stands for the call of
    [File::countCurrentSize(newWidth)] that an element without caption and
    without transcription text hands the question to. *)
Definition countCurrentSize (e : Element) (newWidth : Z) : option (Z * Z) :=
  let hasTranscribe :=
    match shownTranscribe e with Some _ => true | None => false end in
  if (match captioned e with Some _ => false | None => true end)
     && negb hasTranscribe then None
  else
    let newWidth := Z.min newWidth (maxWidth e) in
    let l := fileLayout e in
    let newHeight := DocumentView.padding_top l + DocumentView.thumbSize l
                     + DocumentView.padding_bottom l in
    let newHeight :=
      if negb (isBubbleTop e) then newHeight - DocumentView.msgFileTopMinus st
      else newHeight in
    let captionw := newWidth - DocumentView.msgPadding_left st
                    - DocumentView.msgPadding_right st in
    let newHeight :=
      match shownTranscribe e with
      | Some text =>
          let newHeight := newHeight + DocumentView.countHeight text captionw in
          match captioned e with
          | Some _ => newHeight + mediaCaptionSkip ss
          | None => if isBubbleBottom e then newHeight + msgPadding_bottom ss
                    else newHeight
          end
      | None => newHeight
      end in
    let newHeight :=
      match captioned e with
      | Some caption =>
          let newHeight := newHeight + DocumentView.countHeight caption captionw in
          if isBubbleBottom e then newHeight + msgPadding_bottom ss
          else newHeight
      | None => newHeight
      end in
    Some (newWidth, newHeight).

End Sizes.

End DocumentSize.

(** * Photo element: hit testing *)

Module PhotoHitTest.

(** [st::msgPadding], [st::mediaCaptionSkip], [st::historyFastShareLeft]
    and [st::historyFastShareBottom]. *)
Record HitStyle := {
  msgPadding_left : Z;
  msgPadding_right : Z;
  msgPadding_bottom : Z;
  mediaCaptionSkip : Z;
  historyFastShareLeft : Z;
  historyFastShareBottom : Z
}.

(** [_data->uploading()], [_dataMedia->loaded()], [_data->loading()]. *)
Record Transfer := {
  uploading : bool;
  loaded : bool;
  loading : bool
}.

(** [_cancell], [_openl], [_savel] and [_parent->rightActionLink()]. *)
Inductive Link := CancelLink | OpenLink | SaveLink | RightActionLink.

(** What a [TextState] answer amounts to: the empty state, the state of
    the caption at a point and width, a link, or the state of the bottom
    info. *)
Inductive Hit :=
| NoHit
| InCaption (x y captionw : Z)
| OnLink (l : Link)
| BottomInfo.

(** The element and its parent: the size, [_parent->hasBubble()], the
    caption when it is not empty, [isBubbleBottom()],
    [_parent->media() == this], whether [_parent->bottomInfoTextState] for
    the given right and bottom edge and point answers a link or a cursor,
    and [_parent->rightActionSize()]. *)
Record View := {
  width : Z;
  height : Z;
  hasBubble : bool;
  caption : option DocumentView.TextString;
  isBubbleBottom : bool;
  isParentMedia : bool;
  bottomInfoHit : Z -> Z -> Z -> Z -> bool;
  rightActionSize : option (Z * Z)
}.

Section WithStyle.

Variable st : HitStyle.

(** [Photo::textState(point, request)]. *)
Definition textState (v : View) (t : Transfer) (px py : Z) : Hit :=
  if width v <? msgPadding_left st + msgPadding_right st + 1 then NoHit
  else
    let paintw := width v in
    let bubble := hasBubble v in
    let captionPart :=
      match (if bubble then caption v else None) with
      | Some text =>
          let captionw := paintw - msgPadding_left st - msgPadding_right st in
          let painth := height v - DocumentView.countHeight text captionw in
          let painth := if isBubbleBottom v then painth - msgPadding_bottom st
                        else painth in
          if DocumentView.QRect_contains (msgPadding_left st) painth captionw
               (height v - painth) px py
          then inl (InCaption (px - msgPadding_left st) (py - painth) captionw)
          else inr (painth - mediaCaptionSkip st)
      | None => inr (height v)
      end in
    match captionPart with
    | inl hit => hit
    | inr painth =>
        let result :=
          if DocumentView.QRect_contains 0 0 paintw painth px py then
            OnLink (if uploading t then CancelLink
                    else if loaded t then OpenLink
                    else if loading t then CancelLink
                    else SaveLink)
          else NoHit in
        match caption v with
        | None =>
            if isParentMedia v then
              let fullRight := paintw in
              let fullBottom := painth in
              if bottomInfoHit v fullRight fullBottom px py then BottomInfo
              else
                match (if bubble then None else rightActionSize v) with
                | Some (sw, sh) =>
                    let fastShareLeft := fullRight + historyFastShareLeft st in
                    let fastShareTop :=
                      fullBottom - historyFastShareBottom st - sh in
                    if DocumentView.QRect_contains fastShareLeft fastShareTop
                         sw sh px py
                    then OnLink RightActionLink
                    else result
                | None => result
                end
            else result
        | Some _ => result
        end
    end.

End WithStyle.

(** [Photo::getStateGrouped(geometry, sides, point, request)]; the
    geometry is given by its left, top, width and height. *)
Definition getStateGrouped (gx gy gw gh : Z) (t : Transfer) (px py : Z) : Hit :=
  if negb (DocumentView.QRect_contains gx gy gw gh px py) then NoHit
  else OnLink (if uploading t then CancelLink
               else if loaded t then OpenLink
               else if loading t then CancelLink
               else SaveLink).

End PhotoHitTest.

(** * Sample values used to exercise the statements *)

Definition st_example : Waveform.WaveStyle :=
  {| Waveform.msgWaveformBar := 2; Waveform.msgWaveformSkip := 1;
     Waveform.msgWaveformMin := 2; Waveform.msgWaveformMax := 20;
     Waveform.lineWidth := 1 |}.

Definition voice_example : Waveform.VoiceData :=
  {| Waveform.waveform := [5; 3; 8; 1; 0; 7]; Waveform.wavemax := 8 |}.

(** The same samples with a recorded maximum of -1. *)
Definition voice_unnormed : Waveform.VoiceData :=
  {| Waveform.waveform := [5; 3; 8; 1; 0; 7]; Waveform.wavemax := -1 |}.

(** A style whose bar step is zero. *)
Definition st_flat : Waveform.WaveStyle :=
  {| Waveform.msgWaveformBar := 2; Waveform.msgWaveformSkip := -2;
     Waveform.msgWaveformMin := 2; Waveform.msgWaveformMax := 20;
     Waveform.lineWidth := 1 |}.

Definition layout_example : DocumentView.FileLayout :=
  {| DocumentView.padding_left := 14; DocumentView.padding_top := 10;
     DocumentView.padding_right := 12; DocumentView.padding_bottom := 10;
     DocumentView.thumbSize := 44; DocumentView.nameTop := 16;
     DocumentView.linkTop := 40 |}.

Definition docstyle_example : DocumentView.DocStyle :=
  {| DocumentView.msgFileLayout := layout_example;
     DocumentView.msgFileThumbLayout := layout_example;
     DocumentView.msgFileLayoutGrouped := layout_example;
     DocumentView.msgFileThumbLayoutGrouped := layout_example;
     DocumentView.msgPadding_left := 13; DocumentView.msgPadding_right := 13;
     DocumentView.msgFileTopMinus := 1;
     DocumentView.msgWaveformMax := 20; DocumentView.msgWaveformMin := 2;
     DocumentView.historyTranscribeSkip := 10 |}.

Definition voice_seeking (b : bool) : DocumentView.Voice :=
  {| DocumentView.seeking := b;
     DocumentView.seekingStart := DocumentView.Fin 0;
     DocumentView.seekingCurrent := DocumentView.Fin 0;
     DocumentView.transcribe := None |}.

Definition document_example (b : bool) (w : Z) : DocumentView.Document :=
  {| DocumentView.thumbed := false; DocumentView.captioned := None;
     DocumentView.voice := Some (voice_seeking b);
     DocumentView.maxWidth := 300; DocumentView.width := w;
     DocumentView.isBubbleTop := true |}.

(** "Blurred or not": whether the Large image is missing. *)
Definition blurredOrNot (m : PhotoView.PhotoMedia) : bool :=
  match PhotoView.imageLarge m with
  | Some _ => false
  | None => true
  end.

(** The element once its media view holds [m]: images arrive between two
    paints. *)
Definition withMedia {K : PhotoView.ImageKit} (s : PhotoView.Photo K)
    (m : PhotoView.PhotoMedia) : PhotoView.Photo K :=
  PhotoView.Build_Photo K m (PhotoView.data s) (PhotoView.streamed s)
    (PhotoView.imageCache s) (PhotoView.imageCacheRoundRadius s)
    (PhotoView.imageCacheRoundCorners s) (PhotoView.imageCacheBlurred s)
    (PhotoView.prepareCalls s) (PhotoView.streamOpens s).

(** The order of the tiers, best first. *)
Definition tierRank (t : PhotoView.Tier) : Z :=
  match t with
  | PhotoView.Large => 0
  | PhotoView.Thumbnail => 1
  | PhotoView.Small => 2
  | PhotoView.InlineBlurred => 3
  end.

(** The order in which [prepareImageCache] looks for its blurred image. *)
Definition blurredRank (t : PhotoView.Tier) : Z :=
  match t with
  | PhotoView.InlineBlurred => 0
  | PhotoView.Thumbnail => 1
  | PhotoView.Small => 2
  | PhotoView.Large => 3
  end.

(** Tier [t] with image [i] is the first available one in the order given
    by [rank]. *)
Definition firstAvailable (rank : PhotoView.Tier -> Z) (m : PhotoView.PhotoMedia)
    (t : PhotoView.Tier) (i : PhotoView.Image) : Prop :=
  PhotoView.tierImage m t = Some i
  /\ forall t', rank t' < rank t -> PhotoView.tierImage m t' = None.

Definition noneAvailable (m : PhotoView.PhotoMedia) : Prop :=
  forall t, PhotoView.tierImage m t = None.

Definition media_example (large thumbnail small inline : option PhotoView.Image)
  : PhotoView.PhotoMedia :=
  {| PhotoView.imageLarge := large; PhotoView.imageThumbnail := thumbnail;
     PhotoView.imageSmall := small; PhotoView.thumbnailInline := inline;
     PhotoView.loaded := match large with Some _ => true | None => false end |}.

(** A toy image toolkit: an image is its size and the list of steps that
    made it. *)
Definition kit_example : PhotoView.ImageKit :=
  {| PhotoView.QImage := (PhotoView.QSize * list Z)%type;
     PhotoView.qsize := fst;
     PhotoView.PrepareWithBlurredBackground :=
       fun outer large blurred =>
         (outer, [match large with Some l => Z.of_nat l | None => -1 end;
                  match blurred with Some b => Z.of_nat b | None => -1 end]);
     PhotoView.Round := fun img radius corners =>
                          (fst img, radius :: corners :: snd img) |}.

Definition photo_example (m : PhotoView.PhotoMedia) (video failed : bool)
    (st : option PhotoView.Streamed) : PhotoView.Photo kit_example :=
  PhotoView.Build_Photo kit_example m
    {| PhotoView.hasVideo := video; PhotoView.videoPlaybackFailed := failed |}
    st ((0, 0), []) 0 0 0 0%nat 0%nat.

(** An environment with the usual easing curves and the set ids of
    data_stickers.h. *)
Definition env_example (disabled : bool) : Footer.Env :=
  {| Footer.animDisabled := disabled;
     Footer.rtl := false;
     Footer.stickerIconMove := 200;
     Footer.startDragDistance := 10;
     Footer.linear := fun delta dt => (delta * dt)%Q;
     Footer.easeOutCubic :=
       fun delta dt => (delta * ((dt - 1) * (dt - 1) * (dt - 1) + 1))%Q;
     Footer.FavedSetId := 0xFFFFFFFFFFFFFFFA;
     Footer.RecentSetId := 0xFFFFFFFFFFFFFFFE |}.

Definition scroll_example (start : Z) (cur to : Z) (max_ : Z) (drag : bool)
  : Footer.ScrollState :=
  {| Footer.selected := -1; Footer.max := max_;
     Footer.draggingStartX := cur; Footer.dragging := drag;
     Footer.x := {| Footer.a_from := inject_Z cur; Footer.a_cur := inject_Z cur;
                    Footer.a_to := inject_Z to |};
     Footer.selectionX := Footer.animValue 0 0;
     Footer.selectionWidth := Footer.animValue 40 40;
     Footer.animationStart := start;
     Footer.animating := negb (start =? 0) |}.

Definition footer_example (icons_ : list Z) (i s : Footer.ScrollState)
  : Footer.Footer :=
  {| Footer.icons := icons_;
     Footer.iconState := i; Footer.subiconState := s;
     Footer.iconsLeft := 8; Footer.iconsRight := 8;
     Footer.widgetWidth := 200; Footer.singleWidth := 40;
     Footer.subiconsWidth := 180;
     Footer.subiconsExpanded := false;
     Footer.subiconsWidthAnimation := None;
     Footer.iconsMouseDown := (0, 0); Footer.iconsMousePos := (0, 0);
     Footer.pressed := None; Footer.activeByScrollId := 0 |}.

(** The index of the first, and of the last, element of a list that
    satisfies a test; indices count from [i]. *)
Fixpoint firstIndexFrom (p : Z -> bool) (l : list Z) (i : Z) : option Z :=
  match l with
  | [] => None
  | a :: l' => if p a then Some i else firstIndexFrom p l' (i + 1)
  end.

Fixpoint lastIndexZ (p : Z -> bool) (l : list Z) (i : Z) (found : Z) : Z :=
  match l with
  | [] => found
  | a :: l' => lastIndexZ p l' (i + 1) (if p a then i else found)
  end.

Definition firstIndex (p : Z -> bool) (l : list Z) : option Z :=
  firstIndexFrom p l 0.

(** An icon answers a request for [setId]: it carries that id, or it is the
    Faved icon and the request is for the Recent set. *)
Definition answers (env : Footer.Env) (setId id : Z) : bool :=
  (id =? setId)
  || ((id =? Footer.FavedSetId env) && (setId =? Footer.RecentSetId env)).

Definition isFaved (env : Footer.Env) (id : Z) : bool :=
  id =? Footer.FavedSetId env.

Definition isAllEmoji (id : Z) : bool :=
  id =? Footer.AllEmojiSectionSetId.

(** * Auxiliary notions for the footer's geometry *)

(** The width [enumerateIcons] gives to an icon with the given set id. *)
Definition iconWidthQ (f : Footer.Footer) (setId : Z) : Q :=
  if setId =? Footer.AllEmojiSectionSetId then
    Footer.subiconsWidthValue f
      (if Footer.subiconsExpanded f then Footer.subiconsWidth f
       else Footer.singleWidth f)
  else inject_Z (Footer.singleWidth f).

(** The [IconInfo]s of the icons [rest], the first of them with index [i]
    and left edge [left_]. *)
Fixpoint infosFrom (f : Footer.Footer) (rest : list Z) (i left_ : Z)
  : list Footer.IconInfo :=
  match rest with
  | [] => []
  | setId :: rest' =>
      let shifted :=
        Footer.iconsLeft f - SafeRound (Footer.a_cur (Footer.x (Footer.iconState f)))
        + left_ in
      {| Footer.index := i; Footer.left := left_;
         Footer.adjustedLeft := shifted;
         Footer.width := SafeRound (iconWidthQ f setId);
         Footer.visible :=
           (if Qlt_le_dec 0 (inject_Z shifted + iconWidthQ f setId)
            then true else false)
           && (shifted <? Footer.widgetWidth f) |}
      :: infosFrom f rest' (i + 1)
           (Footer.truncQ (inject_Z left_ + iconWidthQ f setId))
  end.

(** A walk over a list that the callback can stop. *)
Fixpoint foldUntil {A : Type} (callback : A -> Footer.IconInfo -> bool * A)
    (l : list Footer.IconInfo) (acc : A) : A :=
  match l with
  | [] => acc
  | info :: l' =>
      let '(continue, acc') := callback acc info in
      if continue then foldUntil callback l' acc' else acc'
  end.

(** Whether icon [n] is the "All Emoji" icon: the test of
    [updateEmojiSectionWidth]. *)
Definition selectsAllEmoji (f : Footer.Footer) (n : Z) : bool :=
  (0 <=? n) && (n <? Z.of_nat (length (Footer.icons f)))
  && (match Footer.iconSetId f n with
      | Some id => id =? Footer.AllEmojiSectionSetId
      | None => false
      end).

(** A footer with more icons than fit its width, scrolled by 50. *)
Definition footer_wide : Footer.Footer :=
  footer_example [42; 43; 44; 45; 46; 47; 48; 49; 50]
    (scroll_example 0 50 50 100 false) (scroll_example 0 0 0 20 false).

(** An emoji footer: the Recent section, the "All Emoji" icon and one
    custom set. *)
Definition footer_emoji : Footer.Footer :=
  footer_example [Footer.RecentEmojiSectionSetId; Footer.AllEmojiSectionSetId; 42]
    (scroll_example 0 0 0 50 false) (scroll_example 0 0 0 50 false).

(** [footer_wide] while its icon row is dragged 30 to the left. *)
Definition footer_dragging : Footer.Footer :=
  Footer.mouseMoveEvent (env_example false) (70, 10)
    (Footer.mousePressEvent (100, 10) (Some 2) footer_wide).

(** A footer of six icons with the "All Emoji" icon selected and its
    strip of sub-icons expanded, as the geometry refresh and the end of the
    width animation leave it. *)
Definition footer_expanded : Footer.Footer :=
  Footer.subiconsWidthFrame (env_example false) 500 None
    (Footer.refreshIconsGeometry (env_example false) false 40 40 100 100 100
       (Footer.EmojiSectionSetId Footer.People) Footer.AnimNone
       (footer_example
          [Footer.RecentEmojiSectionSetId; Footer.AllEmojiSectionSetId;
           42; 43; 44; 45]
          (scroll_example 0 0 0 0 false) (scroll_example 0 0 0 0 false))).

(** [footer_expanded] after its last icon was selected at time 1000 with
    animations, the width animation that this starts came to its end at
    time 1100, and the axis' animation ticked at time 1200, the end of its
    200 ms. *)
Definition footer_centred : Footer.Footer :=
  let selected_ := Footer.setSelectedIcon 1000 5 Footer.AnimFull footer_expanded in
  let collapsed := Footer.subiconsWidthFrame (env_example false) 1100 None
                     selected_ in
  Footer.withIconState collapsed
    (Footer.tick (env_example false) 1200 (Footer.iconState collapsed)).

(** [footer_emoji] while its strip of sub-icons is dragged 30 to the left:
    the press was over the "All Emoji" icon. *)
Definition footer_subdragging : Footer.Footer :=
  Footer.mouseMoveEvent (env_example false) (70, 10)
    (Footer.mousePressEvent (100, 10) (Some 1) footer_emoji).

(** * Auxiliary notions for file names *)

(** A string without its tag pairs, read from the left: a pair that
    passes the test is dropped, any other code unit is kept. *)
Fixpoint stripTagPairs (l : list Z) : list Z :=
  match l with
  | c :: ((c' :: rest) as tl) =>
      if TagSymbols.tagPair c c' then stripTagPairs rest
      else c :: stripTagPairs tl
  | _ => l
  end.

(** The UTF-16 form of one character: a code unit that is no surrogate,
    or a high surrogate followed by a low one. *)
Definition validChunk (k : list Z) : bool :=
  match k with
  | [c] => negb (TagSymbols.isHighSurrogate c) && negb (TagSymbols.isLowSurrogate c)
  | [h; l] => TagSymbols.isHighSurrogate h && TagSymbols.isLowSurrogate l
  | _ => false
  end.

(** The character is at or above U+E0000. *)
Definition isTagChunk (k : list Z) : bool :=
  match k with
  | [h; l] => 0xe0000 <=? TagSymbols.surrogateToUcs4 h l
  | _ => false
  end.

(** * Auxiliary notions for the playback progress *)

(** An animated value whose start, current value and target all lie
    within [0, 1]. *)
Definition unitValue (v : Footer.AnimValue) : Prop :=
  (0 <= Footer.a_from v /\ Footer.a_from v <= 1)%Q
  /\ (0 <= Footer.a_cur v /\ Footer.a_cur v <= 1)%Q
  /\ (0 <= Footer.a_to v /\ Footer.a_to v <= 1)%Q.

(** A playback object at rest at progress 1/2, as left by a finished
    animation. *)
Definition playback_example : VoiceProgress.VoicePlayback :=
  {| VoiceProgress.progress :=
       {| Footer.a_from := 1 # 2; Footer.a_cur := 1 # 2; Footer.a_to := 1 # 2 |};
     VoiceProgress.position := 5000;
     VoiceProgress.started := 1000;
     VoiceProgress.running := false |}.

(** * Auxiliary notions for the waveform *)

(** The number of samples the loop runs over: the size of the chosen
    waveform, or [kWaveformSamplesCount] for the placeholder. *)
Definition waveSize (k : Z) (voiceData : option Waveform.VoiceData) : Z :=
  match Waveform.chooseWaveform voiceData with
  | Some w => Z.of_nat (length w)
  | None => k
  end.

(** The bar count of a call whose bar step is not zero: as many bars as
    steps fit into the available width, at most one per sample. *)
Definition barsToDraw (st : Waveform.WaveStyle) (k : Z)
    (voiceData : option Waveform.VoiceData) (availableWidth : Z) : Z :=
  Z.min (availableWidth
         ÷ (Waveform.msgWaveformBar st + Waveform.msgWaveformSkip st))
        (waveSize k voiceData).

(** A rectangle lies on its own side of the progress cutoff: an active one
    ends at or before it, an inactive one starts at or after it. *)
Definition rectColoured (activeWidth : Q) (r : Waveform.FillRect) : Prop :=
  match Waveform.rcolor r with
  | Waveform.Active => (Waveform.rx r + Waveform.rw r <= activeWidth)%Q
  | Waveform.Inactive => (activeWidth <= Waveform.rx r)%Q
  end.

(** The rectangles tile the bar that starts at [barLeft] and is [barWidth]
    wide: one rectangle over the whole bar, or two of positive width side by
    side. *)
Definition coversBar (barLeft barWidth : Z) (rects : list Waveform.FillRect)
  : Prop :=
  match rects with
  | [r] =>
      Waveform.rx r = inject_Z barLeft /\ Waveform.rw r = inject_Z barWidth
  | [r1; r2] =>
      Waveform.rx r1 = inject_Z barLeft
      /\ (Waveform.rx r2 == Waveform.rx r1 + Waveform.rw r1)%Q
      /\ (Waveform.rw r1 + Waveform.rw r2 == inject_Z barWidth)%Q
      /\ (0 < Waveform.rw r1)%Q /\ (0 < Waveform.rw r2)%Q
  | _ => False
  end.

(** The sample the loop reads at index [j]: the waveform's, or zero
    without a waveform. *)
Definition sampleAt (wf : option (list Z)) (j : Z) : option Z :=
  match wf with
  | Some w => Waveform.at_ w j
  | None => Some 0
  end.

(** * Auxiliary notions for the status of a document *)

(** The link's text names what its handler does. *)
Definition textNames (text : DocumentStatus.LinkText)
    (handler : DocumentStatus.LinkHandler) : Prop :=
  match text, handler with
  | DocumentStatus.Download, DocumentStatus.SaveHandler => True
  | DocumentStatus.OpenWith, DocumentStatus.OpenWithHandler => True
  | DocumentStatus.Cancel, DocumentStatus.CancelHandler => True
  | _, _ => False
  end.

(** An offset of a running transfer: not negative and none of the three
    special sizes. *)
Definition plainOffset (sizes : DocumentStatus.StatusSizes) (offset : Z) : Prop :=
  0 <= offset
  /\ offset <> DocumentStatus.FileStatusSizeReady sizes
  /\ offset <> DocumentStatus.FileStatusSizeLoaded sizes
  /\ offset <> DocumentStatus.FileStatusSizeFailed sizes.

(** The special sizes of the UI library. *)
Definition sizes_example : DocumentStatus.StatusSizes :=
  {| DocumentStatus.FileStatusSizeReady := 0xFFFFFFF0;
     DocumentStatus.FileStatusSizeLoaded := 0xFFFFFFF1;
     DocumentStatus.FileStatusSizeFailed := 0xFFFFFFF2 |}.

(** A download in progress at offset 4096. *)
Definition transfer_example : DocumentStatus.Transfer :=
  {| DocumentStatus.failed := false; DocumentStatus.uploadFailed := false;
     DocumentStatus.uploading := false; DocumentStatus.uploadOffset := 0;
     DocumentStatus.loading := true; DocumentStatus.loadOffset := 4096;
     DocumentStatus.dataLoaded := false |}.

(** A player that plays something else. *)
Definition player_example : DocumentStatus.PlayerState :=
  {| DocumentStatus.isThis := false; DocumentStatus.stopped := false;
     DocumentStatus.statePosition := 0; DocumentStatus.stateLength := 0;
     DocumentStatus.stateFrequency := 48000;
     DocumentStatus.showPauseIcon := false; DocumentStatus.seeking := false |}.

(** * Sample values for the size of a document *)

Definition sizestyle_example : DocumentSize.SizeStyle :=
  {| DocumentSize.msgFileMinWidth := 236; DocumentSize.msgMaxWidth := 430;
     DocumentSize.mediaUnreadSkip := 5; DocumentSize.mediaUnreadSize := 7;
     DocumentSize.msgDateFontHeight := 16; DocumentSize.msgDateDelta_y := 2;
     DocumentSize.mediaCaptionSkip := 5; DocumentSize.msgPadding_bottom := 8 |}.

(** A captioned file whose caption is 20 high at 200 or more, else 40. *)
Definition element_example (maxWidth_ : Z) : DocumentSize.Element :=
  {| DocumentSize.thumbed := false; DocumentSize.named := Some 120;
     DocumentSize.captioned :=
       Some {| DocumentView.countHeight := fun w => if 200 <=? w then 20 else 40 |};
     DocumentSize.voice := None; DocumentSize.isVoiceMessage := false;
     DocumentSize.statusWidth := 90; DocumentSize.skipBlockWidth := 60;
     DocumentSize.bottomInfoIsWide := false;
     DocumentSize.isBubbleTop := true; DocumentSize.isBubbleBottom := true;
     DocumentSize.maxWidth := maxWidth_ |}.

(** * Auxiliary notions for the hit test of a photo *)

(** The link chosen by the state of the data: uploading gives cancel,
    loaded gives open, loading gives cancel, anything else gives save. *)
Definition linkByState (t : PhotoHitTest.Transfer) : PhotoHitTest.Link :=
  if PhotoHitTest.uploading t then PhotoHitTest.CancelLink
  else if PhotoHitTest.loaded t then PhotoHitTest.OpenLink
  else if PhotoHitTest.loading t then PhotoHitTest.CancelLink
  else PhotoHitTest.SaveLink.

(** * Facts *)

Lemma clampZ_bounds (v lo hi : Z) : lo <= hi -> lo <= clampZ v lo hi <= hi.
Proof.
  unfold clampZ; intros H.
  destruct (v <? lo) eqn:E1; [lia|].
  destruct (hi <? v) eqn:E2; lia.
Qed.

Lemma clampZ_above (v lo hi : Z) : lo <= hi -> hi <= v -> clampZ v lo hi = hi.
Proof.
  unfold clampZ; intros H1 H2.
  destruct (v <? lo) eqn:E1; [lia|].
  destruct (hi <? v) eqn:E2; lia.
Qed.

Lemma clampZ_below (v lo hi : Z) : lo <= hi -> v <= lo -> clampZ v lo hi = lo.
Proof.
  unfold clampZ; intros H1 H2.
  destruct (v <? lo) eqn:E1; [lia|].
  destruct (hi <? v) eqn:E2; lia.
Qed.

Lemma clampZ_inside (v lo hi : Z) : lo <= v <= hi -> clampZ v lo hi = v.
Proof.
  unfold clampZ; intros H.
  destruct (v <? lo) eqn:E1; [lia|].
  destruct (hi <? v) eqn:E2; lia.
Qed.

Lemma seqZ_length (i : Z) (n : nat) : length (seqZ i n) = n.
Proof. revert i; induction n; intros; simpl; [reflexivity | now rewrite IHn]. Qed.

Lemma seqZ_In (i : Z) (n : nat) (j : Z) :
  In j (seqZ i n) <-> i <= j < i + Z.of_nat n.
Proof.
  revert i; induction n as [|n IH]; intros i; simpl.
  - lia.
  - rewrite IH. lia.
Qed.

Lemma seqZ_NoDup (i : Z) (n : nat) : NoDup (seqZ i n).
Proof.
  revert i; induction n as [|n IH]; intros i; simpl; constructor.
  - rewrite seqZ_In. lia.
  - apply IH.
Qed.

Lemma seqZ_snoc (i : Z) (n : nat) :
  seqZ i (S n) = seqZ i n ++ [i + Z.of_nat n].
Proof.
  revert i; induction n as [|n IH]; intros i.
  - simpl. now rewrite Z.add_0_r.
  - change (seqZ i (S (S n))) with (i :: seqZ (i + 1) (S n)).
    rewrite IH. simpl. do 3 f_equal. lia.
Qed.

(** ** PaintWaveform *)

Section WaveformFacts.

Import Waveform.

Variable st : WaveStyle.
Variable barNormValue : Z.
Variable activeWidth : Q.

(** Reading inside the array succeeds. *)
Lemma at_in_range (w : list Z) (i : Z) :
  0 <= i < Z.of_nat (length w) -> exists v, at_ w i = Some v.
Proof.
  intros H. unfold at_.
  destruct (i <? 0) eqn:E; [lia|].
  destruct (nth_error w (Z.to_nat i)) eqn:E'; [eauto|].
  apply nth_error_None in E'. lia.
Qed.

Lemma at_repeat_zero (m : nat) (i : Z) :
  0 <= i < Z.of_nat m -> at_ (repeat 0 m) i = Some 0.
Proof.
  intros H. unfold at_.
  destruct (i <? 0) eqn:E; [lia|].
  assert (Hn : (Z.to_nat i < m)%nat) by lia.
  revert Hn. generalize (Z.to_nat i). clear.
  induction m as [|m IH]; intros [|n] Hn; simpl; try lia; auto.
  apply IH. lia.
Qed.

(** A bar is drawn exactly when its divisor is not zero. *)
Lemma drawBar_defined (barLeft maxValue : Z) :
  barNormValue <> 0 ->
  drawBar st barNormValue activeWidth barLeft maxValue
  = Some ((maxValue * maxDelta st + barNormValue ÷ 2) ÷ barNormValue,
          fillBar st activeWidth barLeft
            ((maxValue * maxDelta st + barNormValue ÷ 2) ÷ barNormValue)).
Proof.
  intros H. unfold drawBar, intDiv.
  destruct (barNormValue =? 0) eqn:E; [apply Z.eqb_eq in E; contradiction|].
  reflexivity.
Qed.

Lemma drawBar_undefined (barLeft maxValue : Z) :
  barNormValue = 0 ->
  drawBar st barNormValue activeWidth barLeft maxValue = None.
Proof. intros ->. reflexivity. Qed.

Lemma drawBar_some (barLeft maxValue bv : Z) (rects : list FillRect) :
  drawBar st barNormValue activeWidth barLeft maxValue = Some (bv, rects) ->
  barNormValue <> 0
  /\ bv = (maxValue * maxDelta st + barNormValue ÷ 2) ÷ barNormValue
  /\ rects = fillBar st activeWidth barLeft bv.
Proof.
  unfold drawBar, intDiv.
  destruct (barNormValue =? 0) eqn:E; [discriminate|].
  apply Z.eqb_neq in E. intros [= <- <-]. auto.
Qed.

(** The loop never leaves the array: started at [i] with [n] iterations to
    go and [i + n] samples available, no read stops it. *)
Lemma paintLoop_reads_inside (wf : option (list Z)) (wfSize barCount : Z)
    (n : nat) :
  forall i barLeft sum maxValue bucket,
    0 <= i ->
    (forall w, wf = Some w -> i + Z.of_nat n <= Z.of_nat (length w)) ->
    paintLoop st wf wfSize barCount barNormValue activeWidth
              n i barLeft sum maxValue bucket <> Stopped ReadOutside.
Proof.
  induction n as [|n IH]; intros i barLeft sum maxValue bucket Hi Hn.
  - simpl. discriminate.
  - cbn [paintLoop].
    assert (Hv : exists v,
               match wf with Some w => at_ w i | None => Some 0 end = Some v).
    { destruct wf as [w|]; [|eauto].
      apply at_in_range. specialize (Hn w eq_refl). lia. }
    destruct Hv as [v ->].
    assert (Hn' : forall w, wf = Some w ->
                            i + 1 + Z.of_nat n <= Z.of_nat (length w))
      by (intros w Hw; specialize (Hn w Hw); lia).
    destruct (sum + barCount <? wfSize).
    + apply IH; [lia | exact Hn'].
    + destruct (drawBar _ _ _ _ _) as [[bv rects]|]; [|discriminate].
      match goal with
      | |- match ?l with _ => _ end <> _ =>
          assert (Hrest : l <> Stopped ReadOutside)
            by (apply IH; [lia | exact Hn']);
          destruct l as [rest|f]
      end; [discriminate | exact Hrest].
Qed.

(** With a divisor that is not zero the loop runs to its end. *)
Lemma paintLoop_total (w : list Z) (wfSize barCount : Z) (n : nat) :
  barNormValue <> 0 ->
  forall i barLeft sum maxValue bucket,
    0 <= i -> i + Z.of_nat n <= Z.of_nat (length w) ->
    exists bars,
      paintLoop st (Some w) wfSize barCount barNormValue activeWidth
                n i barLeft sum maxValue bucket = Done bars.
Proof.
  intros Hnorm.
  induction n as [|n IH]; intros i barLeft sum maxValue bucket Hi Hn.
  - simpl. eauto.
  - destruct (at_in_range w i) as [v Hv]; [lia|].
    cbn [paintLoop]. rewrite Hv.
    destruct (sum + barCount <? wfSize).
    + apply IH; lia.
    + rewrite drawBar_defined by exact Hnorm.
      edestruct IH as [bars Hb]; [| | rewrite Hb; eauto]; lia.
Qed.

Lemma paintLoop_total_placeholder (wfSize barCount : Z) (n : nat) :
  barNormValue <> 0 ->
  forall i barLeft sum maxValue bucket,
    exists bars,
      paintLoop st None wfSize barCount barNormValue activeWidth
                n i barLeft sum maxValue bucket = Done bars.
Proof.
  intros Hnorm.
  induction n as [|n IH]; intros i barLeft sum maxValue bucket.
  - simpl. eauto.
  - cbn [paintLoop].
    destruct (sum + barCount <? wfSize).
    + apply IH.
    + rewrite drawBar_defined by exact Hnorm.
      edestruct IH as [bars Hb]; rewrite Hb; eauto.
Qed.

(** Without a bar to draw the loop only reads: it ends with no bar,
    whatever the divisor. *)
Lemma paintLoop_no_bars (wf : option (list Z)) (wfSize barCount : Z) (n : nat) :
  barCount <= 0 -> 0 < wfSize ->
  forall i barLeft sum maxValue bucket,
    0 <= i ->
    (forall w, wf = Some w -> i + Z.of_nat n <= Z.of_nat (length w)) ->
    sum <= 0 ->
    paintLoop st wf wfSize barCount barNormValue activeWidth
              n i barLeft sum maxValue bucket = Done [].
Proof.
  intros Hbc Hsize.
  induction n as [|n IH]; intros i barLeft sum maxValue bucket Hi Hn Hsum.
  - reflexivity.
  - cbn [paintLoop].
    assert (Hv : exists v,
               match wf with Some w => at_ w i | None => Some 0 end = Some v).
    { destruct wf as [w|]; [|eauto].
      apply at_in_range. specialize (Hn w eq_refl). lia. }
    destruct Hv as [v ->].
    destruct (sum + barCount <? wfSize) eqn:E; [|apply Z.ltb_ge in E; lia].
    apply IH; [lia| |lia].
    intros w Hw. specialize (Hn w Hw). lia.
Qed.

(** Without a waveform the loop does what it does on as many zero
    samples. *)
Lemma paintLoop_placeholder_zero (m : nat) (wfSize barCount : Z) (n : nat) :
  forall i barLeft sum maxValue bucket,
    0 <= i -> i + Z.of_nat n <= Z.of_nat m ->
    paintLoop st None wfSize barCount barNormValue activeWidth
              n i barLeft sum maxValue bucket
    = paintLoop st (Some (repeat 0 m)) wfSize barCount barNormValue activeWidth
                n i barLeft sum maxValue bucket.
Proof.
  induction n as [|n IH]; intros i barLeft sum maxValue bucket Hi Hn.
  - reflexivity.
  - cbn [paintLoop]. rewrite at_repeat_zero by lia.
    destruct (sum + barCount <? wfSize).
    + apply IH; lia.
    + destruct (drawBar _ _ _ _ _) as [[bv rects]|]; [|reflexivity].
      rewrite IH by lia. reflexivity.
Qed.

(** With zero samples and a zero running maximum every bar has maximum
    zero. *)
Lemma paintLoop_placeholder_max (wfSize barCount : Z) (n : nat) :
  forall i barLeft sum bucket bars,
    paintLoop st None wfSize barCount barNormValue activeWidth
              n i barLeft sum 0 bucket = Done bars ->
    Forall (fun b => bar_max b = 0) bars.
Proof.
  induction n as [|n IH]; intros i barLeft sum bucket bars.
  - simpl. intros [= <-]. constructor.
  - cbn [paintLoop].
    destruct (sum + barCount <? wfSize).
    + apply IH.
    + replace (if sum + barCount - wfSize <? (barCount + 1) ÷ 2
               then Z.max 0 0 else 0) with 0
        by (destruct (_ <? _); reflexivity).
      replace (if sum + barCount - wfSize <? (barCount + 1) ÷ 2
               then 0 else 0) with 0
        by (destruct (_ <? _); reflexivity).
      destruct (drawBar _ _ _ _ _) as [[bv rects]|]; [|discriminate].
      destruct (paintLoop _ _ _ _ _ _ _ _ _ _ _ _) as [rest|f] eqn:E;
        [|discriminate].
      intros [= <-]. constructor; [reflexivity|].
      eapply IH; eauto.
Qed.

(** The value of every bar the loop emits. *)
Lemma paintLoop_bar_values (wf : option (list Z)) (wfSize barCount : Z) (n : nat) :
  forall i barLeft sum maxValue bucket bars,
    paintLoop st wf wfSize barCount barNormValue activeWidth
              n i barLeft sum maxValue bucket = Done bars ->
    Forall (fun b => bar_value b
                     = (bar_max b * maxDelta st + barNormValue ÷ 2) ÷ barNormValue)
           bars.
Proof.
  induction n as [|n IH]; intros i barLeft sum maxValue bucket bars.
  - simpl. intros [= <-]. constructor.
  - cbn [paintLoop].
    destruct (match wf with Some w => at_ w i | None => Some 0 end) as [v|];
      [|discriminate].
    destruct (sum + barCount <? wfSize).
    + apply IH.
    + destruct (drawBar _ _ _ _ _) as [[bv rects]|] eqn:Ed; [|discriminate].
      apply drawBar_some in Ed. destruct Ed as (_ & Hv & _).
      destruct (paintLoop _ _ _ _ _ _ _ _ _ _ _ _) as [rest|f] eqn:E;
        [|discriminate].
      intros [= <-]. constructor; [exact Hv|].
      eapply IH; eauto.
Qed.

End WaveformFacts.

Section WaveformBuckets.

Import Waveform.

Variable st : WaveStyle.
Variable barNormValue : Z.
Variable activeWidth : Q.
Variable w : list Z.

Lemma aggregates_init : aggregates w 0 [].
Proof. split; [intros j v []| now left]. Qed.

Lemma aggregates_single (i v : Z) : at_ w i = Some v -> aggregates w v [i].
Proof.
  intros H; split.
  - intros j v' [<-|[]] Hj. rewrite H in Hj. injection Hj as <-. lia.
  - right. exists i. split; [now left | assumption].
Qed.

Lemma aggregates_snoc (m : Z) (bucket : list Z) (i v : Z) :
  aggregates w m bucket -> at_ w i = Some v ->
  aggregates w (Z.max m v) (bucket ++ [i]).
Proof.
  intros [Hle Hin] Hv; split.
  - intros j v' Hj Hj'. apply in_app_or in Hj as [Hj|[<-|[]]].
    + specialize (Hle j v' Hj Hj'). lia.
    + rewrite Hv in Hj'. injection Hj' as <-. lia.
  - destruct (Z.max_spec m v) as [[_ E]|[_ E]]; rewrite E.
    + right. exists i. split; [apply in_or_app; right; now left | assumption].
    + destruct Hin as [->|[j [Hj Hj']]]; [now left|].
      right. exists j. split; [apply in_or_app; now left | assumption].
Qed.

Variable barCount : Z.

Let N : Z := Z.of_nat (length w).

Hypothesis HN : 1 <= N.
Hypothesis Hbc : 0 <= barCount <= N.

(** The loop invariant, seen from any intermediate state: after [i]
    samples and [k] bars the counter is [i * barCount - k * N] and stays
    below [N]; with a divisor that is not zero the remaining iterations
    draw the remaining [barCount - k] bars, each aggregating its own
    bucket of indices already read or still to read, and (when there is at
    least one bar) the buckets still to come are the pending one followed
    by the samples not yet read. *)
Lemma paintLoop_invariant (n : nat) :
  barNormValue <> 0 ->
  forall i barLeft sum maxValue bucket k,
    0 <= i -> i + Z.of_nat n = N ->
    sum = i * barCount - k * N -> 0 <= sum < N ->
    aggregates w maxValue bucket ->
    exists bars,
      paintLoop st (Some w) N barCount barNormValue activeWidth
                n i barLeft sum maxValue bucket = Done bars
      /\ Z.of_nat (length bars) = barCount - k
      /\ Forall (fun b => aggregates w (bar_max b) (bar_bucket b)) bars
      /\ (1 <= barCount -> (sum = 0 -> bucket = []) ->
          concat (map bar_bucket bars) = bucket ++ seqZ i n).
Proof.
  intros Hnorm.
  induction n as [|n IH]; intros i barLeft sum maxValue bucket k Hi Hn Hsum Hrange Hagg.
  - exists []. simpl. repeat split.
    + assert (N * (barCount - k) = sum) by lia. nia.
    + constructor.
    + intros Hb Hz. rewrite app_nil_r. symmetry. apply Hz.
      assert (E : N * (barCount - k) = sum) by lia.
      assert (E0 : barCount - k = 0) by nia.
      rewrite E0 in E. lia.
  - destruct (at_in_range w i) as [v Hv]; [unfold N in *; lia|].
    cbn [paintLoop]. rewrite Hv.
    destruct (sum + barCount <? N) eqn:Elt.
    + destruct (IH (i + 1) barLeft (sum + barCount) (Z.max maxValue v)
                   (bucket ++ [i]) k) as (bars & Hb & Hlen & Hall & Hcat);
        try lia; [apply aggregates_snoc; assumption|].
      exists bars. repeat split; try assumption.
      intros H1 _. rewrite Hcat; [|assumption|lia].
      rewrite <- app_assoc. reflexivity.
    + set (sum' := sum + barCount - N).
      set (consumed := sum' <? (barCount + 1) ÷ 2).
      rewrite drawBar_defined by exact Hnorm.
      destruct (IH (i + 1) (barLeft + (barWidth st + msgWaveformSkip st)) sum'
                   (if consumed then 0 else v)
                   (if consumed then [] else [i]) (k + 1))
        as (bars & Hb & Hlen & Hall & Hcat);
        try (unfold sum'; lia).
      { destruct consumed; [apply aggregates_init | now apply aggregates_single]. }
      rewrite Hb. eexists. split; [reflexivity|].
      split; [simpl length; lia|].
      split.
      { constructor; [|assumption]. cbn [bar_max bar_bucket].
        destruct consumed; [now apply aggregates_snoc | assumption]. }
      intros H1 _. cbn [map concat bar_bucket].
      rewrite Hcat; [|assumption|].
      * destruct consumed; cbn [seqZ]; rewrite <- ?app_assoc; reflexivity.
      * intros Hz. subst consumed.
        destruct (sum' <? (barCount + 1) ÷ 2) eqn:Ec; [reflexivity|].
        exfalso. apply Z.ltb_ge in Ec.
        assert (1 <= (barCount + 1) ÷ 2).
        { apply Z.quot_le_lower_bound; lia. }
        lia.
Qed.

(** With a zero divisor the loop is stopped at the first bar it has to
    draw: as long as a bar is still due, the call ends in a division by
    zero. *)
Lemma paintLoop_stops (n : nat) :
  barNormValue = 0 ->
  forall i barLeft sum maxValue bucket k,
    0 <= i -> i + Z.of_nat n = N ->
    sum = i * barCount - k * N -> 0 <= sum < N ->
    k < barCount ->
    paintLoop st (Some w) N barCount barNormValue activeWidth
              n i barLeft sum maxValue bucket = Stopped DivisionByZero.
Proof.
  intros Hnorm.
  induction n as [|n IH]; intros i barLeft sum maxValue bucket k Hi Hn Hsum Hrange Hk.
  - exfalso. assert (E : N * (barCount - k) = sum) by lia. nia.
  - destruct (at_in_range w i) as [v Hv]; [unfold N in *; lia|].
    cbn [paintLoop]. rewrite Hv.
    destruct (sum + barCount <? N) eqn:Elt.
    + apply Z.ltb_lt in Elt. apply (IH _ _ _ _ _ k); lia.
    + rewrite drawBar_undefined by exact Hnorm. reflexivity.
Qed.

End WaveformBuckets.

Section WaveformResults.

Import Waveform.

Lemma chooseWaveform_valid (vd : VoiceData) (v0 : Z) (rest : list Z) :
  waveform vd = v0 :: rest -> 0 <= v0 ->
  chooseWaveform (Some vd) = Some (waveform vd).
Proof.
  intros E H. unfold chooseWaveform. rewrite E.
  destruct (v0 <? 0) eqn:E0; [lia | reflexivity].
Qed.

(** A chosen waveform is the one of the voice data, is not empty and
    starts with a sample that is not negative. *)
Lemma chooseWaveform_some (voiceData : option VoiceData) (w : list Z) :
  chooseWaveform voiceData = Some w ->
  exists vd v0 rest,
    voiceData = Some vd /\ waveform vd = w /\ w = v0 :: rest /\ 0 <= v0.
Proof.
  unfold chooseWaveform. destruct voiceData as [vd|]; [|discriminate].
  destruct (waveform vd) as [|v0 rest] eqn:E; [discriminate|].
  destruct (v0 <? 0) eqn:E0; [discriminate|].
  intros [= <-]. apply Z.ltb_ge in E0.
  exists vd, v0, rest. auto.
Qed.

Lemma barCountOf_defined (st : WaveStyle) (availableWidth wfSize : Z) :
  msgWaveformBar st + msgWaveformSkip st <> 0 ->
  barCountOf st availableWidth wfSize
  = Some (Z.min (availableWidth ÷ (msgWaveformBar st + msgWaveformSkip st))
                wfSize).
Proof.
  intros H. unfold barCountOf, intDiv.
  destruct (_ =? 0) eqn:E; [apply Z.eqb_eq in E; contradiction | reflexivity].
Qed.

Lemma barCountOf_undefined (st : WaveStyle) (availableWidth wfSize : Z) :
  msgWaveformBar st + msgWaveformSkip st = 0 ->
  barCountOf st availableWidth wfSize = None.
Proof. intros H. unfold barCountOf, intDiv. rewrite H. reflexivity. Qed.

(** The divisor of the bar value is at least one as long as the recorded
    maximum is not negative, and it is one for the placeholder. *)
Lemma barNormValueOf_positive (wf : option (list Z)) (voiceData : option VoiceData) :
  (forall vd, voiceData = Some vd -> 0 <= wavemax vd) ->
  1 <= barNormValueOf wf voiceData.
Proof.
  intros H. unfold barNormValueOf.
  destruct wf as [w|]; [|lia].
  destruct voiceData as [vd|]; [|lia].
  specialize (H vd eq_refl). lia.
Qed.

Lemma barNormValueOf_placeholder (voiceData : option VoiceData) :
  barNormValueOf None voiceData = 1.
Proof. reflexivity. Qed.

(** What a call comes to once the bar step is not zero.  With a divisor
    [wavemax + 1] that is not zero, or with no bar to draw, it runs to its
    end and draws as many bars as [barsToDraw] says (none when that is
    negative), each aggregating a bucket of samples of the chosen
    waveform; with a zero divisor and a bar to draw it is stopped. *)
Lemma PaintWaveform_outcome
    (st : WaveStyle) (k : Z) (voiceData : option VoiceData)
    (availableWidth : Z) (progress : Q) :
  msgWaveformBar st + msgWaveformSkip st <> 0 ->
  (barNormValueOf (chooseWaveform voiceData) voiceData <> 0
   \/ barsToDraw st k voiceData availableWidth <= 0 ->
   exists bars,
     PaintWaveform st k voiceData availableWidth progress = Done bars
     /\ Z.of_nat (length bars)
        = Z.max 0 (barsToDraw st k voiceData availableWidth)
     /\ (forall w, chooseWaveform voiceData = Some w ->
           Forall (fun b => aggregates w (bar_max b) (bar_bucket b)) bars
           /\ Forall (fun b => Forall (fun j => 0 <= j < Z.of_nat (length w))
                                      (bar_bucket b)) bars))
  /\ (barNormValueOf (chooseWaveform voiceData) voiceData = 0 ->
      1 <= barsToDraw st k voiceData availableWidth ->
      PaintWaveform st k voiceData availableWidth progress
      = Stopped DivisionByZero).
Proof.
  intros Hstep. unfold barsToDraw, waveSize, PaintWaveform.
  destruct (chooseWaveform voiceData) as [w|] eqn:Ew.
  - destruct (chooseWaveform_some _ _ Ew) as (vd & v0 & rest & -> & Hw & Ewl & H0).
    set (N := Z.of_nat (length w)).
    assert (HN : 1 <= N) by (unfold N; rewrite Ewl; simpl length; lia).
    rewrite (barCountOf_defined st availableWidth N Hstep).
    set (count := Z.min (availableWidth ÷ (msgWaveformBar st + msgWaveformSkip st)) N).
    assert (Hle : count <= N) by (unfold count; lia).
    split.
    + intros Hcase.
      destruct (Z_le_gt_dec count 0) as [Hnone|Hsome].
      * exists []. split.
        -- apply paintLoop_no_bars; try lia.
           intros w' [= <-]. fold N. lia.
        -- split; [simpl length; lia|].
           intros w' _. split; constructor.
      * destruct Hcase as [Hnorm|Hc]; [|lia].
        destruct (paintLoop_invariant st
                    (barNormValueOf (Some w) (Some vd))
                    (inject_Z (SafeRound (inject_Z availableWidth * progress)))
                    w count HN ltac:(fold N; lia)
                    (Z.to_nat N) Hnorm 0 0 0 0 [] 0)
          as (bars & Hb & Hlen & Hall & Hcat);
          try (fold N; lia); [apply aggregates_init|].
        exists bars. fold N in Hb. split; [exact Hb|].
        split; [lia|].
        intros w' [= <-]. split; [exact Hall|].
        specialize (Hcat ltac:(lia) ltac:(reflexivity)).
        cbn [app] in Hcat.
        rewrite Forall_forall. intros b Hb'.
        rewrite Forall_forall. intros j Hj.
        assert (Hin : In j (concat (map bar_bucket bars))).
        { apply in_concat. exists (bar_bucket b). split; [|exact Hj].
          apply in_map. exact Hb'. }
        rewrite Hcat in Hin. apply seqZ_In in Hin. unfold N in Hin. lia.
    + intros Hnorm Hcount.
      apply (paintLoop_stops st _ _ w count HN ltac:(fold N; lia)
               (Z.to_nat N) Hnorm 0 0 0 0 [] 0); fold N; lia.
  - rewrite (barCountOf_defined st availableWidth k Hstep).
    set (count := Z.min (availableWidth ÷ (msgWaveformBar st + msgWaveformSkip st)) k).
    split; [|intros Hnorm; discriminate Hnorm].
    intros _.
    destruct (Z_le_gt_dec k 0) as [Hk|Hk].
    { exists []. replace (Z.to_nat k) with O by lia.
      split; [reflexivity|]. split; [simpl length; unfold count; lia|].
      intros w' Hw'. discriminate Hw'. }
    destruct (Z_le_gt_dec count 0) as [Hnone|Hsome].
    + exists []. split.
      * apply paintLoop_no_bars; try lia. intros w' Hw'. discriminate Hw'.
      * split; [simpl length; lia|]. intros w' Hw'. discriminate Hw'.
    + rewrite (paintLoop_placeholder_zero st _ _ (Z.to_nat k)) by lia.
      assert (El : Z.of_nat (length (repeat 0 (Z.to_nat k))) = k)
        by (rewrite repeat_length; lia).
      destruct (paintLoop_invariant st
                  (barNormValueOf None voiceData)
                  (inject_Z (SafeRound (inject_Z availableWidth * progress)))
                  (repeat 0 (Z.to_nat k)) count
                  ltac:(rewrite El; lia) ltac:(rewrite El; unfold count; lia)
                  (Z.to_nat k) ltac:(discriminate) 0 0 0 0 [] 0)
        as (bars & Hb & Hlen & _ & _);
        try (rewrite ?El; lia); [apply aggregates_init|].
      rewrite El in Hb. exists bars. split; [exact Hb|].
      split; [lia|]. intros w' Hw'. discriminate Hw'.
Qed.

(** C1 (as amended).  For a waveform of [N >= 1] samples whose first sample
    is non-negative, a recorded maximum other than -1 (so that the divisor
    [wavemax + 1] of the bar value is not zero), a positive bar step and a
    non-negative available width, PaintWaveform draws exactly
    [min (availableWidth / (barWidth + barSkip)) N] bars, each bar holding
    the running maximum of its own bucket; and as soon as the width has room
    for one bar the buckets of the drawn bars, taken in order, are the
    samples [0 .. N-1] in order, so every sample lies in exactly one
    bucket. *)
Theorem PaintWaveform_bars_and_buckets
    (st : WaveStyle) (k : Z) (vd : VoiceData) (availableWidth : Z)
    (progress : Q) (v0 : Z) (rest : list Z)
    (Hwf : waveform vd = v0 :: rest)
    (Hfirst : 0 <= v0)
    (Hnorm : wavemax vd <> -1)
    (Hstep : 0 < msgWaveformBar st + msgWaveformSkip st)
    (Hwidth : 0 <= availableWidth) :
  exists bars,
    PaintWaveform st k (Some vd) availableWidth progress = Done bars
    /\ Z.of_nat (length bars)
       = Z.min (availableWidth ÷ (msgWaveformBar st + msgWaveformSkip st))
               (Z.of_nat (length (waveform vd)))
    /\ Forall (fun b => aggregates (waveform vd) (bar_max b) (bar_bucket b)) bars
    /\ (msgWaveformBar st + msgWaveformSkip st <= availableWidth ->
        concat (map bar_bucket bars) = seqZ 0 (length (waveform vd))).
Proof.
  unfold PaintWaveform.
  rewrite (chooseWaveform_valid vd v0 rest Hwf Hfirst).
  set (N := Z.of_nat (length (waveform vd))).
  assert (HN : 1 <= N) by (unfold N; rewrite Hwf; simpl length; lia).
  assert (Hq : 0 <= availableWidth ÷ (msgWaveformBar st + msgWaveformSkip st))
    by (apply Z.quot_pos; lia).
  rewrite (barCountOf_defined st availableWidth N) by lia.
  set (count := Z.min (availableWidth ÷ (msgWaveformBar st + msgWaveformSkip st)) N).
  assert (Hbc : 0 <= count <= N) by (unfold count; lia).
  assert (Hdiv : barNormValueOf (Some (waveform vd)) (Some vd) <> 0)
    by (unfold barNormValueOf; lia).
  destruct (paintLoop_invariant st
              (barNormValueOf (Some (waveform vd)) (Some vd))
              (inject_Z (SafeRound (inject_Z availableWidth * progress)))
              (waveform vd) count HN Hbc
              (Z.to_nat N) Hdiv 0 0 0 0 [] 0)
    as (bars & Hb & Hlen & Hall & Hcat);
    try (fold N; lia); [apply aggregates_init|].
  exists bars. fold N in Hb. split; [exact Hb|].
  split; [rewrite Hlen; unfold count; lia|].
  split; [exact Hall|].
  intros Hroom.
  rewrite Hcat; [unfold N; rewrite Nat2Z.id; reflexivity| |reflexivity].
  unfold count.
  assert (1 <= availableWidth ÷ (msgWaveformBar st + msgWaveformSkip st))
    by (apply Z.quot_le_lower_bound; lia).
  lia.
Qed.

Lemma PaintWaveform_bars_and_buckets_witness :
  waveform voice_example = 5 :: [3; 8; 1; 0; 7]
  /\ 0 <= 5
  /\ wavemax voice_example <> -1
  /\ 0 < msgWaveformBar st_example + msgWaveformSkip st_example
  /\ 0 <= 9
  /\ exists bars,
       PaintWaveform st_example 100 (Some voice_example) 9 (1 # 2) = Done bars
       /\ Z.of_nat (length bars) = 3
       /\ concat (map bar_bucket bars) = seqZ 0 6.
Proof.
  assert (H1 : waveform voice_example = 5 :: [3; 8; 1; 0; 7]) by reflexivity.
  assert (H2 : 0 <= 5) by lia.
  assert (Hn : wavemax voice_example <> -1) by discriminate.
  assert (H3 : 0 < msgWaveformBar st_example + msgWaveformSkip st_example)
    by reflexivity.
  assert (H4 : 0 <= 9) by lia.
  repeat (split; [assumption|]).
  destruct (PaintWaveform_bars_and_buckets st_example 100 voice_example 9 (1 # 2)
              5 [3; 8; 1; 0; 7] H1 H2 Hn H3 H4) as (bars & Hb & Hlen & _ & Hcat).
  exists bars. split; [exact Hb|]. split; [exact Hlen|].
  apply Hcat. discriminate.
Defined.

(** C1 as stated fails for narrow widths and for a recorded maximum of
    -1: with a bar step of 3 and an available width of -10 the bar count is
    [-10 / 3 = -3] but no bar is drawn; with an available width of 1 the bar
    count is 0, no bar is drawn and so no sample is in any bucket; and
    with [wavemax = -1] the value of the first bar divides by
    [wavemax + 1 = 0], so the call draws no bar at all although the width
    9 has room for three. *)
Lemma PaintWaveform_narrow_width_counterexample :
  (PaintWaveform st_example 100 (Some voice_example) (-10) (1 # 2) = Done []
   /\ barCountOf st_example (-10) 6 = Some (-3)
   /\ Z.of_nat (length (@nil Bar)) <> -3)
  /\ (PaintWaveform st_example 100 (Some voice_example) 1 (1 # 2) = Done []
      /\ concat (map bar_bucket (@nil Bar)) <> seqZ 0 6)
  /\ (waveform voice_unnormed = [5; 3; 8; 1; 0; 7]
      /\ barCountOf st_example 9 6 = Some 3
      /\ barNormValueOf (chooseWaveform (Some voice_unnormed))
           (Some voice_unnormed) = 0
      /\ PaintWaveform st_example 100 (Some voice_unnormed) 9 (1 # 2)
         = Stopped DivisionByZero).
Proof.
  repeat split; try reflexivity; discriminate.
Qed.

(** C10 (as amended).  PaintWaveform never reads outside the waveform
    array, on any input.  It is stopped by an [int] division by zero exactly
    when the bar step [msgWaveformBar + msgWaveformSkip] is zero, or when
    the divisor [wavemax + 1] of the bar value is zero and there is a bar
    to draw.  With both divisors other than zero it runs to its end and
    draws [barsToDraw] bars (none when that is negative).  When the voice
    data is absent, its waveform is empty or its first sample is negative,
    the result is the one for [kWaveformSamplesCount] zero-valued samples
    with a zero maximum, and every bar has maximum and value zero;
    otherwise the real samples are read, and every sample folded into a
    bar was read at an index within the array. *)
Theorem PaintWaveform_total
    (st : WaveStyle) (k : Z) (voiceData : option VoiceData)
    (availableWidth : Z) (progress : Q) :
  PaintWaveform st k voiceData availableWidth progress <> Stopped ReadOutside
  /\ (PaintWaveform st k voiceData availableWidth progress
      = Stopped DivisionByZero
      <-> msgWaveformBar st + msgWaveformSkip st = 0
          \/ (barNormValueOf (chooseWaveform voiceData) voiceData = 0
              /\ 1 <= barsToDraw st k voiceData availableWidth))
  /\ (msgWaveformBar st + msgWaveformSkip st <> 0 ->
      barNormValueOf (chooseWaveform voiceData) voiceData <> 0 ->
      exists bars,
        PaintWaveform st k voiceData availableWidth progress = Done bars
        /\ Z.of_nat (length bars)
           = Z.max 0 (barsToDraw st k voiceData availableWidth)
        /\ ((voiceData = None
             \/ exists vd, voiceData = Some vd
                  /\ (waveform vd = []
                      \/ exists v0 rest, waveform vd = v0 :: rest /\ v0 < 0)) ->
            chooseWaveform voiceData = None
            /\ PaintWaveform st k voiceData availableWidth progress
               = PaintWaveform st k
                   (Some {| waveform := repeat 0 (Z.to_nat k); wavemax := 0 |})
                   availableWidth progress
            /\ Forall (fun b => bar_max b = 0 /\ bar_value b = 0) bars)
        /\ (forall vd v0 rest,
              voiceData = Some vd -> waveform vd = v0 :: rest -> 0 <= v0 ->
              chooseWaveform voiceData = Some (waveform vd)
              /\ Forall (fun b =>
                           aggregates (waveform vd) (bar_max b) (bar_bucket b)
                           /\ Forall (fun j =>
                                        0 <= j < Z.of_nat (length (waveform vd)))
                                     (bar_bucket b))
                        bars)).
Proof.
  split; [|split].
  - unfold PaintWaveform.
    destruct (barCountOf _ _ _) as [count|]; [|discriminate].
    apply paintLoop_reads_inside; [lia|].
    intros w ->. lia.
  - destruct (Z.eq_dec (msgWaveformBar st + msgWaveformSkip st) 0) as [Hz|Hstep].
    + split; [intros _; left; exact Hz|]. intros _.
      unfold PaintWaveform. rewrite barCountOf_undefined by exact Hz.
      reflexivity.
    + destruct (PaintWaveform_outcome st k voiceData availableWidth progress Hstep)
        as [Hdone Hstop].
      split.
      * intros Hs. right.
        destruct (Z.eq_dec (barNormValueOf (chooseWaveform voiceData) voiceData) 0)
          as [Hn|Hn].
        -- split; [exact Hn|].
           destruct (Z_le_gt_dec (barsToDraw st k voiceData availableWidth) 0)
             as [Hc|Hc]; [|lia].
           destruct (Hdone (or_intror Hc)) as (bars & Hb & _).
           rewrite Hb in Hs. discriminate Hs.
        -- destruct (Hdone (or_introl Hn)) as (bars & Hb & _).
           rewrite Hb in Hs. discriminate Hs.
      * intros [Hz|[Hn Hc]]; [contradiction|]. apply Hstop; assumption.
  - intros Hstep Hnorm.
    destruct (PaintWaveform_outcome st k voiceData availableWidth progress Hstep)
      as [Hdone _].
    destruct (Hdone (or_introl Hnorm)) as (bars & Hbars & Hlen & Hreal).
    exists bars. split; [exact Hbars|]. split; [exact Hlen|]. split.
    + intros Hnull.
      assert (Ew : chooseWaveform voiceData = None).
      { destruct Hnull as [->|(vd & -> & [E|(v0 & rest & E & Hneg)])].
        - reflexivity.
        - unfold chooseWaveform. now rewrite E.
        - unfold chooseWaveform. rewrite E.
          destruct (v0 <? 0) eqn:E0; [reflexivity | lia]. }
      split; [exact Ew|].
      assert (Hzero : forall m,
                 chooseWaveform (Some {| waveform := repeat 0 m; wavemax := 0 |})
                 = match m with
                   | O => None
                   | S _ => Some (repeat 0 m)
                   end).
      { intros [|m]; reflexivity. }
      split.
      * unfold PaintWaveform. rewrite Ew.
        destruct (Z.to_nat k) as [|m] eqn:Ek.
        -- rewrite Hzero, Ek. reflexivity.
        -- rewrite Hzero. cbn [wavemax]. rewrite repeat_length.
           replace (Z.of_nat (S m)) with k by lia.
           destruct (barCountOf st availableWidth k) as [count|]; [|reflexivity].
           rewrite Ek. apply paintLoop_placeholder_zero; lia.
      * unfold PaintWaveform in Hbars. rewrite Ew in Hbars.
        destruct (barCountOf st availableWidth k) as [count|]; [|discriminate].
        pose proof (paintLoop_placeholder_max _ _ _ _ _ _ _ _ _ _ _ Hbars) as Hmax.
        pose proof (paintLoop_bar_values _ _ _ _ _ _ _ _ _ _ _ _ _ Hbars) as Hval.
        clear - Hmax Hval.
        induction Hmax as [|b bs Hb Hbs IH]; inversion Hval as [|? ? Hv Hvs];
          subst; constructor; auto.
        split; [exact Hb|]. rewrite Hv, Hb. reflexivity.
    + intros vd v0 rest -> E H0.
      assert (Ew : chooseWaveform (Some vd) = Some (waveform vd))
        by (eapply chooseWaveform_valid; eauto).
      split; [exact Ew|].
      destruct (Hreal _ Ew) as [Hagg Hin].
      rewrite Forall_forall in *. intros b Hb. split; auto.
Qed.

Lemma PaintWaveform_total_witness :
  msgWaveformBar st_example + msgWaveformSkip st_example <> 0
  /\ barNormValueOf (chooseWaveform (Some voice_example)) (Some voice_example)
     <> 0
  /\ exists bars,
       PaintWaveform st_example 100 (Some voice_example) 9 (1 # 2) = Done bars
       /\ Z.of_nat (length bars) = 3.
Proof.
  assert (H1 : msgWaveformBar st_example + msgWaveformSkip st_example <> 0)
    by discriminate.
  assert (H2 : barNormValueOf (chooseWaveform (Some voice_example))
                 (Some voice_example) <> 0) by discriminate.
  split; [exact H1|]. split; [exact H2|].
  destruct (PaintWaveform_total st_example 100 (Some voice_example) 9 (1 # 2))
    as (_ & _ & Hdone).
  destruct (Hdone H1 H2) as (bars & Hb & Hlen & _).
  exists bars. split; [exact Hb|]. rewrite Hlen. reflexivity.
Defined.

(** C10 as stated fails where a divisor is zero.  With a recorded maximum
    of -1 the value of the first bar divides by [wavemax + 1 = 0]; with a
    bar width of 2 and a skip of -2 the bar count divides by a zero step,
    also for the placeholder.  Neither call runs to its end. *)
Lemma PaintWaveform_division_by_zero_counterexample :
  (wavemax voice_unnormed = -1
   /\ PaintWaveform st_example 100 (Some voice_unnormed) 9 (1 # 2)
      = Stopped DivisionByZero
   /\ ~ exists bars,
          PaintWaveform st_example 100 (Some voice_unnormed) 9 (1 # 2)
          = Done bars)
  /\ (msgWaveformBar st_flat + msgWaveformSkip st_flat = 0
      /\ PaintWaveform st_flat 100 None 9 (1 # 2) = Stopped DivisionByZero
      /\ ~ exists bars,
             PaintWaveform st_flat 100 None 9 (1 # 2) = Done bars).
Proof.
  split; (split; [reflexivity|]; split; [reflexivity|]);
    intros [bars H]; discriminate H.
Qed.

End WaveformResults.

(** ** Document element *)

Section DocumentFacts.

Import DocumentView.

Lemma divInt_fin (a b : Z) : b <> 0 -> divInt a b = Fin (inject_Z a / inject_Z b).
Proof.
  intros H. unfold divInt. destruct (b =? 0) eqn:E; [lia | reflexivity].
Qed.

Lemma divInt_unit (a b : Z) : 0 < b -> 0 <= a <= b -> inUnit (divInt a b).
Proof.
  intros Hb Ha. rewrite divInt_fin by lia. simpl.
  assert (Hb' : (0 < inject_Z b)%Q) by (unfold Qlt; simpl; lia).
  split.
  - apply Qle_shift_div_l; [exact Hb'|].
    rewrite Qmult_0_l. unfold Qle; simpl; lia.
  - apply Qle_shift_div_r; [exact Hb'|].
    rewrite Qmult_1_l. unfold Qle; simpl; lia.
Qed.

(** [std::clamp(v, 0., 1.)] lands in the unit interval for every value but
    a NaN. *)
Lemma clamp01_unit (v : float64) : v <> NaN -> inUnit (clamp01 v).
Proof.
  destruct v as [q| | |]; simpl; intros H.
  - destruct (Qlt_le_dec q 0); [simpl; split; discriminate|].
    destruct (Qlt_le_dec 1 q); simpl.
    + split; discriminate.
    + split; assumption.
  - split; discriminate.
  - split; discriminate.
  - congruence.
Qed.

Lemma divInt_not_NaN (a b : Z) : b <> 0 -> divInt a b <> NaN.
Proof. intros H. rewrite divInt_fin by assumption. discriminate. Qed.

(** A point inside a rectangle of non-negative width lies between its left
    edge and its last column. *)
Lemma QRect_contains_x (x y w h px py : Z) :
  0 <= w -> QRect_contains x y w h px py = true -> x <= px <= x + w - 1.
Proof.
  intros Hw. unfold QRect_contains.
  destruct (x + w - 1 <? x - 1) eqn:E; [lia|].
  destruct (y + h - 1 <? y - 1);
    rewrite andb_true_iff, !negb_true_iff, !orb_false_iff; lia.
Qed.

Variable st : DocStyle.

(** C9 (as amended).  The seek proportions written by the code lie in
    [0, 1] whenever the waveform area is not degenerate: the start value
    that [textState] records for a press inside the waveform rectangle, when
    that rectangle's width is not negative, and the current value that
    [updatePressed] records for any pointer position, inside or outside the
    element, when the width it divides by is not zero.  Nothing else in the
    two functions touches the voice component. *)
Theorem seeking_proportion_in_unit_interval
    (d : Document) (v : Voice)
    (Hvoice : voice d = Some v) :
  (forall layoutWidth mode playingThis px py hit v',
      0 <= seekNamewidth st d v layoutWidth mode ->
      textStateVoice st d layoutWidth mode playingThis px py = (hit, Some v') ->
      v' = v
      \/ (hit = HitSeek /\ seeking v = false
          /\ v' = setSeekingStart v
                    (divInt (px - nameleftOf (layoutFor st d mode))
                            (seekNamewidth st d v layoutWidth mode))
          /\ inUnit (seekingStart v')))
  /\ (forall px v',
         pressedNamewidth st d <> 0 ->
         updatePressed st d px = Some v' ->
         (seeking v = false /\ v' = v)
         \/ (seeking v = true
             /\ seekingStart v' = seekingStart v
             /\ inUnit (seekingCurrent v'))).
Proof.
  split.
  - intros layoutWidth mode playingThis px py hit v' Hw.
    unfold textStateVoice. rewrite Hvoice.
    destruct (layoutWidth <? _); [intros [= _ <-]; now left|].
    destruct (match transcribe v with Some (tw, th) => _ | None => false end);
      [intros [= _ <-]; now left|].
    destruct (QRect_contains _ _ _ _ _ _) eqn:Ein; cbn [andb];
      [|intros [= _ <-]; now left].
    destruct playingThis; [|intros [= _ <-]; now left].
    destruct (seeking v) eqn:Es; intros [= <- <-]; [now left|].
    right. repeat split.
    apply QRect_contains_x in Ein; [|exact Hw].
    cbn [setSeekingStart seekingStart].
    apply divInt_unit; lia.
  - intros px v' Hw. unfold updatePressed. rewrite Hvoice.
    destruct (seeking v) eqn:Es; intros [= <-].
    + right. repeat split.
      cbn [setSeekingCurrent seekingCurrent].
      apply clamp01_unit, divInt_not_NaN, Hw.
    + left. split; reflexivity.
Qed.

(** The two grouping sizes of a Document: the same height for the same
    width argument; [sizeForGroupingOptimal] returns its argument as the
    width while [sizeForGrouping] returns the element's own [maxWidth()], so
    the two sizes agree exactly when the argument is [maxWidth()]. *)
Lemma Document_sizeForGrouping_vs_optimal (d : Document) (w : Z) :
  snd (DocumentView.sizeForGrouping st d w)
  = snd (DocumentView.sizeForGroupingOptimal st d w)
  /\ fst (DocumentView.sizeForGroupingOptimal st d w) = w
  /\ fst (DocumentView.sizeForGrouping st d w) = maxWidth d
  /\ (DocumentView.sizeForGrouping st d w
      = DocumentView.sizeForGroupingOptimal st d w <-> w = maxWidth d).
Proof.
  unfold DocumentView.sizeForGrouping, DocumentView.sizeForGroupingOptimal.
  cbn [fst snd]. repeat split.
  - intros [= E]. symmetry; exact E.
  - intros ->. reflexivity.
Qed.

End DocumentFacts.

Lemma seeking_proportion_in_unit_interval_witness :
  DocumentView.voice (document_example true 284) = Some (voice_seeking true)
  /\ DocumentView.pressedNamewidth docstyle_example (document_example true 284) <> 0
  /\ forall px v',
       DocumentView.updatePressed docstyle_example (document_example true 284) px
       = Some v' ->
       DocumentView.inUnit (DocumentView.seekingCurrent v').
Proof.
  assert (H1 : DocumentView.voice (document_example true 284)
               = Some (voice_seeking true)) by reflexivity.
  assert (H2 : DocumentView.pressedNamewidth docstyle_example
                 (document_example true 284) <> 0) by discriminate.
  split; [exact H1|]. split; [exact H2|].
  intros px v' Hv.
  destruct (seeking_proportion_in_unit_interval docstyle_example
              (document_example true 284) (voice_seeking true) H1) as [_ Hmove].
  destruct (Hmove px v' H2 Hv) as [[Hno _]|(_ & _ & Hin)];
    [discriminate Hno | exact Hin].
Defined.

(** C9 as stated fails on a degenerate waveform area.  With a name area of
    width zero, a pointer move at its left edge divides zero by zero and the
    clamp keeps the NaN; with a name area of width -4 the rectangle test
    accepts the column five to the left of its origin and the recorded start
    value is 5/4. *)
Lemma seeking_proportion_degenerate_counterexample :
  (exists v',
      DocumentView.updatePressed docstyle_example (document_example true 84) 70 = Some v'
      /\ DocumentView.seekingCurrent v' = DocumentView.NaN
      /\ ~ DocumentView.inUnit (DocumentView.seekingCurrent v'))
  /\ (exists v',
         DocumentView.textStateVoice docstyle_example (document_example false 80)
           80 DocumentView.Full true 65 20
         = (DocumentView.HitSeek, Some v')
         /\ DocumentView.seekingStart v'
            = DocumentView.Fin (inject_Z (-5) / inject_Z (-4))%Q
         /\ ~ DocumentView.inUnit (DocumentView.seekingStart v')).
Proof.
  split.
  - eexists. split; [reflexivity|]. split; [reflexivity|]. simpl. tauto.
  - eexists. split; [reflexivity|]. split; [reflexivity|].
    simpl. intros [_ H]. revert H. unfold Qle, Qdiv, Qmult, Qinv; simpl. lia.
Qed.

(** C8 (as amended).  For every Photo element and every width the two
    grouping sizes are the same pair.  For a Document element the heights
    agree for every width, but [sizeForGroupingOptimal] answers its argument
    as the width whereas [sizeForGrouping] answers the element's own
    [maxWidth()]: the pairs are equal exactly when the argument is
    [maxWidth()]. *)
Theorem sizeForGrouping_vs_optimal :
  (forall w h width,
      PhotoView.sizeForGrouping w h width
      = PhotoView.sizeForGroupingOptimal w h width)
  /\ (forall st d w,
         snd (DocumentView.sizeForGrouping st d w)
         = snd (DocumentView.sizeForGroupingOptimal st d w)
         /\ fst (DocumentView.sizeForGroupingOptimal st d w) = w
         /\ fst (DocumentView.sizeForGrouping st d w) = DocumentView.maxWidth d
         /\ (DocumentView.sizeForGrouping st d w
             = DocumentView.sizeForGroupingOptimal st d w
             <-> w = DocumentView.maxWidth d)).
Proof.
  split.
  - reflexivity.
  - intros st d w. apply Document_sizeForGrouping_vs_optimal.
Qed.

(** C8 as stated fails for documents: an element whose [maxWidth()] is 300
    asked for width 200 answers (300, 64) from [sizeForGrouping] and
    (200, 64) from [sizeForGroupingOptimal]. *)
Lemma Document_sizeForGrouping_counterexample :
  DocumentView.sizeForGrouping docstyle_example (document_example false 284) 200
  = (300, 64)
  /\ DocumentView.sizeForGroupingOptimal docstyle_example
       (document_example false 284) 200
     = (200, 64)
  /\ DocumentView.sizeForGrouping docstyle_example (document_example false 284) 200
     <> DocumentView.sizeForGroupingOptimal docstyle_example
          (document_example false 284) 200.
Proof.
  repeat split; discriminate.
Qed.

(** ** Photo element *)

Section PhotoTiers.

Import PhotoView.

Ltac tiers m :=
  destruct m as [[xl|] [xt|] [xs|] [xi|] xld]; cbn.

Ltac rank_cases :=
  repeat match goal with
         | t : Tier |- _ => destruct t
         end; cbn in *; try reflexivity; try lia; try congruence.

Lemma paintUserpicFrame_pix_first (m : PhotoMedia) (p : Pix) :
  paintUserpicFrame_pix m = Some p ->
  firstAvailable tierRank m (pix_tier p) (pix_image p)
  /\ (pix_blurred p = true <-> pix_tier p <> Large).
Proof.
  tiers m; intros [= <-]; cbn; (split; [split; [reflexivity|intros t' H; rank_cases]|]);
    split; congruence.
Qed.

Lemma paintUserpicFrame_pix_none (m : PhotoMedia) :
  paintUserpicFrame_pix m = None <-> noneAvailable m.
Proof.
  unfold noneAvailable. tiers m; split; try discriminate.
  all: try (intros H;
            first [ specialize (H Large); discriminate H
                  | specialize (H Thumbnail); discriminate H
                  | specialize (H Small); discriminate H
                  | specialize (H InlineBlurred); discriminate H ]).
  - intros _ [| | |]; reflexivity.
  - reflexivity.
Qed.

Lemma validateGroupedCache_image_first (m : PhotoMedia) (t : Tier) (i : Image) :
  validateGroupedCache_image m = Some (t, i) -> firstAvailable tierRank m t i.
Proof.
  tiers m; intros [= <- <-]; (split; [reflexivity|intros t' H; rank_cases]).
Qed.

Lemma validateGroupedCache_image_none (m : PhotoMedia) :
  validateGroupedCache_image m = None <-> noneAvailable m.
Proof.
  unfold noneAvailable. tiers m; split; try discriminate.
  all: try (intros H;
            first [ specialize (H Large); discriminate H
                  | specialize (H Thumbnail); discriminate H
                  | specialize (H Small); discriminate H
                  | specialize (H InlineBlurred); discriminate H ]).
  - intros _ [| | |]; reflexivity.
  - reflexivity.
Qed.

Lemma prepareImageCache_blurred_first (m : PhotoMedia) (t : Tier) (i : Image) :
  prepareImageCache_blurred m = Some (t, i) -> firstAvailable blurredRank m t i.
Proof.
  tiers m; intros [= <- <-]; (split; [reflexivity|intros t' H; rank_cases]).
Qed.

Lemma prepareImageCache_shown_spec (m : PhotoMedia) (t : Tier) (i : Image) (b : bool) :
  prepareImageCache_shown m = Some (t, i, b) ->
  (t = Large /\ b = false /\ imageLarge m = Some i)
  \/ (imageLarge m = None /\ b = true /\ firstAvailable blurredRank m t i).
Proof.
  unfold prepareImageCache_shown.
  destruct (imageLarge m) as [l|] eqn:El.
  - intros [= <- <- <-]. left. auto.
  - destruct (prepareImageCache_blurred m) as [[t0 i0]|] eqn:Eb; [|discriminate].
    intros [= <- <- <-]. right. repeat split; try reflexivity;
      apply (prepareImageCache_blurred_first m t0 i0 Eb).
Qed.

End PhotoTiers.

(** C2 (as amended).  In [paintUserpicFrame] and in [validateGroupedCache]
    the bitmap is the first available one in the order Large, Thumbnail,
    Small, inline-blurred, and there is none only when every tier is absent;
    a tier is taken only when every better one is absent.  In
    [paintUserpicFrame] the bitmap is blurred exactly when its tier is below
    Large.  [validateGroupedCache] takes its blur flag from
    [PhotoMedia::loaded()]; as long as the media view reports the photo
    loaded only when it holds the Large image, every tier it takes below
    Large is blurred as well.  [prepareImageCache] shows the Large image
    unblurred when it is present; without it, it shows blurred the first
    available image in its own order: inline-blurred, Thumbnail, Small. *)
Theorem photo_tier_resolution_order (m : PhotoView.PhotoMedia) :
  (forall p, PhotoView.paintUserpicFrame_pix m = Some p ->
     firstAvailable tierRank m (PhotoView.pix_tier p) (PhotoView.pix_image p)
     /\ (PhotoView.pix_blurred p = true <-> PhotoView.pix_tier p <> PhotoView.Large))
  /\ (PhotoView.paintUserpicFrame_pix m = None <-> noneAvailable m)
  /\ (forall t i, PhotoView.validateGroupedCache_image m = Some (t, i) ->
        firstAvailable tierRank m t i)
  /\ (PhotoView.validateGroupedCache_image m = None <-> noneAvailable m)
  /\ ((PhotoView.loaded m = true -> PhotoView.imageLarge m <> None) ->
      forall t i, PhotoView.validateGroupedCache_image m = Some (t, i) ->
        t <> PhotoView.Large ->
        PhotoView.validateGroupedCache_blur m = true)
  /\ (forall t i b, PhotoView.prepareImageCache_shown m = Some (t, i, b) ->
        (t = PhotoView.Large /\ b = false /\ PhotoView.imageLarge m = Some i)
        \/ (PhotoView.imageLarge m = None /\ b = true
            /\ firstAvailable blurredRank m t i)).
Proof.
  split; [apply paintUserpicFrame_pix_first|].
  split; [apply paintUserpicFrame_pix_none|].
  split; [apply validateGroupedCache_image_first|].
  split; [apply validateGroupedCache_image_none|].
  split; [|apply prepareImageCache_shown_spec].
  intros Hloaded t i Himage Ht.
  unfold PhotoView.validateGroupedCache_blur.
  destruct (PhotoView.loaded m) eqn:El; [|reflexivity].
  exfalso. specialize (Hloaded eq_refl).
  unfold PhotoView.validateGroupedCache_image in Himage.
  destruct (PhotoView.imageLarge m) as [l|]; [|congruence].
  injection Himage as <- _. apply Ht. reflexivity.
Qed.

Lemma photo_tier_resolution_order_witness :
  (PhotoView.loaded (media_example None (Some 2%nat) None (Some 1%nat)) = true ->
   PhotoView.imageLarge (media_example None (Some 2%nat) None (Some 1%nat))
   <> None)
  /\ PhotoView.validateGroupedCache_image
       (media_example None (Some 2%nat) None (Some 1%nat))
     = Some (PhotoView.Thumbnail, 2%nat)
  /\ PhotoView.validateGroupedCache_blur
       (media_example None (Some 2%nat) None (Some 1%nat)) = true.
Proof.
  assert (H : PhotoView.loaded (media_example None (Some 2%nat) None (Some 1%nat))
              = true ->
              PhotoView.imageLarge
                (media_example None (Some 2%nat) None (Some 1%nat)) <> None)
    by discriminate.
  split; [exact H|]. split; [reflexivity|].
  destruct (photo_tier_resolution_order
              (media_example None (Some 2%nat) None (Some 1%nat)))
    as (_ & _ & _ & _ & Hblur & _).
  apply (Hblur H PhotoView.Thumbnail 2%nat); [reflexivity | discriminate].
Defined.

(** C2 as stated fails in [prepareImageCache]: with no Large image, a
    Thumbnail (image 2) and an inline thumbnail (image 1), the bitmap shown
    is the inline one although the Thumbnail tier is available. *)
Lemma prepareImageCache_prefers_inline_counterexample :
  PhotoView.prepareImageCache_shown (media_example None (Some 2%nat) None (Some 1%nat))
  = Some (PhotoView.InlineBlurred, 1%nat, true)
  /\ PhotoView.tierImage (media_example None (Some 2%nat) None (Some 1%nat))
       PhotoView.Thumbnail = Some 2%nat
  /\ ~ firstAvailable tierRank (media_example None (Some 2%nat) None (Some 1%nat))
         PhotoView.InlineBlurred 1%nat.
Proof.
  split; [reflexivity|]. split; [reflexivity|].
  intros [_ H]. specialize (H PhotoView.Thumbnail). cbn in H.
  discriminate H. lia.
Qed.

Section PhotoCache.

Import PhotoView.

Context {K : ImageKit}.

Variable ratio : Z.

Lemma QSize_eqb_eq (a b : QSize) : QSize_eqb a b = true <-> a = b.
Proof.
  destruct a as [a1 a2], b as [b1 b2]. unfold QSize_eqb; cbn [fst snd].
  rewrite andb_true_iff, !Z.eqb_eq. split.
  - intros [-> ->]. reflexivity.
  - intros [= -> ->]. split; reflexivity.
Qed.

Lemma cacheIsValid_false (s : Photo K) (outer : QSize) (radius corners : Z) :
  cacheIsValid ratio s outer radius corners = false
  <-> cacheKeyDiffers ratio s outer radius corners.
Proof.
  unfold cacheIsValid, cacheKeyDiffers.
  rewrite !andb_false_iff, <- !not_true_iff_false, QSize_eqb_eq, !Z.eqb_eq.
  tauto.
Qed.

Lemma cacheIsValid_true (s : Photo K) (outer : QSize) (radius corners : Z) :
  cacheIsValid ratio s outer radius corners = true
  <-> ~ cacheKeyDiffers ratio s outer radius corners.
Proof.
  rewrite <- cacheIsValid_false. destruct (cacheIsValid _ _ _ _ _); split;
    congruence.
Qed.

Lemma validateImageCache_valid_unchanged
    (s : Photo K) (outer : QSize) (radius corners : Z) :
  cacheIsValid ratio s outer radius corners = true ->
  validateImageCache ratio s outer radius corners = s.
Proof. unfold validateImageCache. intros ->. reflexivity. Qed.

(** Whatever it finds, a call leaves the four values it was asked for on
    record, provided the toolkit makes images of the size asked for. *)
Lemma validateImageCache_records
    (s : Photo K) (outer : QSize) (radius corners : Z)
    (Hsize : forall o large blurred r c,
        qsize K (Round K (PrepareWithBlurredBackground K o large blurred) r c)
        = scaleSize o ratio) :
  qsize K (imageCache (validateImageCache ratio s outer radius corners))
  = scaleSize outer ratio
  /\ imageCacheRoundRadius (validateImageCache ratio s outer radius corners)
     = radius
  /\ imageCacheRoundCorners (validateImageCache ratio s outer radius corners)
     = corners
  /\ imageCacheBlurred (validateImageCache ratio s outer radius corners)
     = (if blurredOrNot (dataMedia s) then 1 else 0)
  /\ dataMedia (validateImageCache ratio s outer radius corners) = dataMedia s.
Proof.
  assert (Eb : shouldBeBlurred (dataMedia s)
               = if blurredOrNot (dataMedia s) then 1 else 0).
  { unfold shouldBeBlurred, blurredOrNot.
    destruct (imageLarge (dataMedia s)); reflexivity. }
  unfold validateImageCache.
  destruct (cacheIsValid ratio s outer radius corners) eqn:E.
  - unfold cacheIsValid in E.
    rewrite !andb_true_iff, QSize_eqb_eq, !Z.eqb_eq in E.
    destruct E as [[[H1 H2] H3] H4]. rewrite <- Eb. auto.
  - cbn. unfold prepareImageCache, prepareImageCache1.
    rewrite Hsize, <- Eb. auto.
Qed.

Lemma scaleSize_inj (a b : QSize) :
  ratio <> 0 -> scaleSize a ratio = scaleSize b ratio -> a = b.
Proof.
  intros Hr. destruct a as [a1 a2], b as [b1 b2]. unfold scaleSize.
  cbn [fst snd]. intros [= H1 H2].
  apply Z.mul_cancel_r in H1, H2; try exact Hr. congruence.
Qed.


(** A second call with the same arguments finds the cache valid, provided
    the toolkit produces an image of the requested size. *)
Lemma validateImageCache_idempotent
    (s : Photo K) (outer : QSize) (radius corners : Z)
    (Hsize : forall m o r c,
        qsize K (prepareImageCache m o r c) = scaleSize o ratio) :
  validateImageCache ratio (validateImageCache ratio s outer radius corners)
                     outer radius corners
  = validateImageCache ratio s outer radius corners.
Proof.
  apply validateImageCache_valid_unchanged.
  unfold validateImageCache.
  destruct (cacheIsValid ratio s outer radius corners) eqn:E; [exact E|].
  unfold cacheIsValid. cbn.
  rewrite Hsize, !Z.eqb_refl.
  rewrite (proj2 (QSize_eqb_eq _ _) eq_refl). reflexivity.
Qed.

End PhotoCache.


Section PhotoStreaming.

Import PhotoView.

Context {K : ImageKit}.

(** In a state without a streaming instance whose asset is marked
    playback-failed, neither the autoplay check nor an explicit
    [playAnimation] opens a stream: the element stays as it is. *)
Lemma failed_state_is_stable (s : Photo K) :
  streamed s = None -> videoPlaybackFailed (data s) = true ->
  forall autoplayEnabled valid,
    paintUserpicFrame_autoplay autoplayEnabled valid s = s
    /\ forall autoplay, playAnimation autoplayEnabled valid autoplay s = s.
Proof.
  intros Hs Hf autoplayEnabled valid.
  assert (Hplay : videoCanBePlayed (data s) = false).
  { unfold videoCanBePlayed. rewrite Hf. apply andb_false_r. }
  split.
  - unfold paintUserpicFrame_autoplay, checkStreamedIsStarted.
    rewrite Hplay, Hs. reflexivity.
  - intros autoplay. unfold playAnimation. rewrite Hs, Hplay. reflexivity.
Qed.

(** C6.  After a streaming error, and after a [playAnimation] whose
    freshly created streaming instance is not valid, the element has no
    streaming instance, its asset is marked playback-failed, and from then on
    neither the autoplay check of [paintUserpicFrame] nor a [playAnimation]
    opens a stream again: they leave the element unchanged.  The failed
    attempt itself opened exactly one stream. *)
Theorem streaming_failure_stops_and_marks_failed (s : Photo K) :
  (streamed (handleStreamingError s) = None
   /\ videoPlaybackFailed (data (handleStreamingError s)) = true
   /\ streamOpens (handleStreamingError s) = streamOpens s
   /\ forall autoplayEnabled valid,
        paintUserpicFrame_autoplay autoplayEnabled valid (handleStreamingError s)
        = handleStreamingError s
        /\ forall autoplay,
             playAnimation autoplayEnabled valid autoplay (handleStreamingError s)
             = handleStreamingError s)
  /\ (forall autoplayEnabled autoplay,
        streamed s = None -> videoCanBePlayed (data s) = true ->
        streamed (playAnimation autoplayEnabled false autoplay s) = None
        /\ videoPlaybackFailed
             (data (playAnimation autoplayEnabled false autoplay s)) = true
        /\ streamOpens (playAnimation autoplayEnabled false autoplay s)
           = S (streamOpens s)
        /\ forall autoplayEnabled' valid',
             paintUserpicFrame_autoplay autoplayEnabled' valid'
               (playAnimation autoplayEnabled false autoplay s)
             = playAnimation autoplayEnabled false autoplay s
             /\ forall autoplay',
                  playAnimation autoplayEnabled' valid' autoplay'
                    (playAnimation autoplayEnabled false autoplay s)
                  = playAnimation autoplayEnabled false autoplay s).
Proof.
  split.
  - repeat split; try reflexivity;
      apply (failed_state_is_stable (handleStreamingError s)); reflexivity.
  - intros autoplayEnabled autoplay Hs Hplay.
    assert (E : playAnimation autoplayEnabled false autoplay s
                = setVideoPlaybackFailed
                    (stopAnimation
                       (Build_Photo K (dataMedia s) (data s)
                          (Some {| instance_valid := false |})
                          (imageCache s) (imageCacheRoundRadius s)
                          (imageCacheRoundCorners s) (imageCacheBlurred s)
                          (prepareCalls s) (S (streamOpens s))))).
    { unfold playAnimation. rewrite Hs, Hplay. reflexivity. }
    rewrite E. repeat split; try reflexivity;
      apply (failed_state_is_stable
               (setVideoPlaybackFailed
                  (stopAnimation
                     (Build_Photo K (dataMedia s) (data s)
                        (Some {| instance_valid := false |})
                        (imageCache s) (imageCacheRoundRadius s)
                        (imageCacheRoundCorners s) (imageCacheBlurred s)
                        (prepareCalls s) (S (streamOpens s)))))); reflexivity.
Qed.

(** For comparison: while the asset is playable, each autoplay check of an
    element without a streaming instance opens a stream. *)
Lemma playable_autoplay_opens_stream (s : Photo K) (valid : bool) :
  streamed s = None -> videoCanBePlayed (data s) = true ->
  streamOpens (paintUserpicFrame_autoplay true valid s) = S (streamOpens s).
Proof.
  intros Hs Hplay. unfold paintUserpicFrame_autoplay, playAnimation.
  rewrite Hplay, Hs. cbn [andb]. unfold createStreamingObjects.
  destruct valid; reflexivity.
Qed.

End PhotoStreaming.

(** ** Footer: the animation tick *)

Section FooterTick.

Import Footer.

Variable env : Env.

Hypothesis Hmove : 0 < stickerIconMove env.

(** The test [dt >= 1.] on the elapsed fraction is the test
    [elapsed >= duration] on the integers it is computed from. *)
Lemma dt_ge_1 (elapsed : Z) :
  Qle_bool 1 (inject_Z elapsed / inject_Z (stickerIconMove env)) = true
  <-> stickerIconMove env <= elapsed.
Proof.
  rewrite Qle_bool_iff.
  destruct (stickerIconMove env) as [|p|p] eqn:E; try lia.
  unfold Qle, Qdiv, Qmult, Qinv, inject_Z; simpl. lia.
Qed.

Lemma dt_lt_1 (elapsed : Z) :
  Qle_bool 1 (inject_Z elapsed / inject_Z (stickerIconMove env)) = false
  <-> elapsed < stickerIconMove env.
Proof.
  rewrite <- not_true_iff_false, dt_ge_1. lia.
Qed.

(** C7 (as amended).  A tick at time [now] first advances [now] by the
    duration when animations are disabled.  If [animationStart] is zero the
    callback answers false and changes nothing.  Otherwise, with
    [dt = (now - animationStart) / duration]: if [dt >= 1] the position, the
    selection offset and the selection width are set to their targets,
    [animationStart] is reset and the answer is false (so a later tick
    changes nothing); if [dt < 1] the position is updated with the linear
    easing, the selection offset and width with ease-out-cubic, and the
    answer is true. *)
Theorem animationCallback_tick (now : Z) (s : ScrollState) :
  (animationStart s = 0 -> animationCallback env now s = (false, s))
  /\ (animationStart s <> 0 ->
      stickerIconMove env <= effectiveNow env now - animationStart s ->
      fst (animationCallback env now s) = false
      /\ x (snd (animationCallback env now s)) = a_finish (x s)
      /\ selectionX (snd (animationCallback env now s)) = a_finish (selectionX s)
      /\ selectionWidth (snd (animationCallback env now s))
         = a_finish (selectionWidth s)
      /\ a_cur (x (snd (animationCallback env now s))) = a_to (x s)
      /\ a_cur (selectionX (snd (animationCallback env now s))) = a_to (selectionX s)
      /\ a_cur (selectionWidth (snd (animationCallback env now s)))
         = a_to (selectionWidth s)
      /\ animationStart (snd (animationCallback env now s)) = 0
      /\ forall now',
           animationCallback env now' (snd (animationCallback env now s))
           = (false, snd (animationCallback env now s)))
  /\ (animationStart s <> 0 ->
      effectiveNow env now - animationStart s < stickerIconMove env ->
      fst (animationCallback env now s) = true
      /\ x (snd (animationCallback env now s))
         = a_update (x s)
             (inject_Z (effectiveNow env now - animationStart s)
              / inject_Z (stickerIconMove env))
             (linear env)
      /\ selectionX (snd (animationCallback env now s))
         = a_update (selectionX s)
             (inject_Z (effectiveNow env now - animationStart s)
              / inject_Z (stickerIconMove env))
             (easeOutCubic env)
      /\ selectionWidth (snd (animationCallback env now s))
         = a_update (selectionWidth s)
             (inject_Z (effectiveNow env now - animationStart s)
              / inject_Z (stickerIconMove env))
             (easeOutCubic env)
      /\ animationStart (snd (animationCallback env now s)) = animationStart s).
Proof.
  unfold animationCallback. fold (effectiveNow env now).
  split; [|split].
  - intros ->. reflexivity.
  - intros Hstart Hdone.
    destruct (animationStart s =? 0) eqn:E0; [lia|].
    rewrite (proj2 (dt_ge_1 _) Hdone). cbn.
    repeat split.
  - intros Hstart Hrun.
    destruct (animationStart s =? 0) eqn:E0; [lia|].
    rewrite (proj2 (dt_lt_1 _) Hrun). cbn.
    repeat split.
Qed.

End FooterTick.

Lemma animationCallback_tick_witness :
  0 < Footer.stickerIconMove (env_example false)
  /\ fst (Footer.animationCallback (env_example false) 400
            (scroll_example 100 0 10 50 false)) = false
  /\ Footer.a_cur (Footer.x (snd (Footer.animationCallback (env_example false) 400
                                    (scroll_example 100 0 10 50 false))))
     = inject_Z 10
  /\ fst (Footer.animationCallback (env_example false) 150
            (scroll_example 100 0 10 50 false)) = true.
Proof.
  assert (H0 : 0 < Footer.stickerIconMove (env_example false)) by reflexivity.
  split; [exact H0|].
  destruct (animationCallback_tick (env_example false) H0 400
              (scroll_example 100 0 10 50 false)) as (_ & Hdone & _).
  destruct (animationCallback_tick (env_example false) H0 150
              (scroll_example 100 0 10 50 false)) as (_ & _ & Hrun).
  destruct Hdone as (Hf & _ & _ & _ & Hx & _); [discriminate | discriminate |].
  destruct Hrun as (Ht & _); [discriminate | reflexivity |].
  split; [exact Hf|]. split; [exact Hx | exact Ht].
Defined.

(** C7 as stated fails when no animation is under way and when animations
    are disabled.  With [animationStart = 0] a tick at time 50 of a
    200 ms animation would have [dt = 1/4] yet answers false and updates
    nothing, and a tick at time 1000 would have [dt = 5] yet leaves the
    position (0) away from its target (10).  With animations disabled, a tick
    50 ms after the start has [(now - animationStart) / duration = 1/4] but
    finishes the animation and answers false. *)
Lemma animationCallback_guards_counterexample :
  (Footer.animationCallback (env_example false) 50 (scroll_example 0 0 10 50 false)
   = (false, scroll_example 0 0 10 50 false)
   /\ (inject_Z (50 - 0) / inject_Z 200 < 1)%Q)
  /\ (Footer.animationCallback (env_example false) 1000 (scroll_example 0 0 10 50 false)
      = (false, scroll_example 0 0 10 50 false)
      /\ (1 <= inject_Z (1000 - 0) / inject_Z 200)%Q
      /\ Footer.a_cur (Footer.x (scroll_example 0 0 10 50 false)) = inject_Z 0
      /\ Footer.a_to (Footer.x (scroll_example 0 0 10 50 false)) = inject_Z 10)
  /\ (fst (Footer.animationCallback (env_example true) 150
             (scroll_example 100 0 10 50 false)) = false
      /\ Footer.a_cur (Footer.x (snd (Footer.animationCallback (env_example true) 150
                                        (scroll_example 100 0 10 50 false))))
         = inject_Z 10
      /\ (inject_Z (150 - 100) / inject_Z 200 < 1)%Q).
Proof.
  repeat split; try reflexivity; try discriminate.
Qed.

(** ** Footer: choosing the selected icon *)

Section FooterSelection.

Import Footer.

Variable env : Env.

Lemma firstIndexFrom_spec (p : Z -> bool) (l : list Z) :
  forall i k,
    firstIndexFrom p l i = Some k ->
    exists n a, k = i + Z.of_nat n /\ nth_error l n = Some a /\ p a = true
                /\ forall m b, (m < n)%nat -> nth_error l m = Some b -> p b = false.
Proof.
  induction l as [|a l IH]; intros i k; simpl; [discriminate|].
  destruct (p a) eqn:E.
  - intros [= <-]. exists 0%nat, a. repeat split; [lia|assumption|].
    intros m b Hm. lia.
  - intros H. destruct (IH _ _ H) as (n & a' & -> & Hn & Ha & Hbefore).
    exists (S n), a'. repeat split; [lia|assumption|assumption|].
    intros [|m] b Hm; simpl.
    + intros [= <-]. exact E.
    + apply Hbefore. lia.
Qed.

Lemma firstIndexFrom_none (p : Z -> bool) (l : list Z) :
  forall i, firstIndexFrom p l i = None <-> forall a, In a l -> p a = false.
Proof.
  induction l as [|a l IH]; intros i; simpl.
  - split; [intros _ a [] | reflexivity].
  - destruct (p a) eqn:E.
    + split; [discriminate|]. intros H. rewrite (H a) in E by now left.
      discriminate.
    + rewrite IH. split.
      * intros H b [<-|Hb]; auto.
      * intros H b Hb. apply H. now right.
Qed.

Lemma lastIndexZ_none (p : Z -> bool) (l : list Z) :
  forall i found,
    (forall a, In a l -> p a = false) -> lastIndexZ p l i found = found.
Proof.
  induction l as [|a l IH]; intros i found H; simpl; [reflexivity|].
  rewrite (H a) by now left. apply IH. intros b Hb. apply H. now right.
Qed.

(** [lastIndexZ] answers the position of the last element passing the
    test, when there is one. *)
Lemma lastIndexZ_spec (p : Z -> bool) (l : list Z) :
  forall i found,
    existsb p l = true ->
    exists n a, lastIndexZ p l i found = i + Z.of_nat n
                /\ nth_error l n = Some a /\ p a = true
                /\ forall m b, (n < m)%nat -> nth_error l m = Some b -> p b = false.
Proof.
  induction l as [|a l IH]; intros i found; simpl; [discriminate|].
  destruct (existsb p l) eqn:El.
  - intros _. destruct (IH (i + 1) (if p a then i else found) eq_refl)
      as (n & a' & E & Hn & Ha & Hafter).
    exists (S n), a'. repeat split; [lia|assumption|assumption|].
    intros [|m] b Hm; [lia|]. simpl. apply Hafter. lia.
  - rewrite orb_false_r. intros Ha. rewrite Ha.
    assert (Hnone : forall b, In b l -> p b = false).
    { intros b Hb. destruct (p b) eqn:Eb; [|reflexivity].
      assert (existsb p l = true) by (apply existsb_exists; eauto). congruence. }
    exists 0%nat, a. repeat split; [|assumption|].
    + rewrite lastIndexZ_none by assumption. lia.
    + intros [|m] b Hm; [lia|]. simpl. intros Hb.
      apply Hnone. eapply nth_error_In; eauto.
Qed.

Lemma existsb_false (p : Z -> bool) (l : list Z) :
  existsb p l = false <-> forall a, In a l -> p a = false.
Proof.
  induction l as [|a l IH]; simpl.
  - split; [intros _ a [] | reflexivity].
  - rewrite orb_false_iff, IH. split.
    + intros [Ha H] b [<-|Hb]; auto.
    + intros H. split; [apply H; now left | intros b Hb; apply H; now right].
Qed.

(** The scan stops at the first answering icon, whatever it saw before. *)
Lemma scanIcons_first (setId : Z) (isEmoji : bool) (rest : list Z) :
  forall i faved sel sub k,
    firstIndexFrom (answers env setId) rest i = Some k ->
    snd (fst (scanIcons env setId isEmoji rest i faved sel sub)) = k.
Proof.
  induction rest as [|a rest IH]; intros i faved sel sub k; simpl; [discriminate|].
  unfold answers at 1.
  destruct ((a =? setId) || ((a =? FavedSetId env) && (setId =? RecentSetId env)))
    eqn:E.
  - intros [= <-]. reflexivity.
  - intros H. destruct (a =? FavedSetId env); [now apply IH|].
    destruct (isEmoji && (a =? AllEmojiSectionSetId)); now apply IH.
Qed.

(** Without an answering icon the scan ends with the last Faved icon and,
    for an emoji section, the last "All Emoji" icon. *)
Lemma scanIcons_none (setId : Z) (isEmoji : bool)
    (Hconst : FavedSetId env <> AllEmojiSectionSetId) (rest : list Z) :
  forall i faved sel sub,
    firstIndexFrom (answers env setId) rest i = None ->
    scanIcons env setId isEmoji rest i faved sel sub
    = (lastIndexZ (isFaved env) rest i faved,
       (if isEmoji then lastIndexZ isAllEmoji rest i sel else sel),
       (if isEmoji && existsb isAllEmoji rest
        then toInt (u64 (setId - EmojiSectionSetId People)) else sub)).
Proof.
  induction rest as [|a rest IH]; intros i faved sel sub; simpl.
  - intros _. rewrite andb_false_r. destruct isEmoji; reflexivity.
  - unfold answers at 1.
    destruct ((a =? setId) || ((a =? FavedSetId env) && (setId =? RecentSetId env)))
      eqn:E; [discriminate|].
    intros H.
    change (isFaved env a) with (a =? FavedSetId env).
    change (isAllEmoji a) with (a =? AllEmojiSectionSetId).
    destruct (a =? FavedSetId env) eqn:Ef.
    + apply Z.eqb_eq in Ef. subst a.
      destruct (FavedSetId env =? AllEmojiSectionSetId) eqn:Ea;
        [apply Z.eqb_eq in Ea; contradiction|].
      rewrite IH by assumption. cbn [orb]. destruct isEmoji; reflexivity.
    + destruct isEmoji; cbn [andb].
      * destruct (a =? AllEmojiSectionSetId) eqn:Ea; rewrite IH by assumption;
          cbn [orb andb]; [|reflexivity].
        destruct (existsb isAllEmoji rest); reflexivity.
      * rewrite IH by assumption. reflexivity.
Qed.

Lemma updateEmojiSectionWidth_states (f : Footer) :
  iconState (updateEmojiSectionWidth f) = iconState f
  /\ subiconState (updateEmojiSectionWidth f) = subiconState f
  /\ icons (updateEmojiSectionWidth f) = icons f.
Proof.
  unfold updateEmojiSectionWidth.
  destruct (Bool.eqb _ _); repeat split.
Qed.

Lemma scrollTo_selected (s : ScrollState) (final : Z)
    (animations : ValidateIconAnimations) (now : Z) :
  selected (scrollTo s final animations now) = selected s
  /\ max (scrollTo s final animations now) = max s.
Proof. destruct animations; split; reflexivity. Qed.

Lemma setSelectedIcon_selected (now n : Z) (animations : ValidateIconAnimations)
    (f : Footer) :
  selected (iconState (setSelectedIcon now n animations f)) = n
  /\ subiconState (setSelectedIcon now n animations f) = subiconState f
  /\ icons (setSelectedIcon now n animations f) = icons f.
Proof.
  unfold setSelectedIcon.
  destruct (selected (iconState f) =? n) eqn:E.
  - apply Z.eqb_eq in E. repeat split. exact E.
  - cbn [withIconState withStates iconState subiconState icons].
    rewrite (proj1 (scrollTo_selected _ _ _ _)).
    cbn [withSelection selected].
    destruct (updateEmojiSectionWidth_states
                (withIconState f (setSelected (iconState f) n)))
      as (Hi & Hs & Hl).
    rewrite Hi, Hs, Hl. repeat split.
Qed.

Lemma setSelectedSubicon_selected (now n : Z) (animations : ValidateIconAnimations)
    (f : Footer) :
  selected (subiconState (setSelectedSubicon now n animations f)) = n
  /\ iconState (setSelectedSubicon now n animations f) = iconState f
  /\ icons (setSelectedSubicon now n animations f) = icons f.
Proof.
  unfold setSelectedSubicon.
  destruct (selected (subiconState f) =? n) eqn:E.
  - apply Z.eqb_eq in E. repeat split. exact E.
  - cbn [withSubiconState withStates iconState subiconState icons].
    rewrite (proj1 (scrollTo_selected _ _ _ _)).
    repeat split.
Qed.

(** [validateSelectedIcon] leaves the two axes selected at the indices the
    scan chose. *)
Lemma validateSelectedIcon_selected (now now' setId : Z)
    (animations : ValidateIconAnimations) (f : Footer) :
  selected (iconState (validateSelectedIcon env now now' setId animations f))
  = fst (chosenIndices env f setId)
  /\ selected (subiconState (validateSelectedIcon env now now' setId animations f))
     = snd (chosenIndices env f setId)
  /\ icons (validateSelectedIcon env now now' setId animations f) = icons f.
Proof.
  unfold validateSelectedIcon.
  match goal with
  | |- context [chosenIndices env ?f0 setId] =>
      change (chosenIndices env f0 setId) with (chosenIndices env f setId)
  end.
  destruct (chosenIndices env f setId) as [sel sub]. cbn [fst snd].
  match goal with
  | |- context [setSelectedIcon now sel animations ?f0] =>
      destruct (setSelectedIcon_selected now sel animations f0) as (Hi & Hs & Hl);
      destruct (setSelectedSubicon_selected now' sub animations
                  (setSelectedIcon now sel animations f0)) as (Hi' & Hs' & Hl')
  end.
  rewrite Hs', Hi', Hl', Hi, Hl. repeat split.
Qed.

(** An emoji section other than Recent has a set id from [People] to
    [Symbols], and its distance to [People] fits an [int]. *)
Lemma isEmojiSectionId_offset (setId : Z) :
  0 <= setId < 2 ^ 64 -> isEmojiSectionId setId = true ->
  toInt (u64 (setId - EmojiSectionSetId People)) = setId - EmojiSectionSetId People
  /\ 0 <= setId - EmojiSectionSetId People <= 6.
Proof.
  intros Hid.
  assert (HR : RecentEmojiSectionSetId = 0x77FFFFFFFFFFFFF1) by reflexivity.
  assert (HP : EmojiSectionSetId People = 0x77FFFFFFFFFFFFF2) by reflexivity.
  change (2 ^ 64) with 18446744073709551616 in Hid.
  unfold isEmojiSectionId, SetIdEmojiSection. rewrite HR, HP.
  destruct (setId <? 0x77FFFFFFFFFFFFF1) eqn:E; [discriminate|].
  apply Z.ltb_ge in E.
  unfold u64, toInt.
  change (2 ^ 64) with 18446744073709551616.
  change (2 ^ 32) with 4294967296. change (2 ^ 31) with 2147483648.
  rewrite (Z.mod_small (setId - 0x77FFFFFFFFFFFFF1)) by lia.
  change (sectionIndex Symbols) with 7.
  destruct (setId - 0x77FFFFFFFFFFFFF1 <=? 7) eqn:E7; [|discriminate].
  apply Z.leb_le in E7.
  assert (Hcases : setId - 0x77FFFFFFFFFFFFF1 = 0
                   \/ 1 <= setId - 0x77FFFFFFFFFFFFF1 <= 7) by lia.
  destruct Hcases as [H0|H17].
  - rewrite H0. cbn. discriminate.
  - intros _.
    rewrite (Z.mod_small (setId - 0x77FFFFFFFFFFFFF2)) by lia.
    rewrite Z.mod_small by lia. lia.
Qed.

Lemma firstIndexFrom_some (p : Z -> bool) (l : list Z) (i : Z) :
  existsb p l = true -> exists k, firstIndexFrom p l i = Some k.
Proof.
  intros H. destruct (firstIndexFrom p l i) as [k|] eqn:E; [eauto|].
  pose proof (proj2 (existsb_false p l) (proj1 (firstIndexFrom_none p l i) E)).
  congruence.
Qed.

(** C4 (as amended).  After [validateSelectedIcon(setId)]:
    - if some icon answers the request (it carries [setId], or it is the
      Faved icon and [setId] is the Recent set), the first such icon is
      selected;
    - otherwise, if [setId] is an emoji section other than Recent and the
      list has an "All Emoji" icon, the last such icon is selected and the
      sub-selection is [setId] minus the set id of the People section;
    - otherwise the sub-selection is 0 and the selected icon is the last
      Faved icon when there is one, else icon 0. *)
Theorem validateSelectedIcon_selection
    (now now' setId : Z) (animations : ValidateIconAnimations) (f : Footer)
    (Hconst : FavedSetId env <> AllEmojiSectionSetId)
    (Hid : 0 <= setId < 2 ^ 64) :
  (existsb (answers env setId) (icons f) = true ->
   exists n a,
     selected (iconState (validateSelectedIcon env now now' setId animations f))
     = Z.of_nat n
     /\ nth_error (icons f) n = Some a /\ answers env setId a = true
     /\ forall m b, (m < n)%nat -> nth_error (icons f) m = Some b ->
                    answers env setId b = false)
  /\ (existsb (answers env setId) (icons f) = false ->
      isEmojiSectionId setId = true ->
      existsb isAllEmoji (icons f) = true ->
      selected (subiconState (validateSelectedIcon env now now' setId animations f))
      = setId - EmojiSectionSetId People
      /\ exists n,
           selected (iconState (validateSelectedIcon env now now' setId animations f))
           = Z.of_nat n
           /\ nth_error (icons f) n = Some AllEmojiSectionSetId
           /\ forall m b, (n < m)%nat -> nth_error (icons f) m = Some b ->
                          isAllEmoji b = false)
  /\ (existsb (answers env setId) (icons f) = false ->
      isEmojiSectionId setId = false \/ existsb isAllEmoji (icons f) = false ->
      selected (subiconState (validateSelectedIcon env now now' setId animations f))
      = 0
      /\ ((existsb (isFaved env) (icons f) = false
           /\ selected (iconState (validateSelectedIcon env now now' setId animations f))
              = 0)
          \/ exists n,
               selected (iconState
                           (validateSelectedIcon env now now' setId animations f))
               = Z.of_nat n
               /\ nth_error (icons f) n = Some (FavedSetId env)
               /\ forall m b, (n < m)%nat -> nth_error (icons f) m = Some b ->
                              isFaved env b = false)).
Proof.
  destruct (validateSelectedIcon_selected now now' setId animations f)
    as (Hsel & Hsub & _).
  rewrite Hsel, Hsub. clear Hsel Hsub.
  unfold chosenIndices.
  split; [|split].
  - intros Hex.
    destruct (firstIndexFrom_some _ _ 0 Hex) as [k Hk].
    pose proof (scanIcons_first setId (isEmojiSectionId setId) (icons f)
                  0 (-1) (-1) (-1) k Hk) as Hscan.
    destruct (firstIndexFrom_spec _ _ _ _ Hk) as (n & a & -> & Hn & Ha & Hbefore).
    destruct (scanIcons _ _ _ _ _ _ _ _) as [[fav ns] nss].
    cbn [fst snd] in *. subst ns.
    exists n, a. repeat split; try assumption.
    destruct (0 <=? 0 + Z.of_nat n) eqn:E; [lia|]. apply Z.leb_gt in E. lia.
  - intros Hnone Hemoji Hall.
    pose proof (proj1 (existsb_false _ _) Hnone) as Hnone'.
    rewrite (scanIcons_none setId _ Hconst (icons f) 0 (-1) (-1) (-1))
      by (apply (proj2 (firstIndexFrom_none _ _ _)); exact Hnone').
    rewrite Hemoji, Hall. cbn [andb fst snd].
    destruct (isEmojiSectionId_offset setId Hid Hemoji) as [Hoff Hrange].
    rewrite Hoff.
    destruct (lastIndexZ_spec isAllEmoji (icons f) 0 (-1) Hall)
      as (n & a & E & Hn & Ha & Hafter).
    rewrite E. split.
    + destruct (0 <=? setId - EmojiSectionSetId People) eqn:E0;
        [reflexivity | apply Z.leb_gt in E0; lia].
    + exists n. split.
      * destruct (0 <=? 0 + Z.of_nat n) eqn:E0; [lia | apply Z.leb_gt in E0; lia].
      * split; [|exact Hafter].
        apply Z.eqb_eq in Ha. subst a. exact Hn.
  - intros Hnone Hcase.
    pose proof (proj1 (existsb_false _ _) Hnone) as Hnone'.
    rewrite (scanIcons_none setId _ Hconst (icons f) 0 (-1) (-1) (-1))
      by (apply (proj2 (firstIndexFrom_none _ _ _)); exact Hnone').
    assert (Hns : (if isEmojiSectionId setId
                   then lastIndexZ isAllEmoji (icons f) 0 (-1) else -1) = -1).
    { destruct Hcase as [->|Hall]; [reflexivity|].
      destruct (isEmojiSectionId setId); [|reflexivity].
      apply lastIndexZ_none. apply (proj1 (existsb_false _ _)). exact Hall. }
    assert (Hnss : isEmojiSectionId setId && existsb isAllEmoji (icons f) = false).
    { destruct Hcase as [->| ->]; [reflexivity | apply andb_false_r]. }
    rewrite Hns, Hnss. cbn [fst snd]. split; [reflexivity|].
    change (0 <=? -1) with false. cbv iota.
    destruct (existsb (isFaved env) (icons f)) eqn:Ef.
    + right.
      destruct (lastIndexZ_spec (isFaved env) (icons f) 0 (-1) Ef)
        as (n & a & E & Hn & Ha & Hafter).
      rewrite E. exists n. split.
      * destruct (0 <=? 0 + Z.of_nat n) eqn:E0; [lia | apply Z.leb_gt in E0; lia].
      * split; [|exact Hafter].
        apply Z.eqb_eq in Ha. subst a. exact Hn.
    + left. split; [reflexivity|].
      rewrite lastIndexZ_none by (apply (proj1 (existsb_false _ _)); exact Ef).
      reflexivity.
Qed.

End FooterSelection.

Lemma validateSelectedIcon_selection_witness :
  Footer.FavedSetId (env_example false) <> Footer.AllEmojiSectionSetId
  /\ 0 <= Footer.EmojiSectionSetId Footer.Nature < 2 ^ 64
  /\ Footer.selected
       (Footer.subiconState
          (Footer.validateSelectedIcon (env_example false) 1000 1000
             (Footer.EmojiSectionSetId Footer.Nature) Footer.AnimNone
             (footer_example [Footer.RecentEmojiSectionSetId;
                              Footer.AllEmojiSectionSetId; 42]
                (scroll_example 0 0 0 50 false)
                (scroll_example 0 0 0 50 false))))
     = Footer.EmojiSectionSetId Footer.Nature
       - Footer.EmojiSectionSetId Footer.People.
Proof.
  assert (H1 : Footer.FavedSetId (env_example false) <> Footer.AllEmojiSectionSetId)
    by discriminate.
  assert (H2 : 0 <= Footer.EmojiSectionSetId Footer.Nature < 2 ^ 64)
    by (split; [discriminate | reflexivity]).
  split; [exact H1|]. split; [exact H2|].
  destruct (validateSelectedIcon_selection (env_example false) 1000 1000
              (Footer.EmojiSectionSetId Footer.Nature) Footer.AnimNone
              (footer_example [Footer.RecentEmojiSectionSetId;
                               Footer.AllEmojiSectionSetId; 42]
                 (scroll_example 0 0 0 50 false)
                 (scroll_example 0 0 0 50 false))
              H1 H2) as (_ & H & _).
  apply H; reflexivity.
Defined.

(** C4 as stated fails in two places.  A request for the Nature section
    on a list without an "All Emoji" icon selects icon 0, an ordinary set,
    with sub-selection 0.  A request for the Recent set on a list holding the
    Faved icon before the Recent one selects the Faved icon although the
    Recent icon carries exactly the requested id. *)
Lemma validateSelectedIcon_counterexample :
  (Footer.isEmojiSectionId (Footer.EmojiSectionSetId Footer.Nature) = true
   /\ Footer.selected
        (Footer.iconState
           (Footer.validateSelectedIcon (env_example false) 1000 1000
              (Footer.EmojiSectionSetId Footer.Nature) Footer.AnimNone
              (footer_example [42; 43]
                 (scroll_example 0 0 0 50 false)
                 (scroll_example 0 0 0 50 false)))) = 0
   /\ nth_error [42; 43] 0 = Some 42
   /\ 42 <> Footer.AllEmojiSectionSetId
   /\ Footer.selected
        (Footer.subiconState
           (Footer.validateSelectedIcon (env_example false) 1000 1000
              (Footer.EmojiSectionSetId Footer.Nature) Footer.AnimNone
              (footer_example [42; 43]
                 (scroll_example 0 0 0 50 false)
                 (scroll_example 0 0 0 50 false)))) = 0
   /\ Footer.EmojiSectionSetId Footer.Nature
      - Footer.EmojiSectionSetId Footer.People = 1)
  /\ (nth_error [Footer.FavedSetId (env_example false);
                 Footer.RecentSetId (env_example false)] 1
      = Some (Footer.RecentSetId (env_example false))
      /\ Footer.selected
           (Footer.iconState
              (Footer.validateSelectedIcon (env_example false) 1000 1000
                 (Footer.RecentSetId (env_example false)) Footer.AnimNone
                 (footer_example [Footer.FavedSetId (env_example false);
                                  Footer.RecentSetId (env_example false)]
                    (scroll_example 0 0 0 50 false)
                    (scroll_example 0 0 0 50 false)))) = 0).
Proof.
  repeat split; try reflexivity; discriminate.
Qed.

(** ** Footer: the scroll offsets *)

Section FooterScroll.

Import Footer.

Variable env : Env.

Lemma qRound_inject (n : Z) : qRound (inject_Z n) = n.
Proof.
  unfold qRound, Qfloor, Qplus, inject_Z; simpl.
  symmetry. apply (Z.div_unique _ 2 n 1); lia.
Qed.

Lemma offset_jumpTo (s : ScrollState) (n : Z) :
  offset (jumpTo s n) = n /\ max (jumpTo s n) = max s
  /\ dragging (jumpTo s n) = dragging s.
Proof.
  unfold offset. cbn [jumpTo x animValue a_cur max dragging].
  rewrite qRound_inject. repeat split.
Qed.

Lemma inject_Z_range (n M : Z) :
  0 <= n <= M -> (0 <= inject_Z n)%Q /\ (inject_Z n <= inject_Z M)%Q.
Proof. intros H. unfold Qle; simpl. lia. Qed.

Lemma positionInRange_jumpTo (s : ScrollState) (n : Z) :
  0 <= n <= max s -> positionInRange (jumpTo s n).
Proof.
  intros H. unfold positionInRange.
  cbn [jumpTo x animValue a_cur max]. apply inject_Z_range. exact H.
Qed.

(** The shared tail of the drag and wheel handlers: jump unless the rounded
    position is already there.  Either way the offset is the new one. *)
Lemma jump_unless_there (s : ScrollState) (newX : Z) :
  offset (if negb (newX =? qRound (a_cur (x s))) then jumpTo s newX else s) = newX
  /\ max (if negb (newX =? qRound (a_cur (x s))) then jumpTo s newX else s) = max s
  /\ dragging (if negb (newX =? qRound (a_cur (x s))) then jumpTo s newX else s)
     = dragging s
  /\ (0 <= newX <= max s ->
      keepsPosition s
        (if negb (newX =? qRound (a_cur (x s))) then jumpTo s newX else s)).
Proof.
  destruct (newX =? qRound (a_cur (x s))) eqn:E; cbn [negb].
  - apply Z.eqb_eq in E. unfold offset. rewrite <- E.
    split; [reflexivity|]. split; [reflexivity|]. split; [reflexivity|].
    intros _ Hr; exact Hr.
  - destruct (offset_jumpTo s newX) as (H1 & H2 & H3).
    split; [exact H1|]. split; [exact H2|]. split; [exact H3|].
    intros Hr _. apply positionInRange_jumpTo. exact Hr.
Qed.

Lemma checkDragging_bounds (down pos : Z) (s : ScrollState) :
  0 <= max s ->
  max (checkDragging env down pos s) = max s
  /\ dragging (checkDragging env down pos s) = dragging s
  /\ (dragging s = true -> inBounds (checkDragging env down pos s))
  /\ keepsPosition s (checkDragging env down pos s).
Proof.
  intros Hmax. unfold checkDragging, inBounds.
  destruct (dragging s) eqn:Ed.
  - destruct (jump_unless_there s
                (clampZ ((if rtl env then -1 else 1) * (down - pos)
                         + draggingStartX s) 0 (max s))) as (Ho & Hm & Hd & Hk).
    split; [exact Hm|]. split; [rewrite Hd; exact Ed|].
    split; [intros _; rewrite Ho, Hm; apply clampZ_bounds; assumption|].
    apply Hk. apply clampZ_bounds; assumption.
  - split; [reflexivity|]. split; [exact Ed|].
    split; [discriminate|]. intros Hr; exact Hr.
Qed.

Lemma setDragging_view (s : ScrollState) (b : bool) :
  offset (setDragging s b) = offset s
  /\ max (setDragging s b) = max s
  /\ dragging (setDragging s b) = b
  /\ keepsPosition s (setDragging s b).
Proof.
  split; [reflexivity|]. split; [reflexivity|]. split; [reflexivity|].
  intros Hr; exact Hr.
Qed.

Lemma finishDragging1_bounds (down pos : Z) (s : ScrollState) :
  0 <= max s ->
  max (snd (finishDragging1 down pos s)) = max s
  /\ fst (finishDragging1 down pos s) = dragging s
  /\ (dragging s = true ->
      inBounds (snd (finishDragging1 down pos s))
      /\ dragging (snd (finishDragging1 down pos s)) = false
      /\ offset (snd (finishDragging1 down pos s))
         = clampZ (draggingStartX s + down - pos) 0 (max s))
  /\ keepsPosition s (snd (finishDragging1 down pos s)).
Proof.
  intros Hmax. unfold finishDragging1.
  destruct (dragging s) eqn:Ed; cbn [negb fst snd].
  - destruct (jump_unless_there s
                (clampZ (draggingStartX s + down - pos) 0 (max s)))
      as (Ho & Hm & Hd & Hk).
    assert (Hc : 0 <= clampZ (draggingStartX s + down - pos) 0 (max s) <= max s)
      by (apply clampZ_bounds; assumption).
    specialize (Hk Hc).
    match goal with
    | |- context [setDragging ?s1 false] =>
        destruct (setDragging_view s1 false) as (Vo & Vm & Vd & Vk)
    end.
    split; [rewrite Vm; exact Hm|]. split; [reflexivity|].
    split.
    + intros _. unfold inBounds. rewrite Vo, Vm, Ho, Hm.
      split; [exact Hc|]. split; [exact Vd | reflexivity].
    + intros Hr. apply Vk, Hk, Hr.
  - split; [reflexivity|]. split; [reflexivity|].
    split; [discriminate|]. intros Hr; exact Hr.
Qed.

(** One wheel step: the offset becomes the clamped one, the unused part of
    the delta is what the clamp cut off. *)
Lemma wheelUse_bounds (delta : Z) (s : ScrollState) :
  0 <= max s ->
  offset (fst (wheelUse delta s)) = clampZ (offset s - delta) 0 (max s)
  /\ max (fst (wheelUse delta s)) = max s
  /\ inBounds (fst (wheelUse delta s))
  /\ snd (wheelUse delta s) = offset (fst (wheelUse delta s)) - (offset s - delta)
  /\ keepsPosition s (fst (wheelUse delta s)).
Proof.
  intros Hmax. unfold wheelUse, inBounds. cbn [fst snd].
  change (offset s) with (qRound (a_cur (x s))).
  destruct (jump_unless_there s (clampZ (qRound (a_cur (x s)) - delta) 0 (max s)))
    as (Ho & Hm & _ & Hk).
  assert (Hc : 0 <= clampZ (qRound (a_cur (x s)) - delta) 0 (max s) <= max s)
    by (apply clampZ_bounds; assumption).
  rewrite Ho, Hm.
  split; [reflexivity|]. split; [reflexivity|]. split; [exact Hc|].
  split; [reflexivity|]. apply Hk. exact Hc.
Qed.

Lemma heading_scrollTo (s : ScrollState) (final : Z)
    (animations : ValidateIconAnimations) (now : Z) :
  now <> 0 -> heading (max s) final (scrollTo s final animations now).
Proof.
  intros Hnow. unfold heading.
  destruct animations; cbn [scrollTo max x a_to a_cur a_start animValue animating
                             animationStart];
    repeat split; intros; try discriminate; try reflexivity; assumption.
Qed.

Lemma heading_tick (M final now : Z) (s : ScrollState) :
  heading M final s -> heading M final (tick env now s).
Proof.
  intros H. unfold tick.
  destruct (animating s) eqn:Ea; [|exact H].
  destruct H as (Hm & Hto & Hrest & Hstart).
  specialize (Hstart Ea). unfold animationCallback.
  destruct (animationStart s =? 0) eqn:E0; [apply Z.eqb_eq in E0; contradiction|].
  unfold heading.
  destruct (Qle_bool 1 _);
    cbn [max x a_to a_cur a_finish a_update animating animationStart];
    repeat split; intros; try discriminate; try assumption.
Qed.

Lemma heading_ticks (M final : Z) (nows : list Z) :
  forall s, heading M final s -> heading M final (ticks env nows s).
Proof.
  unfold ticks. induction nows as [|now nows IH]; intros s H; simpl; [exact H|].
  apply IH. apply heading_tick. exact H.
Qed.

Lemma heading_bounds (M final : Z) (s : ScrollState) :
  0 <= final <= M -> heading M final s ->
  max s = M /\ (animating s = false -> inBounds s /\ positionInRange s).
Proof.
  intros Hf (Hm & _ & Hrest & _). split; [exact Hm|].
  intros Ha. unfold inBounds, positionInRange, offset.
  rewrite (Hrest Ha), qRound_inject, Hm. split; [lia|].
  apply inject_Z_range. exact Hf.
Qed.

(** Selecting another icon sends the outer axis towards a centred offset
    clamped to the axis' range. *)
Lemma setSelectedIcon_heading (now n : Z) (animations : ValidateIconAnimations)
    (f : Footer) :
  selected (iconState f) <> n -> now <> 0 -> 0 <= max (iconState f) ->
  exists final,
    0 <= final <= max (iconState f)
    /\ heading (max (iconState f)) final
               (iconState (setSelectedIcon now n animations f))
    /\ subiconState (setSelectedIcon now n animations f) = subiconState f.
Proof.
  intros Hsel Hnow Hmax. unfold setSelectedIcon.
  destruct (selected (iconState f) =? n) eqn:E; [apply Z.eqb_eq in E; contradiction|].
  destruct (updateEmojiSectionWidth_states
              (withIconState f (setSelected (iconState f) n))) as (Hi & Hs & _).
  set (f2 := updateEmojiSectionWidth (withIconState f (setSelected (iconState f) n)))
    in *.
  cbn [withIconState withStates iconState subiconState].
  match goal with
  | |- context [scrollTo ?s1 ?final animations now] =>
      exists final; assert (Hm1 : max s1 = max (iconState f))
        by (cbn [withSelection max]; rewrite Hi; reflexivity)
  end.
  split.
  - unfold iconsXFinal. cbn [withIconState withStates iconState withSelection max].
    rewrite Hi. cbn [setSelected max]. apply clampZ_bounds. exact Hmax.
  - split; [|rewrite Hs; reflexivity].
    rewrite <- Hm1. apply heading_scrollTo. exact Hnow.
Qed.

Lemma setSelectedSubicon_heading (now n : Z) (animations : ValidateIconAnimations)
    (f : Footer) :
  selected (subiconState f) <> n -> now <> 0 -> 0 <= max (subiconState f) ->
  exists final,
    0 <= final <= max (subiconState f)
    /\ heading (max (subiconState f)) final
               (subiconState (setSelectedSubicon now n animations f))
    /\ iconState (setSelectedSubicon now n animations f) = iconState f.
Proof.
  intros Hsel Hnow Hmax. unfold setSelectedSubicon.
  destruct (selected (subiconState f) =? n) eqn:E;
    [apply Z.eqb_eq in E; contradiction|].
  cbn [withSubiconState withStates iconState subiconState].
  match goal with
  | |- context [scrollTo ?s1 ?final animations now] => exists final
  end.
  split.
  - unfold subiconsXFinal. cbn [withSubiconState withStates subiconState setSelected max].
    apply clampZ_bounds. exact Hmax.
  - split; [|reflexivity].
    change (max (subiconState f))
      with (max (setSelected (subiconState f) n)).
    apply heading_scrollTo. exact Hnow.
Qed.

End FooterScroll.

Section FooterScrollResults.

Import Footer.

Variable env : Env.

Lemma mouseReleaseEvent_bounds (pos : Z * Z) (over : option Z) (f : Footer) :
  0 <= max (iconState f) -> 0 <= max (subiconState f) -> icons f <> [] ->
  (dragging (iconState f) = true ->
   settlesInRange (iconState f) (iconState (mouseReleaseEvent pos over f))
   /\ dragging (iconState (mouseReleaseEvent pos over f)) = false)
  /\ (dragging (subiconState f) = true ->
      settlesInRange (subiconState f) (subiconState (mouseReleaseEvent pos over f))
      /\ dragging (subiconState (mouseReleaseEvent pos over f)) = false).
Proof.
  intros Hi Hs Hne. unfold mouseReleaseEvent, settlesInRange.
  destruct (icons f) as [|i0 rest] eqn:El; [contradiction|].
  unfold finishDragging.
  cbn [withMouse iconState subiconState iconsMouseDown iconsMousePos].
  pose proof (finishDragging1_bounds (fst (iconsMouseDown f)) (fst pos)
                (iconState f) Hi) as (Hmi & Hfi & Hbi & Hki).
  pose proof (finishDragging1_bounds (fst (iconsMouseDown f)) (fst pos)
                (subiconState f) Hs) as (Hms & Hfs & Hbs & Hks).
  destruct (finishDragging1 (fst (iconsMouseDown f)) (fst pos) (iconState f))
    as [icon i'].
  destruct (finishDragging1 (fst (iconsMouseDown f)) (fst pos) (subiconState f))
    as [subicon s'].
  cbn [fst snd] in *. split.
  - intros Hd. rewrite Hd in Hfi. subst icon. cbn [orb].
    cbn [withStates iconState]. destruct (Hbi Hd) as (H1 & H2 & _). auto.
  - intros Hd. rewrite Hd in Hfs. subst subicon. rewrite orb_true_r.
    cbn [withStates subiconState]. destruct (Hbs Hd) as (H1 & H2 & _). auto.
Qed.

Lemma mouseMoveEvent_bounds (pos : Z * Z) (f : Footer) :
  0 <= max (iconState f) -> 0 <= max (subiconState f) ->
  (max (iconState (mouseMoveEvent env pos f)) = max (iconState f)
   /\ keepsPosition (iconState f) (iconState (mouseMoveEvent env pos f))
   /\ (dragging (iconState (mouseMoveEvent env pos f)) = true ->
       inBounds (iconState (mouseMoveEvent env pos f))))
  /\ (max (subiconState (mouseMoveEvent env pos f)) = max (subiconState f)
      /\ keepsPosition (subiconState f) (subiconState (mouseMoveEvent env pos f))
      /\ (dragging (subiconState (mouseMoveEvent env pos f)) = true ->
          inBounds (subiconState (mouseMoveEvent env pos f)))).
Proof.
  intros Hi Hs. unfold mouseMoveEvent.
  match goal with
  | |- context [withStates ?g _ _] => set (f2 := g)
  end.
  assert (Hsame : max (iconState f2) = max (iconState f)
                  /\ max (subiconState f2) = max (subiconState f)
                  /\ x (iconState f2) = x (iconState f)
                  /\ x (subiconState f2) = x (subiconState f)).
  { subst f2.
    repeat match goal with
           | |- context [match ?c with _ => _ end] => destruct c
           end; repeat split. }
  destruct Hsame as (Hmi & Hms & Hxi & Hxs).
  cbn [withStates iconState subiconState].
  destruct (checkDragging_bounds env (fst (iconsMouseDown f2)) (fst pos)
              (iconState f2)) as (Hci & Hdi & Hbi & Hki); [lia|].
  destruct (checkDragging_bounds env (fst (iconsMouseDown f2)) (fst pos)
              (subiconState f2)) as (Hcs & Hds & Hbs & Hks); [lia|].
  split.
  - split; [rewrite Hci; exact Hmi|]. split.
    + intros Hr. apply Hki. unfold positionInRange in *.
      rewrite Hxi, Hmi. exact Hr.
    + intros Hd. apply Hbi. rewrite <- Hdi. exact Hd.
  - split; [rewrite Hcs; exact Hms|]. split.
    + intros Hr. apply Hks. unfold positionInRange in *.
      rewrite Hxs, Hms. exact Hr.
    + intros Hd. apply Hbs. rewrite <- Hds. exact Hd.
Qed.

Lemma scrollByWheelEvent_bounds (angle pixel : Z * Z) (over delta : Z) (f : Footer) :
  0 <= max (iconState f) -> 0 <= max (subiconState f) ->
  wheelDelta env angle pixel = Some delta ->
  (wheelOnSubicons f over = false ->
   subiconState (scrollByWheelEvent env angle pixel over f) = subiconState f
   /\ offset (iconState (scrollByWheelEvent env angle pixel over f))
      = clampZ (offset (iconState f) - delta) 0 (max (iconState f))
   /\ settlesInRange (iconState f)
        (iconState (scrollByWheelEvent env angle pixel over f)))
  /\ (wheelOnSubicons f over = true ->
      iconState (scrollByWheelEvent env angle pixel over f) = iconState f
      /\ offset (subiconState (scrollByWheelEvent env angle pixel over f))
         = clampZ (offset (subiconState f) - delta) 0 (max (subiconState f))
      /\ settlesInRange (subiconState f)
           (subiconState (scrollByWheelEvent env angle pixel over f))).
Proof.
  intros Hi Hs Hd. unfold scrollByWheelEvent, settlesInRange. rewrite Hd.
  split; intros ->; cbn [withIconState withSubiconState withStates
                                       iconState subiconState].
  - destruct (wheelUse_bounds delta (iconState f) Hi) as (Ho & Hm & Hb & _ & Hk).
    auto.
  - destruct (wheelUse_bounds delta (subiconState f) Hs) as (Ho & Hm & Hb & _ & Hk).
    auto.
Qed.


End FooterScrollResults.



(** The outer range is never negative once the scrollable dimensions have
    been refreshed, and the position is pulled back into it. *)
Lemma refreshScrollableDimensions_range (f : Footer.Footer) :
  0 <= Footer.max (Footer.iconState (Footer.refreshScrollableDimensions f))
  /\ (Footer.a_cur (Footer.x (Footer.iconState (Footer.refreshScrollableDimensions f)))
      <= inject_Z (Footer.max (Footer.iconState
                                 (Footer.refreshScrollableDimensions f))))%Q.
Proof.
  unfold Footer.refreshScrollableDimensions.
  cbn [Footer.withIconState Footer.withStates Footer.iconState Footer.max Footer.x].
  split; [apply Z.le_max_r|].
  destruct (Qlt_le_dec _ _) as [Hlt|Hle]; [|exact Hle].
  cbn [Footer.animValue Footer.a_cur]. apply Qle_refl.
Qed.

(** ** Footer: set ids, icon geometry and the geometry refresh *)

Section FooterGeometryFacts.

Import Footer.

Variable env : Env.

(** X1.  [SetIdEmojiSection] is the inverse of [EmojiSectionSetId]: a
    64-bit id decodes to a section exactly when it is that section's id.
    In particular the ids of the eight sections are pairwise different and
    the "All Emoji" id decodes to no section. *)
Theorem SetIdEmojiSection_inverts_EmojiSectionSetId (id : Z) (s : EmojiSection) :
  0 <= id < 2 ^ 64 ->
  (SetIdEmojiSection id = Some s <-> id = EmojiSectionSetId s)
  /\ SetIdEmojiSection AllEmojiSectionSetId = None.
Proof.
  intros Hid. split; [|reflexivity]. split.
  - assert (HR : RecentEmojiSectionSetId = 0x77FFFFFFFFFFFFF1) by reflexivity.
    change (2 ^ 64) with 18446744073709551616 in Hid.
    unfold SetIdEmojiSection. rewrite HR.
    destruct (id <? 0x77FFFFFFFFFFFFF1) eqn:E; [discriminate|].
    apply Z.ltb_ge in E.
    unfold u64. change (2 ^ 64) with 18446744073709551616.
    rewrite Z.mod_small by lia.
    change (sectionIndex Symbols) with 7.
    destruct (id - 0x77FFFFFFFFFFFFF1 <=? 7) eqn:E7; [|discriminate].
    apply Z.leb_le in E7.
    assert (Hcases : id = 0x77FFFFFFFFFFFFF1 + 0 \/ id = 0x77FFFFFFFFFFFFF1 + 1
                     \/ id = 0x77FFFFFFFFFFFFF1 + 2 \/ id = 0x77FFFFFFFFFFFFF1 + 3
                     \/ id = 0x77FFFFFFFFFFFFF1 + 4 \/ id = 0x77FFFFFFFFFFFFF1 + 5
                     \/ id = 0x77FFFFFFFFFFFFF1 + 6 \/ id = 0x77FFFFFFFFFFFFF1 + 7)
      by lia.
    clear E E7 Hid HR.
    destruct Hcases as [->|[->|[->|[->|[->|[->|[->| ->]]]]]]];
      cbn; intros [= <-]; reflexivity.
  - intros ->. destruct s; reflexivity.
Qed.

Lemma enumerateIconsFrom_fold {A : Type} (f : Footer)
    (callback : A -> IconInfo -> bool * A) (rest : list Z) :
  forall i left_ acc,
    enumerateIconsFrom f callback rest i left_ acc
    = foldUntil callback (infosFrom f rest i left_) acc.
Proof.
  induction rest as [|setId rest IH]; intros i left_ acc; [reflexivity|].
  cbn [enumerateIconsFrom infosFrom foldUntil].
  change (if setId =? AllEmojiSectionSetId
          then subiconsWidthValue f
                 (if subiconsExpanded f then subiconsWidth f else singleWidth f)
          else inject_Z (singleWidth f)) with (iconWidthQ f setId).
  destruct (callback acc _) as [continue acc'].
  destruct continue; [apply IH | reflexivity].
Qed.

Lemma truncQ_inject (n : Z) : truncQ (inject_Z n) = n.
Proof.
  unfold truncQ. destruct (Qle_bool 0 (inject_Z n)).
  - unfold Qfloor, inject_Z; simpl. apply Z.div_1_r.
  - unfold Qceiling, Qfloor, Qopp, inject_Z; simpl. rewrite Z.div_1_r. lia.
Qed.

Lemma truncQ_add (a b : Z) : truncQ (inject_Z a + inject_Z b) = a + b.
Proof.
  assert (E : (inject_Z a + inject_Z b == inject_Z (a + b))%Q)
    by (unfold Qeq, Qplus, inject_Z; simpl; lia).
  unfold truncQ.
  assert (Ef : Qfloor (inject_Z a + inject_Z b) = a + b).
  { rewrite (Qfloor_comp _ _ E). unfold Qfloor, inject_Z; simpl. apply Z.div_1_r. }
  assert (Ec : Qceiling (inject_Z a + inject_Z b) = a + b).
  { rewrite (Qceiling_comp _ _ E).
    unfold Qceiling, Qfloor, Qopp, inject_Z; simpl. rewrite Z.div_1_r. lia. }
  destruct (Qle_bool 0 _); assumption.
Qed.

Lemma SafeRound_inject (n : Z) : SafeRound (inject_Z n) = n.
Proof.
  unfold SafeRound. destruct (Qle_bool 0 (inject_Z n)).
  - unfold Qfloor, Qplus, inject_Z; simpl.
    symmetry. apply (Z.div_unique _ 2 n 1); lia.
  - unfold Qceiling, Qfloor, Qopp, Qminus, Qplus, inject_Z; simpl.
    assert (E : (- (n * 2 + -1)) / 2 = - n)
      by (symmetry; apply (Z.div_unique _ 2 (- n) 1); lia).
    rewrite E. lia.
Qed.

Lemma iconWidthQ_plain (f : Footer) (id : Z) :
  id <> AllEmojiSectionSetId -> iconWidthQ f id = inject_Z (singleWidth f).
Proof.
  intros H. unfold iconWidthQ.
  destruct (id =? AllEmojiSectionSetId) eqn:E; [|reflexivity].
  apply Z.eqb_eq in E. contradiction.
Qed.

(** The [n]-th [IconInfo] of a walk describes the [n]-th icon. *)
Lemma infosFrom_nth (f : Footer) (rest : list Z) :
  forall i left_ n info,
    nth_error (infosFrom f rest i left_) n = Some info ->
    index info = i + Z.of_nat n
    /\ adjustedLeft info
       = iconsLeft f - SafeRound (a_cur (x (iconState f))) + left info
    /\ exists id,
         nth_error rest n = Some id
         /\ width info = SafeRound (iconWidthQ f id)
         /\ ((forall m id', (m < n)%nat -> nth_error rest m = Some id' ->
                            id' <> AllEmojiSectionSetId) ->
             left info = left_ + Z.of_nat n * singleWidth f).
Proof.
  induction rest as [|setId rest IH]; intros i left_ n info.
  - destruct n; discriminate.
  - destruct n as [|n]; cbn [infosFrom nth_error].
    + intros [= <-]. cbn [index adjustedLeft left width].
      split; [lia|]. split; [reflexivity|].
      exists setId. split; [reflexivity|]. split; [reflexivity|].
      intros _. lia.
    + intros H. destruct (IH _ _ _ _ H) as (Hi & Ha & id & Hn & Hw & Hl).
      split; [lia|]. split; [exact Ha|].
      exists id. split; [exact Hn|]. split; [exact Hw|].
      intros Hplain.
      rewrite Hl by (intros m id' Hm; apply (Hplain (S m)); lia).
      rewrite (iconWidthQ_plain f setId) by (apply (Hplain 0%nat); [lia|reflexivity]).
      rewrite truncQ_add. lia.
Qed.

Lemma infosFrom_length (f : Footer) (rest : list Z) :
  forall i left_, length (infosFrom f rest i left_) = length rest.
Proof.
  induction rest as [|setId rest IH]; intros i left_; [reflexivity|].
  cbn [infosFrom length]. now rewrite IH.
Qed.

(** Looking an index up in a list whose entries carry the consecutive
    indices from [i] on. *)
Lemma foldUntil_findInfo (idx : Z) (l : list IconInfo) :
  forall i acc,
    (forall n info, nth_error l n = Some info -> index info = i + Z.of_nat n) ->
    (forall n info, nth_error l n = Some info -> idx = i + Z.of_nat n ->
                    foldUntil (findInfo idx) l acc = info)
    /\ ((idx < i \/ i + Z.of_nat (length l) <= idx) ->
        foldUntil (findInfo idx) l acc = acc).
Proof.
  induction l as [|a l IH]; intros i acc Hidx.
  - split; [intros [|n] info; discriminate | reflexivity].
  - assert (Ha : index a = i) by (rewrite (Hidx 0%nat a eq_refl); lia).
    assert (Hrest : forall n info, nth_error l n = Some info ->
                                   index info = (i + 1) + Z.of_nat n).
    { intros n info H. rewrite (Hidx (S n) info H). lia. }
    destruct (IH (i + 1) acc Hrest) as [IHfound IHnone].
    assert (Estep : foldUntil (findInfo idx) (a :: l) acc
                    = if i =? idx then a else foldUntil (findInfo idx) l acc).
    { cbn [foldUntil].
      change (findInfo idx acc a)
        with (if index a =? idx then (false, a) else (true, acc)).
      rewrite Ha. destruct (i =? idx); reflexivity. }
    rewrite Estep. clear Estep.
    split.
    + intros [|n] info; cbn [nth_error].
      * intros [= <-] ->. replace (i + Z.of_nat 0) with i by lia.
        rewrite Z.eqb_refl. reflexivity.
      * intros H E. destruct (i =? idx) eqn:Ei; [apply Z.eqb_eq in Ei; lia|].
        apply (IHfound n info H). lia.
    + cbn [length]. intros H.
      destruct (i =? idx) eqn:Ei; [apply Z.eqb_eq in Ei; lia|].
      apply IHnone. lia.
Qed.

Lemma infosFrom_indices (f : Footer) (n : nat) (info : IconInfo) :
  nth_error (infosFrom f (icons f) 0 0) n = Some info ->
  index info = 0 + Z.of_nat n.
Proof. intros H. apply (infosFrom_nth f _ _ _ _ _ H). Qed.

(** [iconInfo] of an index within the list is that entry of the walk. *)
Lemma iconInfo_nth (f : Footer) (n : nat) (id : Z) :
  nth_error (icons f) n = Some id ->
  nth_error (infosFrom f (icons f) 0 0) n = Some (iconInfo f (Z.of_nat n)).
Proof.
  intros Hn.
  assert (Hlen : (n < length (infosFrom f (icons f) 0 0))%nat).
  { rewrite infosFrom_length. apply nth_error_Some. congruence. }
  destruct (nth_error (infosFrom f (icons f) 0 0) n) as [info|] eqn:Hinfo;
    [|apply nth_error_None in Hinfo; lia].
  f_equal. symmetry.
  unfold iconInfo, enumerateIcons. rewrite enumerateIconsFrom_fold.
  apply (proj1 (foldUntil_findInfo _ _ 0 IconInfo0 (infosFrom_indices f))
           n info Hinfo).
  lia.
Qed.

Lemma iconInfo_out_of_range (f : Footer) (idx : Z) :
  idx < 0 \/ Z.of_nat (length (icons f)) <= idx -> iconInfo f idx = IconInfo0.
Proof.
  intros H. unfold iconInfo, enumerateIcons. rewrite enumerateIconsFrom_fold.
  apply (proj2 (foldUntil_findInfo idx _ 0 IconInfo0 (infosFrom_indices f))).
  rewrite infosFrom_length. lia.
Qed.

(** X2.  [iconInfo(index)] answers the icon with that index: its [index]
    is the one asked for, its width is the rounded width of that icon (the
    single width for every icon but the "All Emoji" one), its adjusted left
    edge is its left edge shifted by the icons' margin and the rounded
    scroll position, and when no "All Emoji" icon comes before it, its left
    edge is [index * singleWidth].  An index that names no icon gets the
    default-constructed info. *)
Theorem iconInfo_describes_icon (f : Footer) :
  (forall n id,
     nth_error (icons f) n = Some id ->
     index (iconInfo f (Z.of_nat n)) = Z.of_nat n
     /\ width (iconInfo f (Z.of_nat n)) = SafeRound (iconWidthQ f id)
     /\ (id <> AllEmojiSectionSetId ->
         width (iconInfo f (Z.of_nat n)) = singleWidth f)
     /\ adjustedLeft (iconInfo f (Z.of_nat n))
        = iconsLeft f - SafeRound (a_cur (x (iconState f)))
          + left (iconInfo f (Z.of_nat n))
     /\ ((forall m id', (m < n)%nat -> nth_error (icons f) m = Some id' ->
                        id' <> AllEmojiSectionSetId) ->
         left (iconInfo f (Z.of_nat n)) = Z.of_nat n * singleWidth f))
  /\ (forall idx, idx < 0 \/ Z.of_nat (length (icons f)) <= idx ->
                  iconInfo f idx = IconInfo0).
Proof.
  split; [|apply iconInfo_out_of_range].
  intros n id Hn.
  destruct (infosFrom_nth f _ _ _ _ _ (iconInfo_nth f n id Hn))
    as (Hi & Ha & id' & Hn' & Hw & Hl).
  assert (id' = id) by congruence. subst id'.
  split; [lia|]. split; [exact Hw|]. split.
  - intros Hplain. rewrite Hw, (iconWidthQ_plain f id Hplain).
    apply SafeRound_inject.
  - split; [exact Ha|]. intros Hplain. rewrite (Hl Hplain). lia.
Qed.

(** The walk of [subiconInfo]: it answers the sub-icon with the index asked
    for when the walk reaches it, else what it started with. *)
Lemma enumerateSubiconsFrom_findInfo (f : Footer) (idx : Z) (n : nat) :
  forall i left_ acc,
    enumerateSubiconsFrom f (findInfo idx) n i left_ acc
    = if (i - 1 <=? idx) && (idx <? i - 1 + Z.of_nat n) then
        {| index := idx;
           left := left_ + (idx - (i - 1)) * singleWidth f;
           adjustedLeft := - SafeRound (a_cur (x (subiconState f)))
                           + (left_ + (idx - (i - 1)) * singleWidth f);
           width := singleWidth f;
           visible :=
             (0 <? - SafeRound (a_cur (x (subiconState f)))
                   + (left_ + (idx - (i - 1)) * singleWidth f) + singleWidth f)
             && (- SafeRound (a_cur (x (subiconState f)))
                 + (left_ + (idx - (i - 1)) * singleWidth f) <? subiconsWidth f) |}
      else acc.
Proof.
  induction n as [|n IH]; intros i left_ acc.
  - cbn [enumerateSubiconsFrom].
    destruct (i - 1 <=? idx) eqn:E1; [|reflexivity].
    destruct (idx <? i - 1 + Z.of_nat 0) eqn:E2; [|reflexivity].
    apply Z.leb_le in E1. apply Z.ltb_lt in E2. lia.
  - cbn [enumerateSubiconsFrom].
    change (sectionIndex People) with 1.
    match goal with
    | |- context [findInfo idx acc ?info] =>
        change (findInfo idx acc info)
          with (if i - 1 =? idx then (false, info) else (true, acc))
    end.
    destruct (i - 1 =? idx) eqn:E.
    + apply Z.eqb_eq in E.
      assert (E1 : (i - 1 <=? idx) = true) by (apply Z.leb_le; lia).
      assert (E2 : (idx <? i - 1 + Z.of_nat (S n)) = true) by (apply Z.ltb_lt; lia).
      rewrite E1, E2. cbn [andb].
      replace (left_ + (idx - (i - 1)) * singleWidth f) with left_ by nia.
      rewrite E. reflexivity.
    + apply Z.eqb_neq in E. rewrite IH.
      replace (i + 1 - 1) with i by lia.
      assert (Ec : (i <=? idx) && (idx <? i + Z.of_nat n)
                   = (i - 1 <=? idx) && (idx <? i - 1 + Z.of_nat (S n))).
      { destruct (i <=? idx) eqn:A1; destruct (idx <? i + Z.of_nat n) eqn:A2;
          destruct (i - 1 <=? idx) eqn:B1;
          destruct (idx <? i - 1 + Z.of_nat (S n)) eqn:B2; try reflexivity;
          repeat match goal with
                 | H : (_ <=? _) = true |- _ => apply Z.leb_le in H
                 | H : (_ <=? _) = false |- _ => apply Z.leb_gt in H
                 | H : (_ <? _) = true |- _ => apply Z.ltb_lt in H
                 | H : (_ <? _) = false |- _ => apply Z.ltb_ge in H
                 end; lia. }
      rewrite Ec.
      replace (left_ + singleWidth f + (idx - i) * singleWidth f)
        with (left_ + (idx - (i - 1)) * singleWidth f) by lia.
      reflexivity.
Qed.

(** X3.  [subiconInfo(index)] for one of the seven sections People to
    Symbols (indices 0 to 6): the sub-icon has that index and the single
    width, its left edge is [index * singleWidth], its adjusted left edge is
    the left edge minus the rounded scroll position of the strip, and it is
    visible exactly when it overlaps the strip's width.  Any other index
    gets the default-constructed info. *)
Theorem subiconInfo_describes_section (f : Footer) (k : Z) :
  (0 <= k <= 6 ->
   index (subiconInfo f k) = k
   /\ left (subiconInfo f k) = k * singleWidth f
   /\ width (subiconInfo f k) = singleWidth f
   /\ adjustedLeft (subiconInfo f k)
      = k * singleWidth f - SafeRound (a_cur (x (subiconState f)))
   /\ visible (subiconInfo f k)
      = (0 <? adjustedLeft (subiconInfo f k) + singleWidth f)
        && (adjustedLeft (subiconInfo f k) <? subiconsWidth f))
  /\ (k < 0 \/ 6 < k -> subiconInfo f k = IconInfo0).
Proof.
  unfold subiconInfo, enumerateSubicons.
  rewrite enumerateSubiconsFrom_findInfo.
  change (sectionIndex People - 1) with 0.
  change (Z.of_nat (Z.to_nat (sectionIndex Symbols - sectionIndex People + 1)))
    with 7.
  split.
  - intros Hk.
    assert (E1 : (0 <=? k) = true) by (apply Z.leb_le; lia).
    assert (E2 : (k <? 0 + 7) = true) by (apply Z.ltb_lt; lia).
    rewrite E1, E2. cbn [andb index left width adjustedLeft visible].
    split; [reflexivity|]. split; [lia|]. split; [reflexivity|].
    split; [lia|]. reflexivity.
  - intros Hk.
    destruct (0 <=? k) eqn:E1; [|reflexivity].
    destruct (k <? 0 + 7) eqn:E2; [|reflexivity].
    apply Z.leb_le in E1. apply Z.ltb_lt in E2. lia.
Qed.
Lemma truncQ_ge (n : Z) (w : Q) : (0 <= w)%Q -> n <= truncQ (inject_Z n + w).
Proof.
  intros Hw.
  assert (H : (inject_Z n <= inject_Z n + w)%Q).
  { rewrite <- (Qplus_0_r (inject_Z n)) at 1. apply Qplus_le_r. exact Hw. }
  unfold truncQ. destruct (Qle_bool 0 (inject_Z n + w)).
  - apply Z.le_trans with (Qfloor (inject_Z n));
      [rewrite Qfloor_Z; lia | apply Qfloor_resp_le; exact H].
  - apply Z.le_trans with (Qceiling (inject_Z n));
      [rewrite Qceiling_Z; lia | apply Qceiling_resp_le; exact H].
Qed.

Lemma foldUntil_all (l : list IconInfo) :
  forall acc, foldUntil (fun acc info => (true, acc ++ [info])) l acc = acc ++ l.
Proof.
  induction l as [|a l IH]; intros acc; cbn [foldUntil].
  - now rewrite app_nil_r.
  - rewrite IH, <- app_assoc. reflexivity.
Qed.

Lemma allIconInfos_infosFrom (f : Footer) :
  allIconInfos f = infosFrom f (icons f) 0 0.
Proof.
  unfold allIconInfos, enumerateIcons.
  rewrite enumerateIconsFrom_fold. apply foldUntil_all.
Qed.

Section Widths.

Variable f : Footer.
Hypothesis Hsingle : 0 <= singleWidth f.
Hypothesis Hstrip :
  (0 <= subiconsWidthValue f (if subiconsExpanded f then subiconsWidth f
                              else singleWidth f))%Q.

Lemma iconWidthQ_nonneg (id : Z) : (0 <= iconWidthQ f id)%Q.
Proof.
  unfold iconWidthQ. destruct (id =? AllEmojiSectionSetId); [exact Hstrip|].
  unfold Qle, inject_Z; simpl. lia.
Qed.

(** Once an icon starts at or beyond the right edge, so do all later
    ones: none of them is visible. *)
Lemma infosFrom_hidden (rest : list Z) :
  forall i left_,
    widgetWidth f
    <= iconsLeft f - SafeRound (a_cur (x (iconState f))) + left_ ->
    filter visible (infosFrom f rest i left_) = [].
Proof.
  induction rest as [|setId rest IH]; intros i left_ H; [reflexivity|].
  cbn [infosFrom filter visible].
  assert (E : (iconsLeft f - SafeRound (a_cur (x (iconState f))) + left_
               <? widgetWidth f) = false) by (apply Z.ltb_ge; exact H).
  rewrite E, andb_false_r.
  apply IH.
  pose proof (truncQ_ge left_ (iconWidthQ f setId) (iconWidthQ_nonneg setId)).
  lia.
Qed.

Lemma foldUntil_visible {A : Type} (callback : A -> IconInfo -> A)
    (rest : list Z) :
  forall i left_ acc,
    foldUntil (fun acc info =>
                 if visible info then (true, callback acc info)
                 else if 0 <? adjustedLeft info then (false, acc)
                 else (true, acc))
              (infosFrom f rest i left_) acc
    = fold_left callback (filter visible (infosFrom f rest i left_)) acc.
Proof.
  induction rest as [|setId rest IH]; intros i left_ acc; [reflexivity|].
  cbn [infosFrom].
  set (shifted := iconsLeft f - SafeRound (a_cur (x (iconState f))) + left_).
  set (v := (if Qlt_le_dec 0 (inject_Z shifted + iconWidthQ f setId)
             then true else false) && (shifted <? widgetWidth f)).
  cbn [foldUntil filter visible adjustedLeft].
  destruct v eqn:Ev.
  - cbn [fold_left]. apply IH.
  - destruct (0 <? shifted) eqn:Epos.
    + apply Z.ltb_lt in Epos.
      assert (Hright : widgetWidth f <= shifted).
      { subst v. destruct (Qlt_le_dec 0 (inject_Z shifted + iconWidthQ f setId))
          as [_|Hle].
        - cbn [andb] in Ev. apply Z.ltb_ge in Ev. exact Ev.
        - exfalso.
          assert (Hs : (0 < inject_Z shifted)%Q)
            by (unfold Qlt, inject_Z; simpl; lia).
          pose proof (iconWidthQ_nonneg setId) as Hw.
          assert (Hsum : (0 + 0 < inject_Z shifted + iconWidthQ f setId)%Q)
            by (apply Qplus_lt_le_compat; assumption).
          rewrite Qplus_0_r in Hsum.
          apply (Qlt_irrefl 0). eapply Qlt_le_trans; eassumption. }
      rewrite infosFrom_hidden; [reflexivity|].
      pose proof (truncQ_ge left_ (iconWidthQ f setId) (iconWidthQ_nonneg setId)).
      subst shifted. lia.
    + apply IH.
Qed.

End Widths.

(** X4.  With widths that are not negative, the early exit of
    [enumerateVisibleIcons] loses nothing: its callback is applied to
    exactly the visible icons, in order. *)
Theorem enumerateVisibleIcons_visits_visible {A : Type} (f : Footer)
    (callback : A -> IconInfo -> A) (acc : A) :
  0 <= singleWidth f ->
  (0 <= subiconsWidthValue f (if subiconsExpanded f then subiconsWidth f
                              else singleWidth f))%Q ->
  enumerateVisibleIcons f callback acc
  = fold_left callback (filter visible (allIconInfos f)) acc.
Proof.
  intros Hsingle Hstrip.
  unfold enumerateVisibleIcons, enumerateIcons.
  rewrite enumerateIconsFrom_fold, allIconInfos_infosFrom.
  apply foldUntil_visible; assumption.
Qed.

(** X5.  [refreshScrollableDimensions] on a list without an "All Emoji"
    icon: the scroll range becomes the overflow of the icons over the
    widget, [count * singleWidth + iconsLeft + iconsRight - width], or 0 when
    they fit (also for an empty list); afterwards the position is not beyond
    the range, and a position that was not beyond it is left alone. *)
Theorem refreshScrollableDimensions_overflow (f : Footer) :
  (forall id, In id (icons f) -> id <> AllEmojiSectionSetId) ->
  max (iconState (refreshScrollableDimensions f))
  = Z.max (Z.of_nat (length (icons f)) * singleWidth f
           + iconsLeft f + iconsRight f - widgetWidth f) 0
  /\ 0 <= max (iconState (refreshScrollableDimensions f))
  /\ (a_cur (x (iconState (refreshScrollableDimensions f)))
      <= inject_Z (max (iconState (refreshScrollableDimensions f))))%Q
  /\ ((a_cur (x (iconState f))
       <= inject_Z (max (iconState (refreshScrollableDimensions f))))%Q ->
      x (iconState (refreshScrollableDimensions f)) = x (iconState f)).
Proof.
  intros Hplain.
  assert (Hlast : left (iconInfo f (Z.of_nat (length (icons f)) - 1))
                  + width (iconInfo f (Z.of_nat (length (icons f)) - 1))
                  = Z.of_nat (length (icons f)) * singleWidth f).
  { destruct (Nat.eq_dec (length (icons f)) 0) as [E0|Hne].
    - rewrite iconInfo_out_of_range by lia.
      rewrite E0. reflexivity.
    - assert (Hn : exists id,
                 nth_error (icons f) (Nat.pred (length (icons f))) = Some id).
      { destruct (nth_error (icons f) (Nat.pred (length (icons f))))
          as [id|] eqn:E; [eauto|].
        apply nth_error_None in E. lia. }
      destruct Hn as [id Hn].
      replace (Z.of_nat (length (icons f)) - 1)
        with (Z.of_nat (Nat.pred (length (icons f)))) by lia.
      destruct (infosFrom_nth f _ _ _ _ _ (iconInfo_nth f _ id Hn))
        as (_ & _ & id' & Hn' & Hw & Hl).
      assert (id' = id) by congruence. subst id'.
      rewrite Hl, Hw.
      + rewrite iconWidthQ_plain, SafeRound_inject
          by (apply Hplain; eapply nth_error_In; eassumption).
        replace (Z.of_nat (Nat.pred (length (icons f))))
          with (Z.of_nat (length (icons f)) - 1) by lia.
        ring.
      + intros m idm _ Hm. apply Hplain. eapply nth_error_In; eassumption. }
  unfold refreshScrollableDimensions.
  cbn [withIconState withStates iconState max x].
  replace (left (iconInfo f (Z.of_nat (length (icons f)) - 1))
           + width (iconInfo f (Z.of_nat (length (icons f)) - 1))
           + iconsLeft f + iconsRight f - widgetWidth f)
    with (Z.of_nat (length (icons f)) * singleWidth f
          + iconsLeft f + iconsRight f - widgetWidth f) by lia.
  split; [reflexivity|]. split; [apply Z.le_max_r|].
  destruct (Qlt_le_dec _ _) as [Hlt|Hle].
  - split; [cbn [animValue a_cur]; apply Qle_refl|].
    intros Hle. exfalso. apply (Qlt_irrefl (a_cur (x (iconState f)))).
    eapply Qle_lt_trans; eassumption.
  - split; [exact Hle | reflexivity].
Qed.

Lemma refreshScrollableDimensions_keeps (f : Footer) :
  icons (refreshScrollableDimensions f) = icons f
  /\ subiconState (refreshScrollableDimensions f) = subiconState f
  /\ singleWidth (refreshScrollableDimensions f) = singleWidth f
  /\ subiconsWidth (refreshScrollableDimensions f) = subiconsWidth f
  /\ subiconsExpanded (refreshScrollableDimensions f) = subiconsExpanded f
  /\ pressed (refreshScrollableDimensions f) = pressed f
  /\ selected (iconState (refreshScrollableDimensions f)) = selected (iconState f)
  /\ animating (iconState (refreshScrollableDimensions f))
     = animating (iconState f)
  /\ animationStart (iconState (refreshScrollableDimensions f))
     = animationStart (iconState f).
Proof. repeat split. Qed.

Lemma animationCallback_keeps (now : Z) (s : ScrollState) :
  selected (snd (animationCallback env now s)) = selected s
  /\ max (snd (animationCallback env now s)) = max s
  /\ a_to (x (snd (animationCallback env now s))) = a_to (x s)
  /\ a_to (selectionX (snd (animationCallback env now s))) = a_to (selectionX s)
  /\ a_to (selectionWidth (snd (animationCallback env now s)))
     = a_to (selectionWidth s)
  /\ animating (snd (animationCallback env now s)) = animating s.
Proof.
  unfold animationCallback.
  destruct (animationStart s =? 0); [repeat split|].
  destruct (Qle_bool 1 _); repeat split.
Qed.

Lemma updateEmojiWidthCallback_keeps (now : Z) (f : Footer) :
  icons (updateEmojiWidthCallback env now f) = icons f
  /\ subiconState (updateEmojiWidthCallback env now f) = subiconState f
  /\ singleWidth (updateEmojiWidthCallback env now f) = singleWidth f
  /\ subiconsWidth (updateEmojiWidthCallback env now f) = subiconsWidth f
  /\ subiconsExpanded (updateEmojiWidthCallback env now f) = subiconsExpanded f
  /\ pressed (updateEmojiWidthCallback env now f) = pressed f
  /\ selected (iconState (updateEmojiWidthCallback env now f))
     = selected (iconState f)
  /\ max (iconState (updateEmojiWidthCallback env now f))
     = max (iconState (refreshScrollableDimensions f)).
Proof.
  unfold updateEmojiWidthCallback.
  cbn [withIconState withStates icons subiconState singleWidth subiconsWidth
       subiconsExpanded pressed iconState].
  split; [reflexivity|]. split; [reflexivity|]. split; [reflexivity|].
  split; [reflexivity|]. split; [reflexivity|]. split; [reflexivity|].
  match goal with
  | |- context [if animating ?s1 then snd (animationCallback env now ?s1) else ?s1] =>
      destruct (animationCallback_keeps now s1) as (Hs & Hm & _);
      destruct (animating s1)
  end.
  - rewrite Hs, Hm. split; reflexivity.
  - split; reflexivity.
Qed.

(** The strip's width is between four and a half and seven single widths,
    and below seven it is a whole number of single widths plus a half. *)
Lemma subiconsWidthFor_range (f : Footer) :
  0 < singleWidth f ->
  4 * singleWidth f + Z.quot (singleWidth f) 2 <= subiconsWidthFor f
  /\ subiconsWidthFor f <= 7 * singleWidth f
  /\ (subiconsWidthFor f = 7 * singleWidth f
      \/ exists k, 4 <= k <= 6
                   /\ subiconsWidthFor f
                      = k * singleWidth f + Z.quot (singleWidth f) 2).
Proof.
  intros Hs. unfold subiconsWidthFor.
  change (sectionIndex Symbols - sectionIndex Recent) with 7.
  set (sw := singleWidth f) in *.
  set (half := Z.quot sw 2).
  assert (Hhalf : 0 <= half /\ 2 * half <= sw).
  { subst half. rewrite Z.quot_div_nonneg by lia.
    pose proof (Z.div_mod sw 2). pose proof (Z.mod_pos_bound sw 2). lia. }
  set (w := clampZ (widgetWidth f + sw - toInt (Z.of_nat (length (icons f))) * sw)
                   (4 * sw + half) (7 * sw)).
  assert (Hw : 4 * sw + half <= w <= 7 * sw)
    by (subst w; apply clampZ_bounds; lia).
  destruct (w <? 7 * sw) eqn:E.
  - apply Z.ltb_lt in E.
    rewrite Z.quot_div_nonneg by lia.
    pose proof (Z.div_mod (w - half) sw ltac:(lia)) as Hdm.
    pose proof (Z.mod_pos_bound (w - half) sw Hs) as Hmod.
    set (q := (w - half) / sw) in *.
    assert (Hq : 4 <= q <= 6) by nia.
    split; [nia|]. split; [nia|].
    right. exists q. split; [exact Hq | lia].
  - apply Z.ltb_ge in E. split; [lia|]. split; [lia|]. left. lia.
Qed.

(** X6.  [refreshSubiconsGeometry] with a positive single width (and no
    bar selection): the expanded strip of sub-icons is between four and a
    half and seven icons wide, and when narrower than seven icons it shows a
    whole number of icons plus half an icon; the strip's scroll range is the
    rest of the seven icons; the strip's scroll animation is stopped and its
    position lies within the range from above. *)
Theorem refreshSubiconsGeometry_strip (now : Z) (f : Footer) :
  0 < singleWidth f ->
  4 * singleWidth f + Z.quot (singleWidth f) 2
  <= subiconsWidth (refreshSubiconsGeometry env false now f)
  /\ subiconsWidth (refreshSubiconsGeometry env false now f) <= 7 * singleWidth f
  /\ (subiconsWidth (refreshSubiconsGeometry env false now f) = 7 * singleWidth f
      \/ exists k,
           4 <= k <= 6
           /\ subiconsWidth (refreshSubiconsGeometry env false now f)
              = k * singleWidth f + Z.quot (singleWidth f) 2)
  /\ max (subiconState (refreshSubiconsGeometry env false now f))
     = 7 * singleWidth f
       - subiconsWidth (refreshSubiconsGeometry env false now f)
  /\ 0 <= max (subiconState (refreshSubiconsGeometry env false now f))
  /\ (a_cur (x (subiconState (refreshSubiconsGeometry env false now f)))
      <= inject_Z (max (subiconState (refreshSubiconsGeometry env false now f))))%Q
  /\ animating (subiconState (refreshSubiconsGeometry env false now f)) = false
  /\ animationStart (subiconState (refreshSubiconsGeometry env false now f)) = 0
  /\ singleWidth (refreshSubiconsGeometry env false now f) = singleWidth f.
Proof.
  intros Hs.
  destruct (subiconsWidthFor_range f Hs) as (Hlo & Hhi & Hk).
  unfold refreshSubiconsGeometry.
  match goal with
  | |- context [updateEmojiWidthCallback env now ?g] =>
      destruct (updateEmojiWidthCallback_keeps now g)
        as (_ & Hsub & Hsingle & Hwidth & _)
  end.
  rewrite Hsub, Hsingle, Hwidth.
  cbn [withSubiconState withStates withWidths subiconState subiconsWidth
       singleWidth withRange max animating animationStart settleSubiconAxis x].
  change (sectionIndex Symbols - sectionIndex Recent) with 7.
  split; [exact Hlo|]. split; [exact Hhi|]. split; [exact Hk|].
  split; [lia|]. split; [lia|].
  split; [|repeat split].
  destruct (Qlt_le_dec _ _) as [Hlt|Hle].
  - cbn [animValue a_cur]. apply Qle_refl.
  - exact Hle.
Qed.

(** X7.  [processHideFinished] ends every motion of the footer: nothing
    is pressed any more, each animated value of both axes sits at the target
    it was moving to, so an axis that was heading for a final offset has
    exactly that offset, and later animation callbacks and ticks find
    nothing to do and leave both axes as they are. *)
Theorem processHideFinished_settles (f : Footer) :
  pressed (processHideFinished f) = None
  /\ a_cur (x (iconState (processHideFinished f))) = a_to (x (iconState f))
  /\ a_cur (selectionX (iconState (processHideFinished f)))
     = a_to (selectionX (iconState f))
  /\ a_cur (selectionWidth (iconState (processHideFinished f)))
     = a_to (selectionWidth (iconState f))
  /\ a_cur (x (subiconState (processHideFinished f))) = a_to (x (subiconState f))
  /\ (forall M final,
        heading M final (iconState f) ->
        offset (iconState (processHideFinished f)) = final
        /\ max (iconState (processHideFinished f)) = M)
  /\ (forall M final,
        heading M final (subiconState f) ->
        offset (subiconState (processHideFinished f)) = final
        /\ max (subiconState (processHideFinished f)) = M)
  /\ (forall now,
        animationCallback env now (iconState (processHideFinished f))
        = (false, iconState (processHideFinished f))
        /\ animationCallback env now (subiconState (processHideFinished f))
           = (false, subiconState (processHideFinished f))
        /\ tick env now (iconState (processHideFinished f))
           = iconState (processHideFinished f)
        /\ tick env now (subiconState (processHideFinished f))
           = subiconState (processHideFinished f)).
Proof.
  split; [reflexivity|]. split; [reflexivity|]. split; [reflexivity|].
  split; [reflexivity|]. split; [reflexivity|].
  split; [|split].
  - intros M final (Hm & Hto & _). unfold offset.
    cbn [processHideFinished withMouse withStates iconState settleIconAxis
         x max a_finish a_cur].
    rewrite Hto, qRound_inject. split; [reflexivity | exact Hm].
  - intros M final (Hm & Hto & _). unfold offset.
    cbn [processHideFinished withMouse withStates subiconState settleSubiconAxis
         x max a_finish a_cur].
    rewrite Hto, qRound_inject. split; [reflexivity | exact Hm].
  - intros now. repeat split.
Qed.

Lemma firstIndexFrom_at (p : Z -> bool) (l : list Z) :
  forall i n a,
    nth_error l n = Some a -> p a = true ->
    (forall m b, (m < n)%nat -> nth_error l m = Some b -> p b = false) ->
    firstIndexFrom p l i = Some (i + Z.of_nat n).
Proof.
  induction l as [|c l IH]; intros i n a Hn Ha Hbefore.
  - destruct n; discriminate.
  - destruct n as [|n]; cbn [nth_error firstIndexFrom] in *.
    + injection Hn as ->. rewrite Ha. f_equal. lia.
    + rewrite (Hbefore 0%nat c) by (try lia; reflexivity).
      rewrite (IH (i + 1) n a Hn Ha).
      * f_equal. lia.
      * intros m b Hm. apply (Hbefore (S m)). lia.
Qed.

Lemma existsb_nth (p : Z -> bool) (l : list Z) (n : nat) (a : Z) :
  nth_error l n = Some a -> p a = true -> existsb p l = true.
Proof.
  intros Hn Ha. apply existsb_exists. exists a.
  split; [eapply nth_error_In; eassumption | exact Ha].
Qed.

(** X8.  A click and the selection it asks for agree.  The set id that
    [mouseReleaseEvent] fires for a click on sub-icon [k] (0 to 6) of the
    last "All Emoji" icon is the id of section People + [k]; when no icon
    carries that id itself, [validateSelectedIcon] with this id selects the
    clicked icon and sub-icon [k].  For a click on any other icon the fired
    id is the icon's own set id, and when no earlier icon answers that id,
    [validateSelectedIcon] selects the clicked icon. *)
Theorem click_selects_clicked_icon
    (now now' : Z) (animations : ValidateIconAnimations) (f : Footer) (n : nat)
    (Hconst : FavedSetId env <> AllEmojiSectionSetId) :
  (forall k,
     0 <= k <= 6 ->
     nth_error (icons f) n = Some AllEmojiSectionSetId ->
     (forall m b, (n < m)%nat -> nth_error (icons f) m = Some b ->
                  isAllEmoji b = false) ->
     exists s,
       sectionOfIndex (sectionIndex People + k) = Some s
       /\ chosenSetId f (Z.of_nat n) k = Some (EmojiSectionSetId s)
       /\ (existsb (answers env (EmojiSectionSetId s)) (icons f) = false ->
           selected (iconState (validateSelectedIcon env now now'
                                  (EmojiSectionSetId s) animations f))
           = Z.of_nat n
           /\ selected (subiconState (validateSelectedIcon env now now'
                                        (EmojiSectionSetId s) animations f))
              = k))
  /\ (forall k id,
        nth_error (icons f) n = Some id -> id <> AllEmojiSectionSetId ->
        chosenSetId f (Z.of_nat n) k = Some id
        /\ ((forall m b, (m < n)%nat -> nth_error (icons f) m = Some b ->
                         answers env id b = false) ->
            selected (iconState (validateSelectedIcon env now now' id
                                   animations f))
            = Z.of_nat n)).
Proof.
  assert (Hset : forall id, nth_error (icons f) n = Some id ->
                            iconSetId f (Z.of_nat n) = Some id).
  { intros id Hn. unfold iconSetId.
    destruct (Z.of_nat n <? 0) eqn:E; [apply Z.ltb_lt in E; lia|].
    rewrite Nat2Z.id. exact Hn. }
  split.
  - intros k Hk Hn Hlast.
    assert (Hs : exists s, sectionOfIndex (sectionIndex People + k) = Some s
                           /\ isEmojiSectionId (EmojiSectionSetId s) = true
                           /\ EmojiSectionSetId s - EmojiSectionSetId People = k
                           /\ 0 <= EmojiSectionSetId s < 2 ^ 64).
    { assert (Hcases : k = 0 \/ k = 1 \/ k = 2 \/ k = 3 \/ k = 4 \/ k = 5 \/ k = 6)
        by lia.
      destruct Hcases as [->|[->|[->|[->|[->|[->| ->]]]]]];
        [exists People | exists Nature | exists Food | exists Activity
         | exists Travel | exists Objects | exists Symbols];
        (split; [reflexivity|]); (split; [reflexivity|]);
        (split; [reflexivity|]); (split; [discriminate | reflexivity]). }
    destruct Hs as (s & Hsec & Hemoji & Hoff & Hrange).
    exists s. split; [exact Hsec|]. split.
    + unfold chosenSetId. rewrite (Hset _ Hn), Z.eqb_refl, Hsec. reflexivity.
    + intros Hnone.
      destruct (validateSelectedIcon_selected env now now' (EmojiSectionSetId s)
                  animations f) as (Hsel & Hsub & _).
      rewrite Hsel, Hsub. clear Hsel Hsub.
      unfold chosenIndices.
      pose proof (proj1 (existsb_false _ _) Hnone) as Hnone'.
      rewrite (scanIcons_none env (EmojiSectionSetId s) _ Hconst (icons f)
                 0 (-1) (-1) (-1))
        by (apply (proj2 (firstIndexFrom_none _ _ _)); exact Hnone').
      assert (Hall : existsb isAllEmoji (icons f) = true)
        by (apply (existsb_nth _ _ n _ Hn); apply Z.eqb_refl).
      rewrite Hemoji, Hall. cbn [andb fst snd].
      destruct (isEmojiSectionId_offset _ Hrange Hemoji) as [Hto _].
      rewrite Hto, Hoff.
      destruct (lastIndexZ_spec isAllEmoji (icons f) 0 (-1) Hall)
        as (n' & a & E & Hn' & Ha & Hafter).
      rewrite E.
      assert (n' = n).
      { destruct (Nat.lt_trichotomy n' n) as [Hlt|[Heq|Hgt]]; [|exact Heq|].
        - pose proof (Hafter n AllEmojiSectionSetId Hlt Hn) as Hf.
          unfold isAllEmoji in Hf. rewrite Z.eqb_refl in Hf. discriminate.
        - rewrite (Hlast n' a Hgt Hn') in Ha. discriminate. }
      subst n'. split.
      * destruct (0 <=? 0 + Z.of_nat n) eqn:E0; [lia | apply Z.leb_gt in E0; lia].
      * destruct (0 <=? k) eqn:E0; [reflexivity | apply Z.leb_gt in E0; lia].
  - intros k id Hn Hplain. split.
    + unfold chosenSetId. rewrite (Hset _ Hn).
      destruct (id =? AllEmojiSectionSetId) eqn:E; [|reflexivity].
      apply Z.eqb_eq in E. contradiction.
    + intros Hfirst.
      destruct (validateSelectedIcon_selected env now now' id animations f)
        as (Hsel & _).
      rewrite Hsel. unfold chosenIndices.
      assert (Hanswers : answers env id id = true)
        by (unfold answers; rewrite Z.eqb_refl; reflexivity).
      pose proof (firstIndexFrom_at (answers env id) (icons f) 0 n id
                    Hn Hanswers Hfirst) as Hk.
      pose proof (scanIcons_first env id (isEmojiSectionId id) (icons f)
                    0 (-1) (-1) (-1) _ Hk) as Hscan.
      destruct (scanIcons _ _ _ _ _ _ _ _) as [[fav ns] nss].
      cbn [fst snd] in *. subst ns.
      destruct (0 <=? 0 + Z.of_nat n) eqn:E0; [lia | apply Z.leb_gt in E0; lia].
Qed.

Lemma checkDragging_offset (down pos : Z) (s : ScrollState) :
  (dragging s = true ->
   offset (checkDragging env down pos s)
   = clampZ ((if rtl env then -1 else 1) * (down - pos) + draggingStartX s)
            0 (max s)
   /\ dragging (checkDragging env down pos s) = true
   /\ max (checkDragging env down pos s) = max s)
  /\ (dragging s = false -> checkDragging env down pos s = s).
Proof.
  unfold checkDragging. split; intros Hd; rewrite Hd; [|reflexivity].
  destruct (jump_unless_there s
              (clampZ ((if rtl env then -1 else 1) * (down - pos)
                       + draggingStartX s) 0 (max s))) as (Ho & Hm & Hdr & _).
  rewrite Ho, Hm, Hdr. auto.
Qed.

Lemma iconSetId_icons (g f : Footer) (idx : Z) :
  icons g = icons f -> iconSetId g idx = iconSetId f idx.
Proof. intros H. unfold iconSetId. now rewrite H. Qed.

(** The state [mouseMoveEvent] works on after a press over icon [idx]:
    which axis starts to drag. *)
Lemma mouseMoveEvent_after_press (pos pos' : Z * Z) (idx id : Z) (f : Footer) :
  iconSetId f idx = Some id ->
  dragging (iconState f) = false ->
  mouseMoveEvent env pos' (mousePressEvent pos (Some idx) f)
  = let f1 := withMouse (mousePressEvent pos (Some idx) f) pos pos' (Some idx) in
    let f2 :=
      if startDragDistance env
         <=? Z.abs (fst pos' - fst pos) + Z.abs (snd pos' - snd pos) then
        if id =? AllEmojiSectionSetId then
          withSubiconState f1 (setDragging (subiconState f1) true)
        else withIconState f1 (setDragging (iconState f1) true)
      else f1 in
    withStates f2
      (checkDragging env (fst pos) (fst pos') (iconState f2))
      (checkDragging env (fst pos) (fst pos') (subiconState f2)).
Proof.
  intros Hid Hd.
  assert (Hne : exists a l, icons f = a :: l).
  { unfold iconSetId in Hid. destruct (idx <? 0); [discriminate|].
    destruct (icons f) as [|a l]; [destruct (Z.to_nat idx); discriminate|eauto]. }
  destruct Hne as (a & l & Hl).
  unfold mouseMoveEvent.
  cbn [mousePressEvent withMouse withStates pressed icons iconsMouseDown
       iconState subiconState dragging fst snd].
  rewrite Hl, Hd. cbn [negb andb].
  rewrite (iconSetId_icons
             (withMouse (mousePressEvent pos (Some idx) f) pos pos' (Some idx))
             f idx eq_refl), Hid.
  destruct (startDragDistance env <=? _); [|reflexivity].
  destruct (id =? AllEmojiSectionSetId); reflexivity.
Qed.

(** X9.  Dragging moves the strip by the pointer's horizontal
    displacement.  After a press over an icon and a move that is at least
    the start-drag distance away (Manhattan length), the axis of the pressed
    icon is dragging (the sub-icon strip for the "All Emoji" icon, else the
    icon row) and its offset is the offset at the press plus the distance
    the pointer went left (right in a right-to-left layout), clamped to the
    scroll range; the other axis is not dragging and keeps its position.  A
    move shorter than the start-drag distance scrolls nothing. *)
Theorem drag_follows_pointer (pos pos' : Z * Z) (idx id : Z) (f : Footer) :
  iconSetId f idx = Some id ->
  dragging (iconState f) = false ->
  dragging (subiconState f) = false ->
  (startDragDistance env
   <= Z.abs (fst pos' - fst pos) + Z.abs (snd pos' - snd pos) ->
   (id <> AllEmojiSectionSetId ->
    dragging (iconState (mouseMoveEvent env pos'
                           (mousePressEvent pos (Some idx) f))) = true
    /\ offset (iconState (mouseMoveEvent env pos'
                            (mousePressEvent pos (Some idx) f)))
       = clampZ ((if rtl env then -1 else 1) * (fst pos - fst pos')
                 + offset (iconState f)) 0 (max (iconState f))
    /\ dragging (subiconState (mouseMoveEvent env pos'
                                 (mousePressEvent pos (Some idx) f))) = false
    /\ x (subiconState (mouseMoveEvent env pos'
                          (mousePressEvent pos (Some idx) f)))
       = x (subiconState f))
   /\ (id = AllEmojiSectionSetId ->
       dragging (subiconState (mouseMoveEvent env pos'
                                 (mousePressEvent pos (Some idx) f))) = true
       /\ offset (subiconState (mouseMoveEvent env pos'
                                  (mousePressEvent pos (Some idx) f)))
          = clampZ ((if rtl env then -1 else 1) * (fst pos - fst pos')
                    + offset (subiconState f)) 0 (max (subiconState f))
       /\ dragging (iconState (mouseMoveEvent env pos'
                                 (mousePressEvent pos (Some idx) f))) = false
       /\ x (iconState (mouseMoveEvent env pos'
                          (mousePressEvent pos (Some idx) f)))
          = x (iconState f)))
  /\ (Z.abs (fst pos' - fst pos) + Z.abs (snd pos' - snd pos)
      < startDragDistance env ->
      dragging (iconState (mouseMoveEvent env pos'
                             (mousePressEvent pos (Some idx) f))) = false
      /\ dragging (subiconState (mouseMoveEvent env pos'
                                   (mousePressEvent pos (Some idx) f))) = false
      /\ x (iconState (mouseMoveEvent env pos'
                         (mousePressEvent pos (Some idx) f)))
         = x (iconState f)
      /\ x (subiconState (mouseMoveEvent env pos'
                            (mousePressEvent pos (Some idx) f)))
         = x (subiconState f)).
Proof.
  intros Hid Hdi Hds.
  rewrite (mouseMoveEvent_after_press pos pos' idx id f Hid Hdi).
  cbv zeta.
  split.
  - intros Hfar.
    assert (E : (startDragDistance env
                 <=? Z.abs (fst pos' - fst pos) + Z.abs (snd pos' - snd pos)) = true)
      by (apply Z.leb_le; exact Hfar).
    rewrite E. split.
    + intros Hplain.
      assert (Ea : (id =? AllEmojiSectionSetId) = false)
        by (apply Z.eqb_neq; exact Hplain).
      rewrite Ea.
      cbn [withIconState withStates withMouse mousePressEvent iconState
           subiconState].
      match goal with
      | |- context [checkDragging env _ _ (setDragging ?s true)] =>
          destruct (proj1 (checkDragging_offset (fst pos) (fst pos')
                             (setDragging s true)) eq_refl) as (Ho & Hd & _)
      end.
      rewrite Ho, Hd.
      match goal with
      | |- context [checkDragging env ?a ?b ?s] =>
          rewrite (proj2 (checkDragging_offset a b s)) by exact Hds
      end.
      cbn [setDragging draggingStartX max dragging x].
      split; [reflexivity|]. split; [reflexivity|]. split; [exact Hds|reflexivity].
    + intros Hall.
      assert (Ea : (id =? AllEmojiSectionSetId) = true)
        by (apply Z.eqb_eq; exact Hall).
      rewrite Ea.
      cbn [withSubiconState withStates withMouse mousePressEvent iconState
           subiconState].
      match goal with
      | |- context [checkDragging env _ _ (setDragging ?s true)] =>
          destruct (proj1 (checkDragging_offset (fst pos) (fst pos')
                             (setDragging s true)) eq_refl) as (Ho & Hd & _)
      end.
      rewrite Ho, Hd.
      match goal with
      | |- context [iconState
                      {| icons := _; iconState := checkDragging env ?a ?b ?s;
                         subiconState := _ |}] => idtac
      | _ => idtac
      end.
      cbn [iconState].
      match goal with
      | |- context [dragging (checkDragging env ?a ?b ?s)] =>
          rewrite (proj2 (checkDragging_offset a b s)) by exact Hdi
      end.
      cbn [setDragging draggingStartX max dragging x].
      split; [reflexivity|]. split; [reflexivity|]. split; [exact Hdi|reflexivity].
  - intros Hnear.
    assert (E : (startDragDistance env
                 <=? Z.abs (fst pos' - fst pos) + Z.abs (snd pos' - snd pos)) = false)
      by (apply Z.leb_gt; exact Hnear).
    rewrite E.
    cbn [withStates withMouse mousePressEvent iconState subiconState].
    rewrite !(proj2 (checkDragging_offset _ _ _)) by assumption.
    cbn [dragging x]. auto.
Qed.

End FooterGeometryFacts.

Lemma enumerateVisibleIcons_visits_visible_witness :
  0 <= Footer.singleWidth footer_wide
  /\ Qle (inject_Z 0) (Footer.subiconsWidthValue footer_wide 40)
  /\ map Footer.index (Footer.visibleIconInfos footer_wide) = [1; 2; 3; 4; 5; 6].
Proof.
  assert (H1 : 0 <= Footer.singleWidth footer_wide) by discriminate.
  assert (H2 : Qle (inject_Z 0) (Footer.subiconsWidthValue footer_wide 40))
    by discriminate.
  split; [exact H1|]. split; [exact H2|].
  unfold Footer.visibleIconInfos.
  rewrite (enumerateVisibleIcons_visits_visible footer_wide
             (fun acc info => acc ++ [info]) [] H1 H2).
  reflexivity.
Defined.

Lemma refreshSubiconsGeometry_strip_witness :
  0 < Footer.singleWidth footer_wide
  /\ Footer.subiconsWidth
       (Footer.refreshSubiconsGeometry (env_example false) false 1000 footer_wide)
     = 4 * 40 + 20
  /\ Footer.max
       (Footer.subiconState
          (Footer.refreshSubiconsGeometry (env_example false) false 1000
             footer_wide))
     = 100.
Proof.
  assert (H : 0 < Footer.singleWidth footer_wide) by reflexivity.
  split; [exact H|].
  destruct (refreshSubiconsGeometry_strip (env_example false) 1000 footer_wide H)
    as (_ & _ & _ & Hmax & _).
  split; [reflexivity|].
  rewrite Hmax. reflexivity.
Defined.

Lemma click_selects_clicked_icon_witness :
  Footer.FavedSetId (env_example false) <> Footer.AllEmojiSectionSetId
  /\ Footer.selected
       (Footer.iconState
          (Footer.validateSelectedIcon (env_example false) 1000 1000
             (Footer.EmojiSectionSetId Footer.Activity) Footer.AnimNone
             footer_emoji)) = 1
  /\ Footer.selected
       (Footer.subiconState
          (Footer.validateSelectedIcon (env_example false) 1000 1000
             (Footer.EmojiSectionSetId Footer.Activity) Footer.AnimNone
             footer_emoji)) = 3.
Proof.
  assert (H : Footer.FavedSetId (env_example false) <> Footer.AllEmojiSectionSetId)
    by discriminate.
  split; [exact H|].
  destruct (click_selects_clicked_icon (env_example false) 1000 1000
              Footer.AnimNone footer_emoji 1%nat H) as [Hsub _].
  assert (Hlast : forall m b, (1 < m)%nat ->
                              nth_error (Footer.icons footer_emoji) m = Some b ->
                              isAllEmoji b = false).
  { intros [|[|[|m]]] b Hm Hb; try lia.
    - injection Hb as <-. reflexivity.
    - destruct m; discriminate. }
  destruct (Hsub 3 ltac:(lia) eq_refl Hlast) as (s & Hsec & _ & Hsel).
  injection Hsec as <-.
  apply Hsel. reflexivity.
Defined.

Lemma drag_follows_pointer_witness :
  Footer.iconSetId footer_wide 2 = Some 44
  /\ Footer.dragging (Footer.iconState footer_wide) = false
  /\ Footer.dragging (Footer.subiconState footer_wide) = false
  /\ Footer.offset
       (Footer.iconState
          (Footer.mouseMoveEvent (env_example false) (70, 10)
             (Footer.mousePressEvent (100, 10) (Some 2) footer_wide)))
     = 80.
Proof.
  assert (H1 : Footer.iconSetId footer_wide 2 = Some 44) by reflexivity.
  assert (H2 : Footer.dragging (Footer.iconState footer_wide) = false)
    by reflexivity.
  assert (H3 : Footer.dragging (Footer.subiconState footer_wide) = false)
    by reflexivity.
  split; [exact H1|]. split; [exact H2|]. split; [exact H3|].
  destruct (drag_follows_pointer (env_example false) (100, 10) (70, 10) 2 44
              footer_wide H1 H2 H3) as [Hfar _].
  destruct (Hfar ltac:(vm_compute; discriminate)) as [Hplain _].
  destruct (Hplain ltac:(discriminate)) as (_ & Ho & _).
  rewrite Ho. reflexivity.
Defined.

(** ** Footer: the end of a drag *)

Section FooterDragFacts.

Import Footer.

Variable env : Env.

Lemma finishDragging1_state (down pos : Z) (s : ScrollState) :
  dragging (snd (finishDragging1 down pos s)) = false
  /\ offset (snd (finishDragging1 down pos s))
     = (if dragging s then clampZ (draggingStartX s + down - pos) 0 (max s)
        else offset s)
  /\ max (snd (finishDragging1 down pos s)) = max s
  /\ fst (finishDragging1 down pos s) = dragging s.
Proof.
  unfold finishDragging1. destruct (dragging s) eqn:Ed; cbn [negb fst snd].
  - destruct (jump_unless_there s
                (clampZ (draggingStartX s + down - pos) 0 (max s)))
      as (Ho & Hm & _ & _).
    match goal with
    | |- context [setDragging ?s1 false] =>
        destruct (setDragging_view s1 false) as (Vo & Vm & Vd & _)
    end.
    rewrite Vo, Vm, Vd, Ho, Hm. auto.
  - auto.
Qed.

(** What a release leaves behind, whatever it was released over. *)
Lemma mouseReleaseEvent_state (pos : Z * Z) (over : option Z) (f : Footer) :
  icons f <> [] ->
  pressed (mouseReleaseEvent pos over f) = None
  /\ icons (mouseReleaseEvent pos over f) = icons f
  /\ dragging (iconState (mouseReleaseEvent pos over f)) = false
  /\ dragging (subiconState (mouseReleaseEvent pos over f)) = false
  /\ offset (iconState (mouseReleaseEvent pos over f))
     = (if dragging (iconState f)
        then clampZ (draggingStartX (iconState f) + fst (iconsMouseDown f)
                     - fst pos) 0 (max (iconState f))
        else offset (iconState f))
  /\ offset (subiconState (mouseReleaseEvent pos over f))
     = (if dragging (subiconState f)
        then clampZ (draggingStartX (subiconState f) + fst (iconsMouseDown f)
                     - fst pos) 0 (max (subiconState f))
        else offset (subiconState f)).
Proof.
  intros Hne. unfold mouseReleaseEvent.
  destruct (icons f) as [|a l] eqn:El; [contradiction|].
  unfold finishDragging.
  cbn [withMouse iconsMouseDown iconsMousePos iconState subiconState fst].
  destruct (finishDragging1_state (fst (iconsMouseDown f)) (fst pos) (iconState f))
    as (Hdi & Hoi & _ & Hfi).
  destruct (finishDragging1_state (fst (iconsMouseDown f)) (fst pos)
              (subiconState f)) as (Hds & Hos & _ & Hfs).
  destruct (finishDragging1 _ _ (iconState f)) as [icon i'].
  destruct (finishDragging1 _ _ (subiconState f)) as [subicon s'].
  cbn [fst snd] in *.
  destruct (icon || subicon) eqn:Edrag.
  - cbn [withStates withMouse pressed icons iconState subiconState].
    repeat split; assumption.
  - apply orb_false_elim in Edrag. destruct Edrag as [-> ->].
    rewrite <- Hfi in Hoi. rewrite <- Hfs in Hos.
    destruct (pressed f) as [p|]; destruct over as [b|];
      try (cbn [withStates withMouse pressed icons iconState subiconState];
           rewrite <- Hfi, <- Hfs; repeat split; assumption).
    destruct (p =? b);
      cbn [withIconState withStates withMouse withSelection pressed icons
           iconState subiconState dragging];
      rewrite <- Hfi, <- Hfs; repeat split; assumption.
Qed.

Lemma setDragging_same (s : ScrollState) :
  dragging s = true -> setDragging s true = s.
Proof. destruct s. cbn. intros ->. reflexivity. Qed.

(** What a mouse move does to an axis that is already dragging, whichever
    icon is pressed: it follows the pointer. *)
Lemma mouseMoveEvent_dragging (pos : Z * Z) (f : Footer) :
  icons (mouseMoveEvent env pos f) = icons f
  /\ iconsMouseDown (mouseMoveEvent env pos f) = iconsMouseDown f
  /\ (dragging (iconState f) = true ->
      iconState (mouseMoveEvent env pos f)
      = checkDragging env (fst (iconsMouseDown f)) (fst pos) (iconState f))
  /\ (dragging (subiconState f) = true ->
      subiconState (mouseMoveEvent env pos f)
      = checkDragging env (fst (iconsMouseDown f)) (fst pos) (subiconState f)).
Proof.
  unfold mouseMoveEvent.
  cbn [withMouse pressed icons iconState subiconState iconsMouseDown].
  split; [|split; [|split]].
  - repeat match goal with
           | |- context [match ?c with _ => _ end] => destruct c eqn:?
           end;
      cbn [withStates withMouse withSubiconState withIconState icons];
      congruence.
  - repeat match goal with
           | |- context [match ?c with _ => _ end] => destruct c eqn:?
           end; reflexivity.
  - intros Hd. rewrite Hd. cbn [negb andb].
    destruct (pressed f); [destruct (icons f)|]; reflexivity.
  - intros Hd.
    destruct (pressed f) as [idx|]; [|reflexivity].
    destruct (icons f) as [|a l] eqn:El; [reflexivity|].
    destruct (negb (dragging (iconState f)) && _); [|reflexivity].
    destruct (iconSetId _ idx) as [id|]; [|reflexivity].
    destruct (id =? AllEmojiSectionSetId); [|reflexivity].
    cbn [withSubiconState withStates withMouse iconState subiconState
         iconsMouseDown].
    rewrite (setDragging_same _ Hd). reflexivity.
Qed.

(** X10.  A release ends the scrolling by the pointer.  After
    [mouseReleaseEvent] on a footer with icons nothing is pressed and
    neither axis is dragging, so later mouse moves leave both axes exactly
    as they are.  In a left-to-right layout a release at the point of the
    last move keeps the offset the drag had reached, on the icon row and on
    the strip of sub-icons alike. *)
Theorem release_ends_drag (pos : Z * Z) (over : option Z) (f : Footer) :
  icons f <> [] ->
  pressed (mouseReleaseEvent pos over f) = None
  /\ dragging (iconState (mouseReleaseEvent pos over f)) = false
  /\ dragging (subiconState (mouseReleaseEvent pos over f)) = false
  /\ (forall pos',
        iconState (mouseMoveEvent env pos' (mouseReleaseEvent pos over f))
        = iconState (mouseReleaseEvent pos over f)
        /\ subiconState (mouseMoveEvent env pos' (mouseReleaseEvent pos over f))
           = subiconState (mouseReleaseEvent pos over f))
  /\ (rtl env = false ->
      (dragging (iconState f) = true ->
       offset (iconState (mouseReleaseEvent pos over
                            (mouseMoveEvent env pos f)))
       = offset (iconState (mouseMoveEvent env pos f)))
      /\ (dragging (subiconState f) = true ->
          offset (subiconState (mouseReleaseEvent pos over
                                  (mouseMoveEvent env pos f)))
          = offset (subiconState (mouseMoveEvent env pos f)))).
Proof.
  intros Hne.
  destruct (mouseReleaseEvent_state pos over f Hne)
    as (Hp & Hl & Hdi & Hds & _ & _).
  split; [exact Hp|]. split; [exact Hdi|]. split; [exact Hds|].
  split.
  - intros pos'. unfold mouseMoveEvent.
    cbn [withMouse pressed icons iconState subiconState iconsMouseDown].
    rewrite Hp.
    cbn [withStates withMouse iconState subiconState iconsMouseDown].
    rewrite !(proj2 (checkDragging_offset env _ _ _)) by assumption.
    split; reflexivity.
  - intros Hrtl.
    destruct (mouseMoveEvent_dragging pos f) as (Hicons & Hdown & Hmi & Hms).
    assert (Hne' : icons (mouseMoveEvent env pos f) <> [])
      by (rewrite Hicons; exact Hne).
    destruct (mouseReleaseEvent_state pos over _ Hne')
      as (_ & _ & _ & _ & Hoi & Hos).
    split.
    + intros Hd. rewrite Hoi, Hdown, (Hmi Hd).
      destruct (proj1 (checkDragging_offset env (fst (iconsMouseDown f)) (fst pos)
                         (iconState f)) Hd) as (Ho & Hdr & Hm).
      rewrite Hdr, Ho, Hm, Hrtl.
      unfold checkDragging. rewrite Hd.
      destruct (negb _); cbn [jumpTo draggingStartX]; f_equal; lia.
    + intros Hd. rewrite Hos, Hdown, (Hms Hd).
      destruct (proj1 (checkDragging_offset env (fst (iconsMouseDown f)) (fst pos)
                         (subiconState f)) Hd) as (Ho & Hdr & Hm).
      rewrite Hdr, Ho, Hm, Hrtl.
      unfold checkDragging. rewrite Hd.
      destruct (negb _); cbn [jumpTo draggingStartX]; f_equal; lia.
Qed.

End FooterDragFacts.

Lemma release_ends_drag_witness :
  Footer.icons footer_dragging <> []
  /\ Footer.icons footer_subdragging <> []
  /\ Footer.rtl (env_example false) = false
  /\ Footer.dragging (Footer.iconState footer_dragging) = true
  /\ Footer.dragging (Footer.subiconState footer_subdragging) = true
  /\ Footer.dragging (Footer.iconState footer_subdragging) = false
  /\ Footer.offset
       (Footer.iconState
          (Footer.mouseReleaseEvent (60, 10) None
             (Footer.mouseMoveEvent (env_example false) (60, 10)
                footer_dragging)))
     = 90
  /\ Footer.offset
       (Footer.subiconState
          (Footer.mouseReleaseEvent (60, 10) None
             (Footer.mouseMoveEvent (env_example false) (60, 10)
                footer_subdragging)))
     = 40.
Proof.
  assert (H1 : Footer.icons footer_dragging <> []) by discriminate.
  assert (H2 : Footer.icons footer_subdragging <> []) by discriminate.
  split; [exact H1|]. split; [exact H2|].
  split; [reflexivity|]. split; [reflexivity|].
  split; [reflexivity|]. split; [reflexivity|].
  destruct (release_ends_drag (env_example false) (60, 10) None
              footer_dragging H1) as (_ & _ & _ & _ & Hltr).
  destruct (Hltr eq_refl) as [Hicon _].
  destruct (release_ends_drag (env_example false) (60, 10) None
              footer_subdragging H2) as (_ & _ & _ & _ & Hltr').
  destruct (Hltr' eq_refl) as [_ Hsub].
  split; [rewrite (Hicon eq_refl); reflexivity|].
  rewrite (Hsub eq_refl). reflexivity.
Defined.

(** ** Footer: the selection stays within the list *)

Section FooterSelectionRange.

Import Footer.

Variable env : Env.

(** The indices the scan answers are the ones it started with or indices
    of icons it walked over. *)
Lemma scanIcons_range (setId : Z) (isEmoji : bool) (rest : list Z) :
  forall i faved sel sub,
    (fst (fst (scanIcons env setId isEmoji rest i faved sel sub)) = faved
     \/ i <= fst (fst (scanIcons env setId isEmoji rest i faved sel sub))
        < i + Z.of_nat (length rest))
    /\ (snd (fst (scanIcons env setId isEmoji rest i faved sel sub)) = sel
        \/ i <= snd (fst (scanIcons env setId isEmoji rest i faved sel sub))
           < i + Z.of_nat (length rest))
    /\ (snd (scanIcons env setId isEmoji rest i faved sel sub) = sub
        \/ isEmoji = true
           /\ snd (scanIcons env setId isEmoji rest i faved sel sub)
              = toInt (u64 (setId - EmojiSectionSetId People))).
Proof.
  induction rest as [|id rest IH]; intros i faved sel sub.
  - cbn. auto.
  - cbn [scanIcons length].
    destruct ((id =? setId) || ((id =? FavedSetId env) && (setId =? RecentSetId env))).
    + cbn [fst snd]. split; [auto|]. split; [right; lia | auto].
    + destruct (id =? FavedSetId env).
      * destruct (IH (i + 1) i sel sub) as (Hf & Hs & Hb).
        split; [right; lia|]. split; [|exact Hb].
        destruct Hs; [auto | right; lia].
      * destruct isEmoji; cbn [andb].
        -- destruct (id =? AllEmojiSectionSetId).
           ++ destruct (IH (i + 1) faved i
                          (toInt (u64 (setId - EmojiSectionSetId People))))
                as (Hf & Hs & Hb).
              split; [destruct Hf; [auto | right; lia]|].
              split; [right; lia|].
              right. split; [reflexivity|]. destruct Hb as [Hb|[_ Hb]]; exact Hb.
           ++ destruct (IH (i + 1) faved sel sub) as (Hf & Hs & Hb).
              split; [destruct Hf; [auto | right; lia]|].
              split; [destruct Hs; [auto | right; lia] | exact Hb].
        -- destruct (IH (i + 1) faved sel sub) as (Hf & Hs & Hb).
           split; [destruct Hf; [auto | right; lia]|].
           split; [destruct Hs; [auto | right; lia] | exact Hb].
Qed.

Lemma chosenIndices_range (f : Footer) (setId : Z) :
  0 <= setId < 2 ^ 64 ->
  (icons f <> [] ->
   0 <= fst (chosenIndices env f setId) < Z.of_nat (length (icons f)))
  /\ 0 <= snd (chosenIndices env f setId) <= 6.
Proof.
  intros Hid. unfold chosenIndices.
  destruct (scanIcons_range setId (isEmojiSectionId setId) (icons f) 0 (-1) (-1) (-1))
    as (Hf & Hs & Hb).
  destruct (scanIcons _ _ _ _ _ _ _ _) as [[fav sel] sub].
  cbn [fst snd] in *.
  split.
  - intros Hne.
    assert (Hlen : 0 < Z.of_nat (length (icons f)))
      by (destruct (icons f); [contradiction | cbn [length]; lia]).
    destruct (0 <=? sel) eqn:Es.
    + apply Z.leb_le in Es. lia.
    + destruct (0 <=? fav) eqn:Ef; [apply Z.leb_le in Ef|]; lia.
  - destruct (0 <=? sub) eqn:Eb; [|lia].
    apply Z.leb_le in Eb.
    destruct Hb as [->|[Hemoji ->]]; [lia|].
    destruct (isEmojiSectionId_offset setId Hid Hemoji) as [-> ?]. lia.
Qed.

(** X11.  The selection [validateSelectedIcon] leaves is always usable:
    on a footer with icons the selected icon index names an icon of the
    list, and the selected sub-icon index is one of the seven sections
    (0 to 6), whatever 64-bit set id was asked for. *)
Theorem validateSelectedIcon_selects_existing
    (now now' setId : Z) (animations : ValidateIconAnimations) (f : Footer) :
  0 <= setId < 2 ^ 64 ->
  (icons f <> [] ->
   0 <= selected (iconState (validateSelectedIcon env now now' setId animations f))
   < Z.of_nat (length (icons (validateSelectedIcon env now now' setId
                                animations f))))
  /\ 0 <= selected (subiconState (validateSelectedIcon env now now' setId
                                     animations f)) <= 6.
Proof.
  intros Hid.
  destruct (validateSelectedIcon_selected env now now' setId animations f)
    as (Hsel & Hsub & Hl).
  rewrite Hsel, Hsub, Hl. apply chosenIndices_range. exact Hid.
Qed.

End FooterSelectionRange.

Lemma validateSelectedIcon_selects_existing_witness :
  0 <= 12345 < 2 ^ 64
  /\ Footer.icons footer_emoji <> []
  /\ 0 <= Footer.selected
            (Footer.iconState
               (Footer.validateSelectedIcon (env_example false) 1000 1000 12345
                  Footer.AnimFull footer_emoji))
     < 3.
Proof.
  assert (H : 0 <= 12345 < 2 ^ 64) by (split; [discriminate | reflexivity]).
  assert (Hne : Footer.icons footer_emoji <> []) by discriminate.
  split; [exact H|]. split; [exact Hne|].
  destruct (validateSelectedIcon_selects_existing (env_example false) 1000 1000
              12345 Footer.AnimFull footer_emoji H) as [Hsel _].
  exact (Hsel Hne).
Defined.

(** ** Footer: when the strip of sub-icons is expanded *)

Section FooterExpandedFacts.

Import Footer.

Variable env : Env.

Lemma selectsAllEmoji_icons (g f : Footer) (n : Z) :
  icons g = icons f -> selectsAllEmoji g n = selectsAllEmoji f n.
Proof.
  intros H. unfold selectsAllEmoji. rewrite (iconSetId_icons g f n H), H.
  reflexivity.
Qed.

Lemma updateEmojiSectionWidth_expanded (f : Footer) :
  subiconsExpanded (updateEmojiSectionWidth f)
  = selectsAllEmoji f (selected (iconState f)).
Proof.
  unfold updateEmojiSectionWidth, selectsAllEmoji.
  destruct (Bool.eqb (subiconsExpanded f) _) eqn:E; [|reflexivity].
  apply eqb_prop in E. exact E.
Qed.

(** A selection that changes the selected icon leaves the strip expanded
    exactly when the new icon is the "All Emoji" one; one that does not
    change it leaves the flag alone. *)
Lemma setSelectedIcon_expanded (now n : Z) (animations : ValidateIconAnimations)
    (f : Footer) :
  subiconsExpanded (setSelectedIcon now n animations f)
  = if selected (iconState f) =? n then subiconsExpanded f
    else selectsAllEmoji f n.
Proof.
  unfold setSelectedIcon.
  destruct (selected (iconState f) =? n); [reflexivity|].
  cbn [withIconState withStates subiconsExpanded].
  rewrite updateEmojiSectionWidth_expanded.
  cbn [withIconState withStates iconState setSelected selected].
  apply selectsAllEmoji_icons. reflexivity.
Qed.

Lemma setSelectedSubicon_expanded (now n : Z) (animations : ValidateIconAnimations)
    (f : Footer) :
  subiconsExpanded (setSelectedSubicon now n animations f) = subiconsExpanded f.
Proof.
  unfold setSelectedSubicon.
  destruct (selected (subiconState f) =? n); reflexivity.
Qed.

Lemma validateSelectedIcon_expanded (now now' setId : Z)
    (animations : ValidateIconAnimations) (f : Footer) :
  subiconsExpanded (validateSelectedIcon env now now' setId animations f)
  = if selected (iconState f) =? fst (chosenIndices env f setId)
    then subiconsExpanded f
    else selectsAllEmoji f (fst (chosenIndices env f setId)).
Proof.
  unfold validateSelectedIcon.
  match goal with
  | |- context [chosenIndices env ?f0 setId] =>
      change (chosenIndices env f0 setId) with (chosenIndices env f setId)
  end.
  destruct (chosenIndices env f setId) as [sel sub]. cbn [fst snd].
  rewrite setSelectedSubicon_expanded, setSelectedIcon_expanded.
  cbn [iconState subiconsExpanded].
  destruct (selected (iconState f) =? sel); [reflexivity|].
  apply selectsAllEmoji_icons. reflexivity.
Qed.

(** X12.  The strip of sub-icons is expanded exactly when the selected
    icon is the "All Emoji" one: [validateSelectedIcon] keeps this true, and
    [refreshIconsGeometry] makes it true whatever state it starts from.
    After [refreshIconsGeometry] nothing is pressed, and the icon list is
    the one it was given. *)
Theorem subicons_expanded_iff_all_emoji_selected
    (now now' setId : Z) (animations : ValidateIconAnimations) (f : Footer) :
  (subiconsExpanded f = selectsAllEmoji f (selected (iconState f)) ->
   subiconsExpanded (validateSelectedIcon env now now' setId animations f)
   = selectsAllEmoji (validateSelectedIcon env now now' setId animations f)
       (selected (iconState
                    (validateSelectedIcon env now now' setId animations f))))
  /\ (forall barSelection stickerIconWidth iconWidth now0,
        subiconsExpanded
          (refreshIconsGeometry env barSelection stickerIconWidth iconWidth
             now0 now now' setId animations f)
        = selectsAllEmoji
            (refreshIconsGeometry env barSelection stickerIconWidth iconWidth
               now0 now now' setId animations f)
            (selected
               (iconState
                  (refreshIconsGeometry env barSelection stickerIconWidth
                     iconWidth now0 now now' setId animations f)))
        /\ pressed (refreshIconsGeometry env barSelection stickerIconWidth
                      iconWidth now0 now now' setId animations f) = None
        /\ icons (refreshIconsGeometry env barSelection stickerIconWidth
                    iconWidth now0 now now' setId animations f) = icons f).
Proof.
  split.
  - intros Hinv.
    destruct (validateSelectedIcon_selected env now now' setId animations f)
      as (Hsel & _ & Hl).
    rewrite validateSelectedIcon_expanded, Hsel.
    rewrite (selectsAllEmoji_icons _ f _ Hl).
    destruct (selected (iconState f) =? fst (chosenIndices env f setId)) eqn:E;
      [|reflexivity].
    apply Z.eqb_eq in E. rewrite <- E. exact Hinv.
  - intros barSelection stickerIconWidth iconWidth now0.
    unfold refreshIconsGeometry.
    match goal with
    | |- context [validateSelectedIcon env now now' setId animations ?g] =>
        set (f5 := g)
    end.
    assert (Hsel5 : selected (iconState f5) = -1) by reflexivity.
    assert (Hicons5 : icons f5 = icons f).
    { subst f5. cbn [withStates icons]. unfold refreshSubiconsGeometry.
      destruct barSelection.
      - reflexivity.
      - match goal with
        | |- icons (updateEmojiWidthCallback env now0 ?g) = _ =>
            rewrite (proj1 (updateEmojiWidthCallback_keeps env now0 g))
        end.
        reflexivity. }
    assert (Hpressed5 : pressed f5 = None).
    { subst f5. cbn [withStates pressed]. unfold refreshSubiconsGeometry.
      destruct barSelection.
      - reflexivity.
      - match goal with
        | |- pressed (updateEmojiWidthCallback env now0 ?g) = _ =>
            destruct (updateEmojiWidthCallback_keeps env now0 g)
              as (_ & _ & _ & _ & _ & Hp & _); rewrite Hp
        end.
        reflexivity. }
    destruct (validateSelectedIcon_selected env now now' setId animations f5)
      as (Hsel & _ & Hl).
    rewrite validateSelectedIcon_expanded, Hsel, Hl, Hicons5.
    rewrite (selectsAllEmoji_icons _ f5 _ Hl).
    split; [|split; [|reflexivity]].
    + rewrite Hsel5.
      assert (Hge : 0 <= fst (chosenIndices env f5 setId)).
      { unfold chosenIndices.
        destruct (scanIcons _ _ _ _ _ _ _ _) as [[fav sel] sub]. cbn [fst].
        destruct (0 <=? sel) eqn:Es; [apply Z.leb_le in Es; lia|].
        destruct (0 <=? fav) eqn:Ef; [apply Z.leb_le in Ef|]; lia. }
      destruct (-1 =? fst (chosenIndices env f5 setId)) eqn:E;
        [apply Z.eqb_eq in E; lia | reflexivity].
    + unfold validateSelectedIcon.
      match goal with
      | |- context [chosenIndices env ?f0 setId] =>
          destruct (chosenIndices env f0 setId) as [sel sub]
      end.
      unfold setSelectedSubicon, setSelectedIcon.
      cbn [iconState subiconState selected].
      destruct (selected (iconState f5) =? sel);
        [|cbn [withIconState withStates subiconState]];
        match goal with
        | |- context [selected ?s =? sub] => destruct (selected s =? sub)
        end;
        cbn [withSubiconState withIconState withStates pressed];
        try exact Hpressed5;
        unfold updateEmojiSectionWidth;
        match goal with
        | |- context [Bool.eqb ?a ?b] => destruct (Bool.eqb a b)
        end; exact Hpressed5.
Qed.

End FooterExpandedFacts.

(** ** Footer: the selection frame while the strip's width changes *)

Section FooterFrameFacts.

Import Footer.

Variable env : Env.

Lemma iconWidthQ_same (g f : Footer) (id : Z) :
  singleWidth g = singleWidth f -> subiconsWidth g = subiconsWidth f ->
  subiconsExpanded g = subiconsExpanded f ->
  subiconsWidthAnimation g = subiconsWidthAnimation f ->
  iconWidthQ g id = iconWidthQ f id.
Proof.
  intros H1 H2 H3 H4. unfold iconWidthQ, subiconsWidthValue.
  now rewrite H1, H2, H3, H4.
Qed.

(** The index, left edge and width that [iconInfo] answers depend on the
    icons and their widths only, not on the scroll state. *)
Lemma iconInfo_same_widths (g f : Footer) (idx : Z) :
  icons g = icons f ->
  singleWidth g = singleWidth f -> subiconsWidth g = subiconsWidth f ->
  subiconsExpanded g = subiconsExpanded f ->
  subiconsWidthAnimation g = subiconsWidthAnimation f ->
  index (iconInfo g idx) = index (iconInfo f idx)
  /\ left (iconInfo g idx) = left (iconInfo f idx)
  /\ width (iconInfo g idx) = width (iconInfo f idx).
Proof.
  intros Hl H1 H2 H3 H4.
  unfold iconInfo, enumerateIcons. rewrite !enumerateIconsFrom_fold, Hl.
  assert (Hgen : forall rest i left_ accg accf,
             index accg = index accf /\ left accg = left accf
             /\ width accg = width accf ->
             index (foldUntil (findInfo idx) (infosFrom g rest i left_) accg)
             = index (foldUntil (findInfo idx) (infosFrom f rest i left_) accf)
             /\ left (foldUntil (findInfo idx) (infosFrom g rest i left_) accg)
                = left (foldUntil (findInfo idx) (infosFrom f rest i left_) accf)
             /\ width (foldUntil (findInfo idx) (infosFrom g rest i left_) accg)
                = width (foldUntil (findInfo idx) (infosFrom f rest i left_) accf)).
  { induction rest as [|id rest IH]; intros i left_ accg accf Hacc.
    - exact Hacc.
    - cbn [infosFrom foldUntil].
      rewrite (iconWidthQ_same g f id H1 H2 H3 H4).
      match goal with
      | |- context [findInfo idx accg ?ig] =>
          change (findInfo idx accg ig)
            with (if i =? idx then (false, ig) else (true, accg))
      end.
      match goal with
      | |- context [findInfo idx accf ?jf] =>
          change (findInfo idx accf jf)
            with (if i =? idx then (false, jf) else (true, accf))
      end.
      destruct (i =? idx).
      + cbn [index left width]. auto.
      + apply IH. exact Hacc. }
  apply Hgen. auto.
Qed.

Lemma UpdateAnimated2_target (v : AnimValue) (to : Z) :
  SafeRound (a_to (UpdateAnimated2 v to)) = to.
Proof.
  unfold UpdateAnimated2.
  destruct (SafeRound (a_to v) =? to) eqn:E.
  - apply Z.eqb_eq in E. exact E.
  - cbn [a_to]. apply SafeRound_inject.
Qed.

(** X13.  After [updateEmojiWidthCallback] the selection frame is heading
    for the selected icon: the targets of its position and width, rounded,
    are the left edge and the width [iconInfo] answers for the selected
    icon; the scroll range has been refreshed and is not negative, and the
    selected icon, the icons and the sub-icon axis are untouched. *)
Theorem updateEmojiWidthCallback_frame_follows_icon (now : Z) (f : Footer) :
  SafeRound (a_to (selectionX (iconState (updateEmojiWidthCallback env now f))))
  = left (iconInfo (updateEmojiWidthCallback env now f)
            (selected (iconState (updateEmojiWidthCallback env now f))))
  /\ SafeRound (a_to (selectionWidth
                        (iconState (updateEmojiWidthCallback env now f))))
     = width (iconInfo (updateEmojiWidthCallback env now f)
                (selected (iconState (updateEmojiWidthCallback env now f))))
  /\ 0 <= max (iconState (updateEmojiWidthCallback env now f))
  /\ selected (iconState (updateEmojiWidthCallback env now f))
     = selected (iconState f)
  /\ icons (updateEmojiWidthCallback env now f) = icons f
  /\ subiconState (updateEmojiWidthCallback env now f) = subiconState f.
Proof.
  destruct (updateEmojiWidthCallback_keeps env now f)
    as (Hl & Hsub & Hsw & Hww & Hex & _ & Hsel & Hmax).
  assert (Hanim : subiconsWidthAnimation (updateEmojiWidthCallback env now f)
                  = subiconsWidthAnimation f) by reflexivity.
  destruct (iconInfo_same_widths (updateEmojiWidthCallback env now f) f
              (selected (iconState f)) Hl Hsw Hww Hex Hanim) as (_ & Hleft & Hwidth).
  rewrite Hsel, Hleft, Hwidth, Hmax.
  assert (Hto : forall s1 : ScrollState,
             a_to (selectionX (if animating s1
                               then snd (animationCallback env now s1) else s1))
             = a_to (selectionX s1)
             /\ a_to (selectionWidth (if animating s1
                                      then snd (animationCallback env now s1)
                                      else s1))
                = a_to (selectionWidth s1)).
  { intros s1. destruct (animating s1); [|auto].
    destruct (animationCallback_keeps env now s1) as (_ & _ & _ & Hx & Hw & _).
    auto. }
  unfold updateEmojiWidthCallback.
  cbn [withIconState withStates iconState].
  match goal with
  | |- context [if animating ?s1 then _ else _] =>
      destruct (Hto s1) as [Hx Hw]; rewrite Hx, Hw
  end.
  cbn [withSelection selectionX selectionWidth].
  rewrite !UpdateAnimated2_target.
  destruct (iconInfo_same_widths (refreshScrollableDimensions f) f
              (selected (iconState (refreshScrollableDimensions f)))
              eq_refl eq_refl eq_refl eq_refl eq_refl) as (_ & Hleft' & Hwidth').
  split; [exact Hleft'|]. split; [exact Hwidth'|].
  split; [apply Z.le_max_r|]. auto.
Qed.

End FooterFrameFacts.

(** ** File names: CleanTagSymbols *)

Section TagSymbolsFacts.

Import TagSymbols.

Lemma skipn_nth (value : list Z) :
  forall ch c, nth_error value ch = Some c ->
               skipn ch value = c :: skipn (S ch) value.
Proof.
  induction value as [|a value IH]; intros [|ch] c H; try discriminate.
  - injection H as ->. reflexivity.
  - cbn [skipn]. apply IH. exact H.
Qed.

Lemma firstn_snoc (value : list Z) :
  forall ch c, nth_error value ch = Some c ->
               firstn (S ch) value = firstn ch value ++ [c].
Proof.
  induction value as [|a value IH]; intros [|ch] c H; try discriminate.
  - injection H as ->. reflexivity.
  - cbn [firstn app]. f_equal. apply IH. exact H.
Qed.

Lemma nth_error_skipn_add (value : list Z) :
  forall from k, nth_error (skipn from value) k = nth_error value (from + k).
Proof.
  induction value as [|a value IH]; intros [|from] k; cbn [skipn].
  - reflexivity.
  - destruct k; reflexivity.
  - reflexivity.
  - apply IH.
Qed.

Lemma mid_snoc (value : list Z) (from ch : nat) (c : Z) :
  (from <= ch)%nat -> nth_error value ch = Some c ->
  mid value from (S ch - from) = mid value from (ch - from) ++ [c].
Proof.
  intros Hle Hc. unfold mid.
  replace (S ch - from)%nat with (S (ch - from)) by lia.
  apply firstn_snoc. rewrite nth_error_skipn_add.
  replace (from + (ch - from))%nat with ch by lia. exact Hc.
Qed.

(** One step of the left-to-right reading at position [ch]. *)
Lemma stripTagPairs_step (value : list Z) (ch : nat) (c : Z) :
  nth_error value ch = Some c ->
  stripTagPairs (skipn ch value)
  = if isTagAt value ch then stripTagPairs (skipn (ch + 2) value)
    else c :: stripTagPairs (skipn (ch + 1) value).
Proof.
  intros Hc. unfold isTagAt. rewrite Hc.
  rewrite (skipn_nth value ch c Hc).
  replace (ch + 2)%nat with (S (S ch)) by lia.
  replace (ch + 1)%nat with (S ch) by lia.
  destruct (nth_error value (S ch)) as [c'|] eqn:Hc'.
  - rewrite (skipn_nth value (S ch) c' Hc'). cbn [stripTagPairs].
    destruct (tagPair c c'); reflexivity.
  - apply nth_error_None in Hc'.
    rewrite (skipn_all2 value) by exact Hc'. reflexivity.
Qed.

(** What the loop has kept when it stands at [ch]. *)
Lemma CleanLoop_reads (value : list Z) (fuel : nat) :
  forall ch from result,
    (from <= ch <= length value)%nat ->
    (length value - ch <= fuel)%nat ->
    (from = 0%nat -> result = []) ->
    (let '(from', result') := CleanLoop value fuel ch from result in
     if (from' =? 0)%nat then value
     else if (from' <? length value)%nat then
       result' ++ mid value from' (length value - from')
     else result')
    = (if (from =? 0)%nat then firstn ch value
       else result ++ mid value from (ch - from))
      ++ stripTagPairs (skipn ch value).
Proof.
  assert (Hstop : forall ch from result,
             (from <= ch)%nat -> ch = length value ->
             (if (from =? 0)%nat then value
              else if (from <? length value)%nat then
                result ++ mid value from (length value - from)
              else result)
             = (if (from =? 0)%nat then firstn ch value
                else result ++ mid value from (ch - from))
               ++ stripTagPairs (skipn ch value)).
  { intros ch from result Hle ->.
    rewrite skipn_all. cbn [stripTagPairs]. rewrite app_nil_r.
    destruct (from =? 0)%nat; [now rewrite firstn_all|].
    destruct (from <? length value)%nat eqn:E; [reflexivity|].
    apply Nat.ltb_ge in E.
    replace (length value - from)%nat with 0%nat by lia.
    unfold mid. cbn [firstn]. now rewrite app_nil_r. }
  induction fuel as [|fuel IH]; intros ch from result Hr Hfuel Hempty.
  - cbn [CleanLoop]. apply Hstop; lia.
  - cbn [CleanLoop].
    destruct (ch =? length value)%nat eqn:Eend.
    + apply Nat.eqb_eq in Eend. apply Hstop; [lia | exact Eend].
    + apply Nat.eqb_neq in Eend.
      assert (Hc : exists c, nth_error value ch = Some c).
      { destruct (nth_error value ch) as [c|] eqn:E; [eauto|].
        apply nth_error_None in E. lia. }
      destruct Hc as [c Hc].
      rewrite (stripTagPairs_step value ch c Hc).
      destruct (isTagAt value ch) eqn:Etag.
      * assert (Hlen : (ch + 2 <= length value)%nat).
        { unfold isTagAt in Etag. rewrite Hc in Etag.
          destruct (nth_error value (S ch)) eqn:E; [|discriminate].
          assert (S ch < length value)%nat by (apply nth_error_Some; congruence).
          lia. }
        rewrite IH; [|lia|lia|lia].
        replace (ch + 2 =? 0)%nat with false by (symmetry; apply Nat.eqb_neq; lia).
        replace (ch + 2 - (ch + 2))%nat with 0%nat by lia.
        unfold mid at 1. cbn [firstn]. rewrite app_nil_r.
        f_equal.
        destruct (from =? 0)%nat eqn:E0.
        -- apply Nat.eqb_eq in E0. subst from. rewrite (Hempty eq_refl).
           destruct (0 <? ch)%nat eqn:Ech.
           ++ unfold mid. rewrite Nat.sub_0_r. reflexivity.
           ++ apply Nat.ltb_ge in Ech.
              replace ch with 0%nat by lia. reflexivity.
        -- destruct (from <? ch)%nat eqn:Ech; [reflexivity|].
           apply Nat.ltb_ge in Ech.
           replace (ch - from)%nat with 0%nat by lia.
           unfold mid. cbn [firstn]. now rewrite app_nil_r.
      * rewrite IH; [|lia|lia|exact Hempty].
        replace (ch + 1)%nat with (S ch) by lia.
        destruct (from =? 0)%nat.
        -- rewrite (firstn_snoc value ch c Hc), <- app_assoc. reflexivity.
        -- rewrite (mid_snoc value from ch c) by (try lia; exact Hc).
           rewrite <- !app_assoc. reflexivity.
Qed.

Lemma stripTagPairs_unchanged (l : list Z) :
  forall n, (length l <= n)%nat ->
            (forall ch, isTagAt l ch = false) -> stripTagPairs l = l.
Proof.
  intros n. revert l.
  induction n as [|n IH]; intros l Hn Hno.
  - destruct l; [reflexivity | cbn [length] in Hn; lia].
  - destruct l as [|c [|c' rest]]; [reflexivity | reflexivity |].
    change (stripTagPairs (c :: c' :: rest))
      with (if tagPair c c' then stripTagPairs rest
            else c :: stripTagPairs (c' :: rest)).
    pose proof (Hno 0%nat) as H0. cbn in H0. rewrite H0.
    f_equal. apply IH; [cbn [length] in *; lia|].
    intros ch. exact (Hno (S ch)).
Qed.

(** X14.  [CleanTagSymbols] reads its argument once from the left: a
    high surrogate directly followed by a low surrogate that together encode
    a code point at or above U+E0000 is dropped, every other code unit is
    kept, in order.  This holds for every sequence of code units, well formed
    or not; in particular a string without such a pair comes back
    unchanged. *)
Theorem CleanTagSymbols_strips_tag_pairs (value : list Z) :
  CleanTagSymbols value = stripTagPairs value
  /\ ((forall ch, isTagAt value ch = false) -> CleanTagSymbols value = value).
Proof.
  assert (E : CleanTagSymbols value = stripTagPairs value).
  { unfold CleanTagSymbols.
    pose proof (CleanLoop_reads value (length value) 0 0 []) as H.
    destruct (CleanLoop value (length value) 0 0 []) as [from result].
    rewrite H; [reflexivity | lia | lia | reflexivity]. }
  split; [exact E|].
  intros Hno. rewrite E. apply (stripTagPairs_unchanged value (length value)).
  - lia.
  - exact Hno.
Qed.

End TagSymbolsFacts.

(** ** File names: CleanTagSymbols on well-formed strings *)

Section TagSymbolsCharacters.

Import TagSymbols.

Lemma not_high_and_low (c : Z) :
  isHighSurrogate c = true -> isLowSurrogate c = true -> False.
Proof.
  unfold isHighSurrogate, isLowSurrogate. intros H L.
  apply Z.eqb_eq in H. apply Z.eqb_eq in L. rewrite H in L. discriminate.
Qed.

Lemma tagPair_needs_high (c c' : Z) :
  isHighSurrogate c = false -> tagPair c c' = false.
Proof. intros H. unfold tagPair. now rewrite H. Qed.

(** Reading a string that starts with a code unit which is no high
    surrogate keeps that unit. *)
Lemma stripTagPairs_keep (c : Z) (l : list Z) :
  isHighSurrogate c = false -> stripTagPairs (c :: l) = c :: stripTagPairs l.
Proof.
  intros H. destruct l as [|c' rest]; [reflexivity|].
  change (stripTagPairs (c :: c' :: rest))
    with (if tagPair c c' then stripTagPairs rest
          else c :: stripTagPairs (c' :: rest)).
  now rewrite (tagPair_needs_high c c' H).
Qed.

Lemma stripTagPairs_chunk (k : list Z) (l : list Z) :
  validChunk k = true ->
  stripTagPairs (k ++ l)
  = (if isTagChunk k then [] else k) ++ stripTagPairs l.
Proof.
  destruct k as [|c [|c' [|c'' k]]]; try discriminate; cbn [validChunk].
  - intros H. apply andb_prop in H. destruct H as [Hh _].
    apply negb_true_iff in Hh. cbn [isTagChunk app].
    apply stripTagPairs_keep. exact Hh.
  - intros H. apply andb_prop in H. destruct H as [Hh Hl].
    cbn [isTagChunk app].
    change (stripTagPairs (c :: c' :: l))
      with (if tagPair c c' then stripTagPairs l
            else c :: stripTagPairs (c' :: l)).
    unfold tagPair. rewrite Hh, Hl. cbn [andb].
    destruct (0xe0000 <=? surrogateToUcs4 c c'); [reflexivity|].
    cbn [app]. f_equal. apply stripTagPairs_keep.
    destruct (isHighSurrogate c') eqn:E; [|reflexivity].
    exfalso. exact (not_high_and_low c' E Hl).
Qed.

Lemma stripTagPairs_chunks (chunks : list (list Z)) :
  forallb validChunk chunks = true ->
  stripTagPairs (concat chunks)
  = concat (filter (fun k => negb (isTagChunk k)) chunks).
Proof.
  induction chunks as [|k chunks IH]; [reflexivity|].
  cbn [forallb concat filter]. intros H.
  apply andb_prop in H. destruct H as [Hk Hrest].
  rewrite (stripTagPairs_chunk k _ Hk), (IH Hrest).
  destruct (isTagChunk k); reflexivity.
Qed.

Lemma filter_chunks_valid (chunks : list (list Z)) :
  forallb validChunk chunks = true ->
  forallb validChunk (filter (fun k => negb (isTagChunk k)) chunks) = true
  /\ filter (fun k => negb (isTagChunk k))
       (filter (fun k => negb (isTagChunk k)) chunks)
     = filter (fun k => negb (isTagChunk k)) chunks.
Proof.
  induction chunks as [|k chunks IH]; [split; reflexivity|].
  cbn [forallb filter]. intros H.
  apply andb_prop in H. destruct H as [Hk Hrest].
  destruct (IH Hrest) as [IH1 IH2].
  destruct (isTagChunk k) eqn:E; cbn [negb].
  - split; assumption.
  - cbn [forallb filter]. rewrite Hk, IH1, E. cbn [negb andb].
    split; [reflexivity | now rewrite IH2].
Qed.

(** X15.  On well-formed UTF-16, given as the sequence of its
    characters (each a code unit that is no surrogate, or a high surrogate
    followed by a low one), [CleanTagSymbols] removes exactly the characters
    at or above U+E0000 and keeps all others in order; cleaning the result
    again changes nothing. *)
Theorem CleanTagSymbols_removes_tag_characters (chunks : list (list Z)) :
  forallb validChunk chunks = true ->
  CleanTagSymbols (concat chunks)
  = concat (filter (fun k => negb (isTagChunk k)) chunks)
  /\ CleanTagSymbols (CleanTagSymbols (concat chunks))
     = CleanTagSymbols (concat chunks).
Proof.
  intros Hvalid.
  assert (E : forall cs, forallb validChunk cs = true ->
                         CleanTagSymbols (concat cs)
                         = concat (filter (fun k => negb (isTagChunk k)) cs)).
  { intros cs Hcs.
    pose proof (CleanLoop_reads (concat cs) (length (concat cs)) 0 0 []) as H.
    unfold CleanTagSymbols.
    destruct (CleanLoop (concat cs) (length (concat cs)) 0 0 []) as [from result].
    rewrite H; [|lia|lia|reflexivity].
    apply stripTagPairs_chunks. exact Hcs. }
  destruct (filter_chunks_valid chunks Hvalid) as [Hv Hf].
  split; [exact (E chunks Hvalid)|].
  rewrite (E chunks Hvalid), (E _ Hv), Hf. reflexivity.
Qed.

End TagSymbolsCharacters.

Lemma CleanTagSymbols_removes_tag_characters_witness :
  forallb validChunk [[0x41]; [0xD83D; 0xDE00]; [0xDB40; 0xDC67]; [0x42]] = true
  /\ TagSymbols.CleanTagSymbols [0x41; 0xD83D; 0xDE00; 0xDB40; 0xDC67; 0x42]
     = [0x41; 0xD83D; 0xDE00; 0x42].
Proof.
  assert (H : forallb validChunk
                [[0x41]; [0xD83D; 0xDE00]; [0xDB40; 0xDC67]; [0x42]] = true)
    by reflexivity.
  split; [exact H|].
  exact (proj1 (CleanTagSymbols_removes_tag_characters _ H)).
Defined.

(** ** Photo: the key of the album cache *)

Section PhotoGroupedKey.

Import PhotoView.

Lemma small_bits_high (v n : Z) : 0 <= v < 2 ^ 16 -> 16 <= n -> Z.testbit v n = false.
Proof.
  intros Hv Hn. rewrite <- (Z.mod_small v (2 ^ 16)) by exact Hv.
  apply Z.mod_pow2_bits_high. lia.
Qed.

Lemma toU64_shiftl_bit (v k n : Z) :
  0 <= k -> 0 <= n < 64 ->
  Z.testbit (toU64 (Z.shiftl (toU64 v) k)) n
  = if n <? k then false else Z.testbit v (n - k).
Proof.
  intros Hk Hn. unfold toU64.
  rewrite Z.mod_pow2_bits_low by lia.
  destruct (n <? k) eqn:E.
  - apply Z.ltb_lt in E. apply Z.shiftl_spec_low. exact E.
  - apply Z.ltb_ge in E. rewrite Z.shiftl_spec by lia.
    apply Z.mod_pow2_bits_low. lia.
Qed.

Lemma toU64_bit_high (v n : Z) : 64 <= n -> Z.testbit (toU64 v) n = false.
Proof. intros Hn. unfold toU64. apply Z.mod_pow2_bits_high. lia. Qed.

(** The bits of a key, read off its four parts. *)
Lemma groupedCacheKey_bit (w h o l n : Z) :
  0 <= n < 64 ->
  Z.testbit (groupedCacheKey w h o l) n
  = (if n <? 48 then false else Z.testbit w (n - 48))
    || (if n <? 32 then false else Z.testbit h (n - 32))
    || (if n <? 16 then false else Z.testbit o (n - 16))
    || Z.testbit l n.
Proof.
  intros Hn. unfold groupedCacheKey. rewrite !Z.lor_spec.
  rewrite !toU64_shiftl_bit by lia.
  unfold toU64 at 1. rewrite Z.mod_pow2_bits_low by lia. reflexivity.
Qed.

Lemma groupedCacheKey_parts (w h o l n : Z) :
  0 <= w < 2 ^ 16 -> 0 <= h < 2 ^ 16 -> 0 <= o < 2 ^ 16 -> 0 <= l < 2 ^ 16 ->
  0 <= n < 16 ->
  Z.testbit (groupedCacheKey w h o l) n = Z.testbit l n
  /\ Z.testbit (groupedCacheKey w h o l) (n + 16) = Z.testbit o n
  /\ Z.testbit (groupedCacheKey w h o l) (n + 32) = Z.testbit h n
  /\ Z.testbit (groupedCacheKey w h o l) (n + 48) = Z.testbit w n.
Proof.
  intros Hw Hh Ho Hl Hn.
  rewrite !groupedCacheKey_bit by lia.
  replace (n <? 48) with true by (symmetry; apply Z.ltb_lt; lia).
  replace (n <? 32) with true by (symmetry; apply Z.ltb_lt; lia).
  replace (n <? 16) with true by (symmetry; apply Z.ltb_lt; lia).
  replace (n + 16 <? 48) with true by (symmetry; apply Z.ltb_lt; lia).
  replace (n + 16 <? 32) with true by (symmetry; apply Z.ltb_lt; lia).
  replace (n + 16 <? 16) with false by (symmetry; apply Z.ltb_ge; lia).
  replace (n + 32 <? 48) with true by (symmetry; apply Z.ltb_lt; lia).
  replace (n + 32 <? 32) with false by (symmetry; apply Z.ltb_ge; lia).
  replace (n + 32 <? 16) with false by (symmetry; apply Z.ltb_ge; lia).
  replace (n + 48 <? 48) with false by (symmetry; apply Z.ltb_ge; lia).
  replace (n + 48 <? 32) with false by (symmetry; apply Z.ltb_ge; lia).
  replace (n + 48 <? 16) with false by (symmetry; apply Z.ltb_ge; lia).
  replace (n + 16 - 16) with n by lia.
  replace (n + 32 - 32) with n by lia.
  replace (n + 48 - 48) with n by lia.
  rewrite (small_bits_high l (n + 16)), (small_bits_high l (n + 32)),
    (small_bits_high l (n + 48)) by lia.
  rewrite (small_bits_high o (n + 32 - 16)), (small_bits_high o (n + 48 - 16))
    by lia.
  rewrite (small_bits_high h (n + 48 - 32)) by lia.
  cbn [orb]. rewrite !orb_false_r. auto.
Qed.

Lemma small_eq_of_bits (a b : Z) :
  0 <= a < 2 ^ 16 -> 0 <= b < 2 ^ 16 ->
  (forall n, 0 <= n < 16 -> Z.testbit a n = Z.testbit b n) -> a = b.
Proof.
  intros Ha Hb H. apply Z.bits_inj'. intros n Hn.
  destruct (Z.lt_ge_cases n 16) as [Hlt|Hge].
  - apply H. lia.
  - rewrite (small_bits_high a n), (small_bits_high b n) by lia. reflexivity.
Qed.

Lemma groupedCacheKey_parts_eq (w h o l w' h' o' l' : Z) :
  0 <= w < 2 ^ 16 -> 0 <= h < 2 ^ 16 -> 0 <= o < 2 ^ 16 -> 0 <= l < 2 ^ 16 ->
  0 <= w' < 2 ^ 16 -> 0 <= h' < 2 ^ 16 -> 0 <= o' < 2 ^ 16 -> 0 <= l' < 2 ^ 16 ->
  groupedCacheKey w h o l = groupedCacheKey w' h' o' l' ->
  w = w' /\ h = h' /\ o = o' /\ l = l'.
Proof.
  intros Hw Hh Ho Hl Hw' Hh' Ho' Hl' E.
  assert (Hbits : forall n, 0 <= n < 16 ->
             Z.testbit l n = Z.testbit l' n
             /\ Z.testbit o n = Z.testbit o' n
             /\ Z.testbit h n = Z.testbit h' n
             /\ Z.testbit w n = Z.testbit w' n).
  { intros n Hn.
    destruct (groupedCacheKey_parts w h o l n Hw Hh Ho Hl Hn)
      as (A1 & A2 & A3 & A4).
    destruct (groupedCacheKey_parts w' h' o' l' n Hw' Hh' Ho' Hl' Hn)
      as (B1 & B2 & B3 & B4).
    rewrite <- A1, <- A2, <- A3, <- A4, <- B1, <- B2, <- B3, <- B4, E.
    auto. }
  split; [|split; [|split]];
    apply small_eq_of_bits; try assumption; intros n Hn; apply (Hbits n Hn).
Qed.

Lemma groupedCacheKey_low (a b c l : Z) :
  0 <= l < 2 ^ 16 -> groupedCacheKey a b c l mod 2 ^ 16 = l.
Proof.
  intros Hl. apply Z.bits_inj'. intros n Hn.
  destruct (Z.lt_ge_cases n 16) as [Hlt|Hge].
  - rewrite Z.mod_pow2_bits_low by lia.
    rewrite groupedCacheKey_bit by lia.
    replace (n <? 48) with true by (symmetry; apply Z.ltb_lt; lia).
    replace (n <? 32) with true by (symmetry; apply Z.ltb_lt; lia).
    replace (n <? 16) with true by (symmetry; apply Z.ltb_lt; lia).
    reflexivity.
  - rewrite Z.mod_pow2_bits_high by lia.
    symmetry. apply small_bits_high; lia.
Qed.

(** X16.  The key of the album cache tells its four parts apart: for
    widths, heights, option flags and load levels that fit 16 bits, two keys
    are equal exactly when all four parts are equal.  Whatever the other
    parts are, the lowest 16 bits of a key are the load level. *)
Theorem groupedCacheKey_injective (w h o l w' h' o' l' : Z) :
  0 <= w < 2 ^ 16 -> 0 <= h < 2 ^ 16 -> 0 <= o < 2 ^ 16 -> 0 <= l < 2 ^ 16 ->
  0 <= w' < 2 ^ 16 -> 0 <= h' < 2 ^ 16 -> 0 <= o' < 2 ^ 16 -> 0 <= l' < 2 ^ 16 ->
  (groupedCacheKey w h o l = groupedCacheKey w' h' o' l'
   <-> w = w' /\ h = h' /\ o = o' /\ l = l')
  /\ (forall a b c, groupedCacheKey a b c l mod 2 ^ 16 = l).
Proof.
  intros Hw Hh Ho Hl Hw' Hh' Ho' Hl'.
  split.
  - split.
    + apply groupedCacheKey_parts_eq; assumption.
    + intros (-> & -> & -> & ->). reflexivity.
  - intros a b c. apply groupedCacheKey_low. exact Hl.
Qed.

End PhotoGroupedKey.

Lemma groupedCacheKey_injective_witness :
  0 <= 320 < 2 ^ 16 /\ 0 <= 240 < 2 ^ 16 /\ 0 <= 10 < 2 ^ 16 /\ 0 <= 1 < 2 ^ 16
  /\ 0 <= 2 < 2 ^ 16
  /\ PhotoView.groupedCacheKey 320 240 10 1 <> PhotoView.groupedCacheKey 320 240 10 2
  /\ PhotoView.groupedCacheKey 7 7 7 1 mod 2 ^ 16 = 1.
Proof.
  assert (H320 : 0 <= 320 < 2 ^ 16) by (split; [discriminate | reflexivity]).
  assert (H240 : 0 <= 240 < 2 ^ 16) by (split; [discriminate | reflexivity]).
  assert (H10 : 0 <= 10 < 2 ^ 16) by (split; [discriminate | reflexivity]).
  assert (H1 : 0 <= 1 < 2 ^ 16) by (split; [discriminate | reflexivity]).
  assert (H2 : 0 <= 2 < 2 ^ 16) by (split; [discriminate | reflexivity]).
  split; [exact H320|]. split; [exact H240|]. split; [exact H10|].
  split; [exact H1|]. split; [exact H2|].
  destruct (groupedCacheKey_injective 320 240 10 1 320 240 10 2
              H320 H240 H10 H1 H320 H240 H10 H2) as [Hiff Hlow].
  split.
  - intros E. apply (proj1 Hiff) in E. destruct E as (_ & _ & _ & E).
    discriminate E.
  - apply Hlow.
Defined.

(** ** Photo: the album cache *)

Section PhotoGroupedCache.

Import PhotoView.

Context {Pixmap : Type}.

Variable O : OptionBits.

Variable ConvertScale : Z -> Z.

Variable GetImageScaleSizeForGeometry : QSize -> QSize -> QSize.

Variable ratio : Z.

Variable pixNoCache : option Image -> QSize -> Z -> QSize -> Pixmap.

Lemma validateGroupedCache_loadLevel_range (m : PhotoMedia) :
  0 <= validateGroupedCache_loadLevel m < 2 ^ 16
  /\ (validateGroupedCache_loadLevel m = 2 <-> loaded m = true).
Proof.
  unfold validateGroupedCache_loadLevel.
  destruct (loaded m).
  - split; [split; [discriminate | reflexivity] | split; reflexivity].
  - destruct (thumbnailInline m), (imageSmall m), (imageThumbnail m);
      (split; [split; [discriminate | reflexivity] | split; discriminate]).
Qed.

Lemma validateGroupedCache_cacheKey (m : PhotoMedia) (dw dh : Z) (g : QSize)
    (corners : RectParts) (c : GroupedCache Pixmap) :
  cacheKey (validateGroupedCache O ConvertScale GetImageScaleSizeForGeometry
              ratio pixNoCache m dw dh g corners c)
  = validateGroupedCache_key O m g corners.
Proof.
  unfold validateGroupedCache.
  destruct (cacheKey c =? _) eqn:E; [apply Z.eqb_eq in E; exact E | reflexivity].
Qed.

(** The cache is left alone exactly when its key is the current one. *)
Lemma validateGroupedCache_untouched (m : PhotoMedia) (dw dh : Z) (g : QSize)
    (corners : RectParts) (c : GroupedCache Pixmap) :
  (cacheKey c = validateGroupedCache_key O m g corners ->
   validateGroupedCache O ConvertScale GetImageScaleSizeForGeometry ratio
     pixNoCache m dw dh g corners c = c)
  /\ (cacheKey c <> validateGroupedCache_key O m g corners ->
      renders (validateGroupedCache O ConvertScale GetImageScaleSizeForGeometry
                 ratio pixNoCache m dw dh g corners c) = S (renders c)
      /\ cache (validateGroupedCache O ConvertScale GetImageScaleSizeForGeometry
                  ratio pixNoCache m dw dh g corners c)
         = pixNoCache (option_map snd (validateGroupedCache_image m))
             (scaleSize (GetImageScaleSizeForGeometry
                           (ConvertScale dw, ConvertScale dh)
                           (fst g, snd g)) ratio)
             (groupedOptions O (loaded m) corners) (fst g, snd g)).
Proof.
  unfold validateGroupedCache. split; intros H.
  - rewrite (proj2 (Z.eqb_eq _ _) H). reflexivity.
  - rewrite (proj2 (Z.eqb_neq _ _) H). split; reflexivity.
Qed.

(** X17.  [validateGroupedCache] renders only when the key changes.  A
    second call with the same arguments changes nothing and renders nothing.
    When the photo has become loaded since the cache was made, the next call
    renders again, from the best image there is (Large, else Thumbnail, else
    Small, else the inline thumbnail, else the blank image) and without the
    blur flag.  For sizes and option flags that fit 16 bits, a call leaves a
    cache made by an earlier call alone exactly when the size, the options
    and the load level are all what they were. *)
Theorem validateGroupedCache_renders_on_key_change
    (m0 m : PhotoMedia) (dw dh : Z) (g0 g : QSize) (corners0 corners : RectParts)
    (c0 : GroupedCache Pixmap) :
  validateGroupedCache O ConvertScale GetImageScaleSizeForGeometry ratio
    pixNoCache m dw dh g corners
    (validateGroupedCache O ConvertScale GetImageScaleSizeForGeometry ratio
       pixNoCache m dw dh g corners c0)
  = validateGroupedCache O ConvertScale GetImageScaleSizeForGeometry ratio
      pixNoCache m dw dh g corners c0
  /\ (loaded m0 = false -> loaded m = true ->
      renders (validateGroupedCache O ConvertScale GetImageScaleSizeForGeometry
                 ratio pixNoCache m dw dh g corners
                 (validateGroupedCache O ConvertScale
                    GetImageScaleSizeForGeometry ratio pixNoCache
                    m0 dw dh g0 corners0 c0))
      = S (renders (validateGroupedCache O ConvertScale
                      GetImageScaleSizeForGeometry ratio pixNoCache
                      m0 dw dh g0 corners0 c0))
      /\ cache (validateGroupedCache O ConvertScale GetImageScaleSizeForGeometry
                  ratio pixNoCache m dw dh g corners
                  (validateGroupedCache O ConvertScale
                     GetImageScaleSizeForGeometry ratio pixNoCache
                     m0 dw dh g0 corners0 c0))
         = pixNoCache (option_map snd (validateGroupedCache_image m))
             (scaleSize (GetImageScaleSizeForGeometry
                           (ConvertScale dw, ConvertScale dh)
                           (fst g, snd g)) ratio)
             (groupedOptions O true corners) (fst g, snd g))
  /\ (0 <= fst g0 < 2 ^ 16 -> 0 <= snd g0 < 2 ^ 16 ->
      0 <= fst g < 2 ^ 16 -> 0 <= snd g < 2 ^ 16 ->
      0 <= groupedOptions O (loaded m0) corners0 < 2 ^ 16 ->
      0 <= groupedOptions O (loaded m) corners < 2 ^ 16 ->
      (validateGroupedCache O ConvertScale GetImageScaleSizeForGeometry ratio
         pixNoCache m dw dh g corners
         (validateGroupedCache O ConvertScale GetImageScaleSizeForGeometry
            ratio pixNoCache m0 dw dh g0 corners0 c0)
       = validateGroupedCache O ConvertScale GetImageScaleSizeForGeometry ratio
           pixNoCache m0 dw dh g0 corners0 c0
       <-> fst g = fst g0 /\ snd g = snd g0
           /\ groupedOptions O (loaded m) corners
              = groupedOptions O (loaded m0) corners0
           /\ validateGroupedCache_loadLevel m
              = validateGroupedCache_loadLevel m0)).
Proof.
  split; [|split].
  - apply validateGroupedCache_untouched. apply validateGroupedCache_cacheKey.
  - intros H0 H1.
    set (c1 := validateGroupedCache O ConvertScale GetImageScaleSizeForGeometry
                 ratio pixNoCache m0 dw dh g0 corners0 c0).
    assert (Hkey : cacheKey c1 <> validateGroupedCache_key O m g corners).
    { subst c1. rewrite validateGroupedCache_cacheKey.
      unfold validateGroupedCache_key. intros E.
      destruct (validateGroupedCache_loadLevel_range m0) as [R0 L0].
      destruct (validateGroupedCache_loadLevel_range m) as [R L].
      assert (Elow : validateGroupedCache_loadLevel m0
                     = validateGroupedCache_loadLevel m).
      { rewrite <- (groupedCacheKey_low (fst g0) (snd g0)
                      (groupedOptions O (loaded m0) corners0) _ R0).
        rewrite E. apply groupedCacheKey_low. exact R. }
      rewrite (proj2 L H1) in Elow. apply L0 in Elow. congruence. }
    destruct (proj2 (validateGroupedCache_untouched m dw dh g corners c1) Hkey)
      as [Hr Hc].
    rewrite Hr, Hc, H1. split; reflexivity.
  - intros Hw0 Hh0 Hw Hh Ho0 Ho.
    set (c1 := validateGroupedCache O ConvertScale GetImageScaleSizeForGeometry
                 ratio pixNoCache m0 dw dh g0 corners0 c0).
    assert (Hk1 : cacheKey c1 = validateGroupedCache_key O m0 g0 corners0)
      by apply validateGroupedCache_cacheKey.
    destruct (validateGroupedCache_loadLevel_range m0) as [R0 _].
    destruct (validateGroupedCache_loadLevel_range m) as [R _].
    assert (Hinj : validateGroupedCache_key O m g corners
                   = validateGroupedCache_key O m0 g0 corners0
                   <-> fst g = fst g0 /\ snd g = snd g0
                       /\ groupedOptions O (loaded m) corners
                          = groupedOptions O (loaded m0) corners0
                       /\ validateGroupedCache_loadLevel m
                          = validateGroupedCache_loadLevel m0).
    { unfold validateGroupedCache_key. split.
      - apply groupedCacheKey_parts_eq; assumption.
      - intros (-> & -> & -> & ->). reflexivity. }
    destruct (Z.eq_dec (cacheKey c1) (validateGroupedCache_key O m g corners))
      as [Heq|Hne].
    + split.
      * intros _. apply Hinj. rewrite <- Heq, Hk1. reflexivity.
      * intros _.
        apply (proj1 (validateGroupedCache_untouched m dw dh g corners c1) Heq).
    + split.
      * intros E.
        destruct (proj2 (validateGroupedCache_untouched m dw dh g corners c1) Hne)
          as [Hr _].
        rewrite E in Hr. lia.
      * intros Hparts. exfalso. apply Hne. rewrite Hk1. symmetry.
        apply Hinj. exact Hparts.
Qed.

End PhotoGroupedCache.

(** ** Photo: autoplay starts a stream once *)

Section PhotoAutoplay.

Import PhotoView.

Context {K : ImageKit}.

Lemma checkStreamedIsStarted_id (s : Photo K) : checkStreamedIsStarted s = s.
Proof. unfold checkStreamedIsStarted. destruct (streamed s); reflexivity. Qed.

(** X18.  Autoplay starts a video once.  On an element without a
    streaming instance whose video can be played, the autoplay check of
    [paintUserpicFrame] with a valid instance opens exactly one stream and
    keeps it; the asset is not marked failed.  From then on, while autoplay
    stays enabled, further paint checks, [playAnimation] calls and
    [checkAnimation] leave the element as it is and open no second stream;
    once autoplay is disabled, [checkAnimation] and a [playAnimation] that
    is no autoplay both remove the streaming instance. *)
Theorem autoplay_starts_stream_once (s : Photo K) :
  streamed s = None -> videoCanBePlayed (data s) = true ->
  streamed (paintUserpicFrame_autoplay true true s)
  = Some {| instance_valid := true |}
  /\ streamOpens (paintUserpicFrame_autoplay true true s) = S (streamOpens s)
  /\ data (paintUserpicFrame_autoplay true true s) = data s
  /\ (forall valid,
        paintUserpicFrame_autoplay true valid
          (paintUserpicFrame_autoplay true true s)
        = paintUserpicFrame_autoplay true true s)
  /\ (forall valid autoplay,
        playAnimation true valid autoplay (paintUserpicFrame_autoplay true true s)
        = paintUserpicFrame_autoplay true true s)
  /\ checkAnimation true (paintUserpicFrame_autoplay true true s)
     = paintUserpicFrame_autoplay true true s
  /\ streamed (checkAnimation false (paintUserpicFrame_autoplay true true s))
     = None
  /\ (forall valid,
        streamed (playAnimation false valid false
                    (paintUserpicFrame_autoplay true true s)) = None
        /\ streamOpens (playAnimation false valid false
                          (paintUserpicFrame_autoplay true true s))
           = S (streamOpens s)).
Proof.
  intros Hs Hplay.
  assert (E : paintUserpicFrame_autoplay true true s
              = Build_Photo K (dataMedia s) (data s)
                  (Some {| instance_valid := true |})
                  (imageCache s) (imageCacheRoundRadius s)
                  (imageCacheRoundCorners s) (imageCacheBlurred s)
                  (prepareCalls s) (S (streamOpens s))).
  { unfold paintUserpicFrame_autoplay, playAnimation. rewrite Hplay, Hs.
    cbn [andb]. unfold createStreamingObjects. cbn [negb].
    rewrite checkStreamedIsStarted_id. reflexivity. }
  rewrite E.
  split; [reflexivity|]. split; [reflexivity|]. split; [reflexivity|].
  split.
  { intros valid. unfold paintUserpicFrame_autoplay. cbn [data streamed].
    rewrite Hplay. cbn [andb]. apply checkStreamedIsStarted_id. }
  split.
  { intros valid autoplay. unfold playAnimation. cbn [streamed].
    destruct autoplay; reflexivity. }
  split; [reflexivity|]. split; [reflexivity|].
  intros valid. split; reflexivity.
Qed.

End PhotoAutoplay.

Lemma autoplay_starts_stream_once_witness :
  PhotoView.streamed
    (photo_example (media_example (Some 1%nat) None None None) true false None)
  = None
  /\ PhotoView.videoCanBePlayed
       (PhotoView.data
          (photo_example (media_example (Some 1%nat) None None None)
             true false None)) = true
  /\ PhotoView.streamOpens
       (PhotoView.paintUserpicFrame_autoplay true true
          (PhotoView.paintUserpicFrame_autoplay true true
             (photo_example (media_example (Some 1%nat) None None None)
                true false None))) = 1%nat.
Proof.
  assert (H1 : PhotoView.streamed
                 (photo_example (media_example (Some 1%nat) None None None)
                    true false None) = None) by reflexivity.
  assert (H2 : PhotoView.videoCanBePlayed
                 (PhotoView.data
                    (photo_example (media_example (Some 1%nat) None None None)
                       true false None)) = true) by reflexivity.
  split; [exact H1|]. split; [exact H2|].
  destruct (autoplay_starts_stream_once
              (photo_example (media_example (Some 1%nat) None None None)
                 true false None) H1 H2) as (_ & Hopens & _ & Hagain & _).
  rewrite (Hagain true). exact Hopens.
Defined.

(** ** Voice messages: the playback progress stays a proportion *)

Section VoiceProgressFacts.

Import Footer.

Import VoiceProgress.

Lemma clampUnit_unit (v : Q) : (0 <= clampUnit v /\ clampUnit v <= 1)%Q.
Proof.
  unfold clampUnit.
  destruct (Qlt_le_dec v 0); [split; discriminate|].
  destruct (Qlt_le_dec 1 v); [split; discriminate|].
  split; assumption.
Qed.

Lemma playbackProgress_unit (statePosition stateLength : Z) :
  (0 <= playbackProgress statePosition stateLength
   /\ playbackProgress statePosition stateLength <= 1)%Q.
Proof.
  unfold playbackProgress.
  destruct (stateLength =? 0); [split; discriminate | apply clampUnit_unit].
Qed.

(** The elapsed share of the animation's 200 ms. *)
Lemma voice_dt (elapsed : Z) :
  (Qle_bool 1 (inject_Z elapsed / inject_Z (2 * kAudioVoiceMsgUpdateView)) = true
   <-> 200 <= elapsed)
  /\ (0 <= elapsed ->
      (0 <= inject_Z elapsed / inject_Z (2 * kAudioVoiceMsgUpdateView))%Q).
Proof.
  change (2 * kAudioVoiceMsgUpdateView) with 200.
  split.
  - rewrite Qle_bool_iff.
    unfold Qle, Qdiv, Qmult, Qinv, inject_Z; simpl. lia.
  - intros H. unfold Qle, Qdiv, Qmult, Qinv, inject_Z; simpl. lia.
Qed.

(** X19.  The progress of a playing voice message stays within [0, 1].
    The progress [updateStatusText] computes from the player's position and
    length lies within [0, 1] for every position and length, a zero length
    included.  When the animated progress lies within [0, 1], it still does
    after [updateStatusText] has retargeted it, and after every
    [voiceProgressAnimationCallback] that comes at or after the start of the
    progress animation (with the linear easing).  The callback reports the
    animation finished exactly when 200 ms have passed since its start (at
    once when animations are disabled), and then the progress is at its
    target. *)
Theorem voice_progress_stays_in_unit_interval
    (animDisabled : bool) (linear : Q -> Q -> Q)
    (Hlinear : forall delta dt, (linear delta dt == delta * dt)%Q)
    (p : VoicePlayback) (Hunit : unitValue (progress p)) :
  (forall statePosition stateLength,
     (0 <= playbackProgress statePosition stateLength
      /\ playbackProgress statePosition stateLength <= 1)%Q)
  /\ (forall now statePosition stateLength was,
        unitValue (progress (updatePlayback now statePosition stateLength was p)))
  /\ (forall now,
        started p <= (if animDisabled then now + 200 else now) ->
        exists p',
          snd (voiceProgressAnimationCallback animDisabled linear now (Some p))
          = Some p'
          /\ unitValue (progress p')
          /\ (fst (voiceProgressAnimationCallback animDisabled linear now (Some p))
              = false
              <-> started p + 200 <= (if animDisabled then now + 200 else now))
          /\ (fst (voiceProgressAnimationCallback animDisabled linear now (Some p))
              = false ->
              a_cur (progress p') = a_to (progress p) /\ running p' = false)).
Proof.
  destruct Hunit as ((Hf0 & Hf1) & (Hc0 & Hc1) & (Ht0 & Ht1)).
  split; [apply playbackProgress_unit|]. split.
  - intros now statePosition stateLength was. unfold updatePlayback.
    destruct (negb was || negb (statePosition =? position p));
      [|repeat split; assumption].
    cbn [progress].
    pose proof (playbackProgress_unit statePosition stateLength) as [Hp0 Hp1].
    destruct (position p <? statePosition); unfold unitValue;
      cbn [startTo a_from a_cur a_to]; repeat split;
      try assumption; discriminate.
  - intros now Hnow. unfold voiceProgressAnimationCallback.
    change (2 * kAudioVoiceMsgUpdateView) with 200.
    set (now' := if animDisabled then now + 200 else now) in *.
    destruct (voice_dt (now' - started p)) as [Hge Hpos].
    change (2 * kAudioVoiceMsgUpdateView) with 200 in Hge, Hpos.
    set (dt := (inject_Z (now' - started p) / inject_Z 200)%Q) in *.
    destruct (Qle_bool 1 dt) eqn:E.
    + eexists. split; [reflexivity|]. cbn [fst progress running].
      split; [unfold unitValue; cbn [a_finish a_from a_cur a_to];
              repeat split; assumption|].
      split.
      * pose proof (proj1 Hge eq_refl) as Hdone.
        split; [intros _; lia | reflexivity].
      * intros _. split; reflexivity.
    + eexists. split; [reflexivity|]. cbn [fst progress running].
      assert (Hdt1 : (dt < 1)%Q).
      { apply Qnot_le_lt. intros Hle. apply Qle_bool_iff in Hle. congruence. }
      assert (Hdt0 : (0 <= dt)%Q) by (apply Hpos; lia).
      assert (Emin : qMin dt 1 = dt).
      { unfold qMin. destruct (Qlt_le_dec dt 1) as [_|Hle]; [reflexivity|].
        exfalso. apply (Qlt_irrefl 1). eapply Qle_lt_trans; eassumption. }
      rewrite Emin.
      split.
      * unfold unitValue. cbn [a_update a_from a_cur a_to].
        split; [split; assumption|]. split; [|split; assumption].
        rewrite Hlinear.
        set (a := a_from (progress p)) in *. set (b := a_to (progress p)) in *.
        split; nra.
      * split.
        -- split; [discriminate|]. intros Hdone.
           symmetry. apply (proj2 Hge). lia.
        -- discriminate.
Qed.

End VoiceProgressFacts.

Lemma voice_progress_stays_in_unit_interval_witness :
  (forall delta dt, (delta * dt == delta * dt)%Q)
  /\ unitValue (VoiceProgress.progress playback_example)
  /\ unitValue
       (VoiceProgress.progress
          (VoiceProgress.updatePlayback 2000 9000 10000 true playback_example)).
Proof.
  assert (H1 : forall delta dt, (delta * dt == delta * dt)%Q)
    by (intros; reflexivity).
  assert (H2 : unitValue (VoiceProgress.progress playback_example)).
  { unfold unitValue. repeat split; discriminate. }
  split; [exact H1|]. split; [exact H2|].
  destruct (voice_progress_stays_in_unit_interval false
              (fun delta dt => (delta * dt)%Q) H1 playback_example H2)
    as (_ & Hupdate & _).
  apply Hupdate.
Defined.

(** ** PaintWaveform: how the bars are drawn *)

Section WaveformBars.

Import Waveform.

Variable st : WaveStyle.

Variable barNormValue : Z.

Variable activeWidth : Q.

(** The rectangles of one bar tile it, each on its side of the cutoff, and
    all have the bar's height. *)
Lemma fillBar_rects (barLeft barValue : Z) :
  coversBar barLeft (msgWaveformBar st)
    (fillBar st activeWidth barLeft barValue)
  /\ Forall (rectColoured activeWidth)
       (fillBar st activeWidth barLeft barValue)
  /\ Forall (fun r => rh r = inject_Z (msgWaveformMin st + barValue))
       (fillBar st activeWidth barLeft barValue).
Proof.
  unfold fillBar, barWidth.
  destruct (Qlt_le_dec (inject_Z barLeft) activeWidth) as [Hl|Hl];
    [destruct (Qlt_le_dec activeWidth
                 (inject_Z barLeft + inject_Z (msgWaveformBar st))) as [Hr|Hr]|];
    cbn [coversBar].
  - split; [|split].
    + cbn [rx rw]. split; [reflexivity|]. split; [ring|].
      split; [ring|]. split; lra.
    + repeat constructor; unfold rectColoured; cbn [rcolor rx rw]; lra.
    + repeat constructor.
  - split; [|split].
    + cbn [rx rw]. split; reflexivity.
    + repeat constructor. unfold rectColoured; cbn [rcolor rx rw]. exact Hr.
    + repeat constructor.
  - split; [|split].
    + cbn [rx rw]. split; reflexivity.
    + repeat constructor. unfold rectColoured; cbn [rcolor rx rw]. exact Hl.
    + repeat constructor.
Qed.

Lemma drawBar_rects (barLeft maxValue bv : Z) (rects : list FillRect) :
  drawBar st barNormValue activeWidth barLeft maxValue = Some (bv, rects) ->
  coversBar barLeft (msgWaveformBar st) rects
  /\ Forall (rectColoured activeWidth) rects
  /\ Forall (fun r => rh r = inject_Z (msgWaveformMin st + bv)) rects.
Proof.
  unfold drawBar. destruct (intDiv _ _) as [v|]; [|discriminate].
  intros [= <- <-]. apply fillBar_rects.
Qed.

(** Every bar the loop emits is drawn by [drawBar] from its own left edge
    and maximum; the bars stand one step apart; and their maxima stay within
    the bounds of the samples. *)
Lemma paintLoop_bars (wf : option (list Z)) (wfSize barCount : Z) (n : nat) :
  forall i barLeft sum maxValue bucket bars,
    paintLoop st wf wfSize barCount barNormValue activeWidth
              n i barLeft sum maxValue bucket = Done bars ->
    Forall (fun b => drawBar st barNormValue activeWidth (bar_left b) (bar_max b)
                     = Some (bar_value b, bar_rects b))
           bars
    /\ (forall k b, nth_error bars k = Some b ->
                    bar_left b
                    = barLeft + Z.of_nat k * (msgWaveformBar st + msgWaveformSkip st))
    /\ (forall M, (forall j v, sampleAt wf j = Some v -> 0 <= v <= M) ->
                  0 <= maxValue <= M ->
                  Forall (fun b => 0 <= bar_max b <= M) bars).
Proof.
  induction n as [|n IH]; intros i barLeft sum maxValue bucket bars.
  - simpl. intros [= <-]. split; [constructor|]. split; [|constructor].
    intros [|k] b; discriminate.
  - cbn [paintLoop].
    change (match wf with Some w => at_ w i | None => Some 0 end)
      with (sampleAt wf i).
    destruct (sampleAt wf i) as [v|] eqn:Hv; [|discriminate].
    destruct (sum + barCount <? wfSize).
    + intros H. destruct (IH _ _ _ _ _ _ H) as (H1 & H2 & H3).
      split; [exact H1|]. split; [exact H2|].
      intros M Hs Hm. apply H3; [exact Hs|].
      pose proof (Hs i v Hv). lia.
    + set (consumed := sum + barCount - wfSize <? (barCount + 1) ÷ 2).
      set (m := if consumed then Z.max maxValue v else maxValue).
      destruct (drawBar st barNormValue activeWidth barLeft m)
        as [[bv rects]|] eqn:Ed; [|discriminate].
      destruct (paintLoop _ _ _ _ _ _ _ _ _ _ _ _) as [rest|f] eqn:E;
        [|discriminate].
      intros [= <-]. destruct (IH _ _ _ _ _ _ E) as (H1 & H2 & H3).
      split; [|split].
      * constructor; [cbn [bar_value bar_rects bar_left bar_max]; exact Ed|].
        exact H1.
      * intros [|k] b; cbn [nth_error].
        -- intros [= <-]. cbn [bar_left]. lia.
        -- intros Hb. rewrite (H2 k b Hb). unfold barWidth. lia.
      * intros M Hs Hm. pose proof (Hs i v Hv) as Hvr.
        constructor.
        -- cbn [bar_max]. subst m. destruct consumed; lia.
        -- apply H3; [exact Hs|]. destruct consumed; lia.
Qed.


Lemma barValue_range (m D n : Z) :
  0 <= m <= n - 1 -> 0 <= D ->
  0 <= (m * D + n ÷ 2) ÷ n <= D.
Proof.
  intros Hm HD.
  assert (Hn : 1 <= n) by lia.
  assert (Hhalf : 0 <= n ÷ 2 < n).
  { rewrite Z.quot_div_nonneg by lia.
    pose proof (Z.div_mod n 2 ltac:(lia)). pose proof (Z.mod_pos_bound n 2).
    lia. }
  assert (Hnum : 0 <= m * D + n ÷ 2) by nia.
  rewrite Z.quot_div_nonneg by lia.
  split.
  - apply Z.div_pos; lia.
  - apply Z.lt_succ_r. apply Z.div_lt_upper_bound; [lia|]. nia.
Qed.

End WaveformBars.

Section WaveformDrawing.

Import Waveform.


(** X21.  With samples that lie between 0 and the recorded maximum, a
    waveform box that is not upside down ([msgWaveformMin] at most
    [msgWaveformMax]) and a bar step that is not zero, no bar leaves the
    box: every bar's maximum lies
    between 0 and the recorded maximum, its value between 0 and
    [msgWaveformMax - msgWaveformMin], and each of its rectangles is
    [msgWaveformMin] plus that value high. *)
Theorem PaintWaveform_bars_fit_box
    (st : WaveStyle) (k : Z) (vd : VoiceData) (availableWidth : Z)
    (progress : Q) (v0 : Z) (rest : list Z)
    (Hwf : waveform vd = v0 :: rest)
    (Hsamples : forall v, In v (waveform vd) -> 0 <= v <= wavemax vd)
    (Hbox : msgWaveformMin st <= msgWaveformMax st)
    (Hstep : msgWaveformBar st + msgWaveformSkip st <> 0) :
  exists bars,
    PaintWaveform st k (Some vd) availableWidth progress = Done bars
    /\ Forall (fun b =>
                 0 <= bar_max b <= wavemax vd
                 /\ 0 <= bar_value b <= msgWaveformMax st - msgWaveformMin st
                 /\ Forall (fun r =>
                              rh r = inject_Z (msgWaveformMin st + bar_value b)
                              /\ (inject_Z (msgWaveformMin st) <= rh r)%Q
                              /\ (rh r <= inject_Z (msgWaveformMax st))%Q)
                           (bar_rects b))
              bars.
Proof.
  assert (H0 : 0 <= v0 <= wavemax vd)
    by (apply Hsamples; rewrite Hwf; now left).
  unfold PaintWaveform.
  rewrite (chooseWaveform_valid vd v0 rest Hwf (proj1 H0)).
  set (w := waveform vd) in *.
  set (active := inject_Z (SafeRound (inject_Z availableWidth * progress))).
  rewrite (barCountOf_defined st availableWidth (Z.of_nat (length w)) Hstep).
  set (barCount := Z.min _ (Z.of_nat (length w))).
  assert (Enorm : barNormValueOf (Some w) (Some vd) = wavemax vd + 1)
    by reflexivity.
  rewrite Enorm.
  destruct (paintLoop_total st (wavemax vd + 1) active w (Z.of_nat (length w))
              barCount (Z.to_nat (Z.of_nat (length w))) ltac:(lia) 0 0 0 0 [])
    as [bars Hb]; [lia | lia |].
  exists bars. split; [exact Hb|].
  destruct (paintLoop_bars st (wavemax vd + 1) active (Some w) _ _ _ _ _ _ _ _ _ Hb)
    as (Hdrawn & _ & Hmax).
  assert (Hrange : Forall (fun b => 0 <= bar_max b <= wavemax vd) bars).
  { apply Hmax; [|lia].
    intros j v Hj. apply Hsamples. unfold sampleAt, at_ in Hj.
    destruct (j <? 0); [discriminate|].
    eapply nth_error_In. exact Hj. }
  rewrite Forall_forall in *. intros b Hin.
  specialize (Hdrawn b Hin). specialize (Hrange b Hin).
  destruct (drawBar_some st (wavemax vd + 1) active _ _ _ _ Hdrawn)
    as (_ & Hv & _).
  destruct (drawBar_rects st (wavemax vd + 1) active _ _ _ _ Hdrawn)
    as (_ & _ & Hh).
  assert (Hval : 0 <= bar_value b <= msgWaveformMax st - msgWaveformMin st).
  { rewrite Hv. apply barValue_range; unfold maxDelta; lia. }
  split; [exact Hrange|]. split; [exact Hval|].
  rewrite Forall_forall in *. intros r Hr.
  rewrite (Hh r Hr). split; [reflexivity|].
  unfold Qle; simpl. lia.
Qed.

End WaveformDrawing.


Lemma PaintWaveform_bars_fit_box_witness :
  Waveform.waveform voice_example = 5 :: [3; 8; 1; 0; 7]
  /\ (forall v, In v (Waveform.waveform voice_example) ->
                0 <= v <= Waveform.wavemax voice_example)
  /\ Waveform.msgWaveformMin st_example <= Waveform.msgWaveformMax st_example
  /\ Waveform.msgWaveformBar st_example + Waveform.msgWaveformSkip st_example
     <> 0
  /\ exists bars,
       Waveform.PaintWaveform st_example 100 (Some voice_example) 9 (1 # 2)
       = Waveform.Done bars
       /\ Forall (fun b => 0 <= Waveform.bar_value b <= 18) bars.
Proof.
  assert (H1 : Waveform.waveform voice_example = 5 :: [3; 8; 1; 0; 7])
    by reflexivity.
  assert (H2 : forall v, In v (Waveform.waveform voice_example) ->
                         0 <= v <= Waveform.wavemax voice_example).
  { intros v Hv. cbn in Hv.
    destruct Hv as [<-|[<-|[<-|[<-|[<-|[<-|[]]]]]]]; cbn; lia. }
  assert (H3 : Waveform.msgWaveformMin st_example
               <= Waveform.msgWaveformMax st_example) by discriminate.
  assert (H4 : Waveform.msgWaveformBar st_example
               + Waveform.msgWaveformSkip st_example <> 0) by discriminate.
  split; [exact H1|]. split; [exact H2|]. split; [exact H3|].
  split; [exact H4|].
  destruct (PaintWaveform_bars_fit_box st_example 100 voice_example 9 (1 # 2)
              5 [3; 8; 1; 0; 7] H1 H2 H3 H4) as (bars & Hb & Hall).
  exists bars. split; [exact Hb|].
  eapply Forall_impl; [|exact Hall].
  intros b (_ & Hv & _). exact Hv.
Defined.

Lemma SetIdEmojiSection_inverts_EmojiSectionSetId_witness :
  0 <= Footer.EmojiSectionSetId Footer.Nature < 2 ^ 64
  /\ Footer.SetIdEmojiSection (Footer.EmojiSectionSetId Footer.Nature)
     = Some Footer.Nature.
Proof.
  assert (H : 0 <= Footer.EmojiSectionSetId Footer.Nature < 2 ^ 64)
    by (split; [discriminate | reflexivity]).
  split; [exact H|].
  apply (proj1 (SetIdEmojiSection_inverts_EmojiSectionSetId _ Footer.Nature H)).
  reflexivity.
Defined.

Lemma refreshScrollableDimensions_overflow_witness :
  (forall id, In id (Footer.icons footer_wide) -> id <> Footer.AllEmojiSectionSetId)
  /\ Footer.max (Footer.iconState (Footer.refreshScrollableDimensions footer_wide))
     = 176.
Proof.
  assert (H : forall id, In id (Footer.icons footer_wide) ->
                         id <> Footer.AllEmojiSectionSetId).
  { intros id Hin. cbn in Hin.
    destruct Hin as [<-|[<-|[<-|[<-|[<-|[<-|[<-|[<-|[<-|[]]]]]]]]]];
      discriminate. }
  split; [exact H|].
  rewrite (proj1 (refreshScrollableDimensions_overflow footer_wide H)).
  reflexivity.
Defined.

(** ** Document element: the status and the link under the thumbnail *)

Section DocumentStatusFacts.

Import DocumentStatus.

Variable sizes : StatusSizes.

Lemma linkTextFor_cases (size : Z) :
  (size = FileStatusSizeReady sizes -> linkTextFor sizes size = Download)
  /\ (size = FileStatusSizeFailed sizes ->
      FileStatusSizeFailed sizes <> FileStatusSizeLoaded sizes ->
      linkTextFor sizes size = Download)
  /\ (size = FileStatusSizeLoaded sizes ->
      FileStatusSizeLoaded sizes <> FileStatusSizeReady sizes ->
      linkTextFor sizes size = OpenWith)
  /\ (plainOffset sizes size -> linkTextFor sizes size = Cancel)
  /\ (size < 0 -> 0 <= FileStatusSizeReady sizes ->
      0 <= FileStatusSizeLoaded sizes -> 0 <= FileStatusSizeFailed sizes ->
      linkTextFor sizes size = OpenWith).
Proof.
  unfold linkTextFor, plainOffset.
  repeat split; intros;
    repeat match goal with
           | |- context [?a =? ?b] =>
               let E := fresh "E" in
               destruct (a =? b) eqn:E;
               [apply Z.eqb_eq in E | apply Z.eqb_neq in E]
           | |- context [?a <=? ?b] =>
               let E := fresh "E" in
               destruct (a <=? b) eqn:E;
               [apply Z.leb_le in E | apply Z.leb_gt in E]
           end;
    try reflexivity; try lia; try congruence.
Qed.

Lemma updateStatusText_status (thumbed : bool) (kind : Kind) (t : Transfer)
    (player : PlayerState) (s : Status) :
  statusSize (snd (updateStatusText sizes thumbed kind t player s))
  = fst (fst (statusValues sizes kind t player))
  /\ (statusSize s = fst (fst (statusValues sizes kind t player)) ->
      snd (updateStatusText sizes thumbed kind t player s) = s)
  /\ (statusSize s <> fst (fst (statusValues sizes kind t player)) ->
      snd (updateStatusText sizes thumbed kind t player s)
      = setStatusSize sizes thumbed (fst (fst (statusValues sizes kind t player))) s).
Proof.
  unfold updateStatusText.
  destruct (statusValues sizes kind t player) as [[size duration] pause].
  cbn [fst snd].
  destruct (size =? statusSize s) eqn:E; cbn [negb].
  - apply Z.eqb_eq in E. split; [symmetry; exact E|].
    split; [reflexivity | congruence].
  - apply Z.eqb_neq in E. split; [reflexivity|].
    split; [congruence | reflexivity].
Qed.


End DocumentStatusFacts.


(** ** Document element: the current size at full width *)

Section DocumentSizeFacts.

Import DocumentSize.

Variable st : DocumentView.DocStyle.

Variable ss : SizeStyle.

(** X23.  The current size of a Document element at full width is its
    optimal size.  Take the element as [countOptimalSize] leaves it, with a
    caption or a transcription text, and let [maxWidth()] be the optimal
    width.  Then [countCurrentSize(newWidth)] answers the width
    [min(newWidth, maxWidth())] for every [newWidth], and for every
    [newWidth] that is at least the optimal width it answers exactly the
    optimal size.  Without caption and transcription text the question goes
    to [File::countCurrentSize]. *)
Theorem countCurrentSize_at_full_width
    (isParentMedia hasGroupId : bool) (e : Element) (newWidth : Z) :
  maxWidth e = fst (fst (countOptimalSize st ss isParentMedia hasGroupId e)) ->
  (captioned (snd (countOptimalSize st ss isParentMedia hasGroupId e)) <> None
   \/ shownTranscribe (snd (countOptimalSize st ss isParentMedia hasGroupId e))
      <> None ->
   (exists h,
      countCurrentSize st ss
        (snd (countOptimalSize st ss isParentMedia hasGroupId e)) newWidth
      = Some (Z.min newWidth (maxWidth e), h))
   /\ (fst (fst (countOptimalSize st ss isParentMedia hasGroupId e)) <= newWidth ->
       countCurrentSize st ss
         (snd (countOptimalSize st ss isParentMedia hasGroupId e)) newWidth
       = Some (fst (countOptimalSize st ss isParentMedia hasGroupId e))))
  /\ (captioned (snd (countOptimalSize st ss isParentMedia hasGroupId e)) = None ->
      shownTranscribe (snd (countOptimalSize st ss isParentMedia hasGroupId e))
      = None ->
      countCurrentSize st ss
        (snd (countOptimalSize st ss isParentMedia hasGroupId e)) newWidth
      = None).
Proof.
  intros Hmax.
  unfold countOptimalSize in *. cbn [fst snd] in *.
  set (e' := if negb isParentMedia && negb hasGroupId
             then withCaptioned e None else e) in *.
  assert (Hmw : maxWidth e' = maxWidth e)
    by (subst e'; destruct (negb isParentMedia && negb hasGroupId); reflexivity).
  split.
  - intros Hsome. unfold countCurrentSize. rewrite Hmw.
    assert (Hguard : (match captioned e' with Some _ => false | None => true end)
                     && negb (match shownTranscribe e' with
                              | Some _ => true | None => false end) = false).
    { destruct (captioned e'); [reflexivity|].
      destruct (shownTranscribe e'); [reflexivity|].
      destruct Hsome as [H|H]; contradiction. }
    rewrite Hguard. split; [eexists; reflexivity|].
    intros Hfull.
    assert (Emin : Z.min newWidth (maxWidth e) = maxWidth e) by lia.
    rewrite Emin, Hmax.
    destruct (captioned e') as [caption|] eqn:Ec;
      destruct (shownTranscribe e') as [text|] eqn:Et;
      cbn [negb andb] in *; try discriminate; reflexivity.
  - intros Hc Ht. unfold countCurrentSize. rewrite Hc, Ht. reflexivity.
Qed.

End DocumentSizeFacts.

Lemma countCurrentSize_at_full_width_witness :
  DocumentSize.maxWidth (element_example 236)
  = fst (fst (DocumentSize.countOptimalSize docstyle_example sizestyle_example
                true false (element_example 236)))
  /\ DocumentSize.countCurrentSize docstyle_example sizestyle_example
       (snd (DocumentSize.countOptimalSize docstyle_example sizestyle_example
               true false (element_example 236))) 300
     = Some (fst (DocumentSize.countOptimalSize docstyle_example
                    sizestyle_example true false (element_example 236))).
Proof.
  assert (H : DocumentSize.maxWidth (element_example 236)
              = fst (fst (DocumentSize.countOptimalSize docstyle_example
                            sizestyle_example true false (element_example 236))))
    by reflexivity.
  split; [exact H|].
  destruct (countCurrentSize_at_full_width docstyle_example sizestyle_example
              true false (element_example 236) 300 H) as [Hsome _].
  assert (Hc : DocumentSize.captioned
                 (snd (DocumentSize.countOptimalSize docstyle_example
                         sizestyle_example true false (element_example 236)))
               <> None) by (vm_compute; discriminate).
  destruct (Hsome (or_introl Hc)) as [_ Hfull].
  apply Hfull. vm_compute. discriminate.
Defined.

(** ** Photo element: the link by the state of the data *)

Section PhotoHitTestFacts.

Import PhotoHitTest.

Variable st : HitStyle.

(** X24.  The link of a photo is chosen by the state of its data, in
    the same way in the message and in an album: whenever
    [Photo::textState] answers a link other than the parent's right-action
    link, and whenever [Photo::getStateGrouped] answers a link, it is cancel
    while uploading, else open when loaded, else cancel while loading, else
    save.  [textState] answers the empty state for an element too narrow for
    the message padding; for an element with a caption it never answers the
    bottom info or the right-action link, and a point in the rectangle of
    the caption of a bubble gets the caption's state; a point within the
    photo of an element without caption that is not the parent's media gets
    the link.  [getStateGrouped] answers the link exactly for the points of
    its geometry. *)
Theorem photo_link_by_state (v : View) (t : Transfer) (px py : Z) :
  (forall l, textState st v t px py = OnLink l ->
             l = RightActionLink \/ l = linkByState t)
  /\ (forall gx gy gw gh,
        getStateGrouped gx gy gw gh t px py
        = if DocumentView.QRect_contains gx gy gw gh px py
          then OnLink (linkByState t) else NoHit)
  /\ (width v < msgPadding_left st + msgPadding_right st + 1 ->
      textState st v t px py = NoHit)
  /\ (caption v <> None ->
      textState st v t px py <> BottomInfo
      /\ textState st v t px py <> OnLink RightActionLink)
  /\ (forall text,
        msgPadding_left st + msgPadding_right st + 1 <= width v ->
        hasBubble v = true -> caption v = Some text ->
        DocumentView.QRect_contains (msgPadding_left st)
          (height v
           - DocumentView.countHeight text
               (width v - msgPadding_left st - msgPadding_right st)
           - (if isBubbleBottom v then msgPadding_bottom st else 0))
          (width v - msgPadding_left st - msgPadding_right st)
          (DocumentView.countHeight text
             (width v - msgPadding_left st - msgPadding_right st)
           + (if isBubbleBottom v then msgPadding_bottom st else 0))
          px py = true ->
        exists x y w, textState st v t px py = InCaption x y w)
  /\ (msgPadding_left st + msgPadding_right st + 1 <= width v ->
      caption v = None -> isParentMedia v = false ->
      textState st v t px py
      = if DocumentView.QRect_contains 0 0 (width v) (height v) px py
        then OnLink (linkByState t) else NoHit).
Proof.
  assert (Hguard : msgPadding_left st + msgPadding_right st + 1 <= width v ->
                   (width v <? msgPadding_left st + msgPadding_right st + 1)
                   = false).
  { intros H. apply Z.ltb_ge. exact H. }
  split; [|split; [|split; [|split; [|split]]]].
  - intros l. unfold textState, linkByState.
    destruct (width v <? _); [discriminate|].
    destruct (if hasBubble v then caption v else None) as [text|].
    + destruct (DocumentView.QRect_contains (msgPadding_left st) _ _ _ px py);
        [discriminate|].
      destruct (DocumentView.QRect_contains 0 0 _ _ px py);
        destruct (caption v); try destruct (isParentMedia v);
        try destruct (bottomInfoHit v _ _ px py);
        try destruct (if hasBubble v then None else rightActionSize v)
          as [[sw sh]|];
        try destruct (DocumentView.QRect_contains _ _ sw sh px py);
        intros H; try discriminate; injection H as <-; auto.
    + destruct (DocumentView.QRect_contains 0 0 _ _ px py);
        destruct (caption v); try destruct (isParentMedia v);
        try destruct (bottomInfoHit v _ _ px py);
        try destruct (if hasBubble v then None else rightActionSize v)
          as [[sw sh]|];
        try destruct (DocumentView.QRect_contains _ _ sw sh px py);
        intros H; try discriminate; injection H as <-; auto.
  - intros gx gy gw gh. unfold getStateGrouped, linkByState.
    destruct (DocumentView.QRect_contains gx gy gw gh px py); reflexivity.
  - intros H. unfold textState.
    rewrite (proj2 (Z.ltb_lt _ _) H). reflexivity.
  - intros Hc. unfold textState.
    destruct (caption v) as [text|] eqn:Ec; [|contradiction].
    destruct (width v <? _); [split; discriminate|].
    destruct (hasBubble v).
    + destruct (DocumentView.QRect_contains (msgPadding_left st) _ _ _ px py);
        [split; discriminate|].
      destruct (DocumentView.QRect_contains 0 0 _ _ px py);
        split; try discriminate;
        destruct (uploading t), (loaded t), (loading t); discriminate.
    + destruct (DocumentView.QRect_contains 0 0 _ _ px py);
        split; try discriminate;
        destruct (uploading t), (loaded t), (loading t); discriminate.
  - intros text Hw Hb Hc Hin. unfold textState.
    rewrite (Hguard Hw), Hb, Hc.
    match goal with
    | |- context [DocumentView.QRect_contains (msgPadding_left st) ?y ?w ?h px py] =>
        replace (DocumentView.QRect_contains (msgPadding_left st) y w h px py)
          with true
    end.
    + eexists _, _, _. reflexivity.
    + rewrite <- Hin. destruct (isBubbleBottom v); f_equal; lia.
  - intros Hw Hc Hm. unfold textState, linkByState.
    rewrite (Hguard Hw), Hc, Hm.
    destruct (hasBubble v); reflexivity.
Qed.

End PhotoHitTestFacts.

(** ** The fading at both ends of the icon row *)

Section FooterFadingFacts.

Import Footer.

(** The clamped quotient by a positive width is a proportion, positive
    exactly for a positive dividend. *)
Lemma clamp01_divQ (a : Q) (b : Z) :
  0 < b ->
  exists o,
    DocumentView.clamp01 (divQ a b) = DocumentView.Fin o
    /\ (0 <= o /\ o <= 1)%Q
    /\ ((0 < o)%Q <-> (0 < a)%Q)
    /\ ((inject_Z b <= a)%Q -> (o == 1)%Q).
Proof.
  intros Hb. unfold divQ.
  destruct (b =? 0) eqn:E; [apply Z.eqb_eq in E; lia|].
  assert (Hbq : (0 < inject_Z b)%Q) by (unfold Qlt, inject_Z; simpl; lia).
  assert (Ha : (a == (a / inject_Z b) * inject_Z b)%Q).
  { symmetry. rewrite Qmult_comm. apply Qmult_div_r. intros E0. rewrite E0 in Hbq. discriminate. }
  set (q := (a / inject_Z b)%Q) in *. clearbody q.
  set (w := inject_Z b) in *. clearbody w.
  unfold DocumentView.clamp01.
  destruct (Qlt_le_dec q 0) as [Hneg|Hnn].
  - exists 0%Q. split; [reflexivity|]. split; [lra|].
    split; [split; intros H; [lra | nra] | intros H; nra].
  - destruct (Qlt_le_dec 1 q) as [Hbig|Hsmall].
    + exists 1%Q. split; [reflexivity|]. split; [lra|].
      split; [split; intros H; [nra | lra] | intros _; reflexivity].
    + exists q. split; [reflexivity|]. split; [lra|].
      split; [split; intros H; nra | intros H; nra].
Qed.

(** X25. With fadings of positive width, both opacities are proportions
    for every expanding progress within [0, 1]. Outside an expansion the
    left fading is painted exactly when the icons are scrolled away from
    the start, and the right one exactly when they are not scrolled to the
    end; during an unfinished expansion both are painted. *)
Theorem paintLeftRightFading_follows_scroll
    (fadeLeftWidth fadeRightWidth : Z) (expanding : bool) (progress : Q)
    (f : Footer) :
  0 < fadeLeftWidth ->
  0 < fadeRightWidth ->
  (0 <= progress /\ progress <= 1)%Q ->
  let cur := a_cur (x (iconState f)) in
  let '((o_left, paintLeft), (o_right, paintRight)) :=
    paintLeftRightFading fadeLeftWidth fadeRightWidth expanding progress f in
  DocumentView.inUnit o_left
  /\ DocumentView.inUnit o_right
  /\ (expanding = false ->
      (paintLeft = true <-> (0 < cur)%Q)
      /\ (paintRight = true <-> (cur < inject_Z (max (iconState f)))%Q))
  /\ (expanding = true -> (progress < 1)%Q ->
      paintLeft = true /\ paintRight = true).
Proof.
  intros Hl Hr [Hp0 Hp1]. cbv zeta. unfold paintLeftRightFading.
  destruct (clamp01_divQ (a_cur (x (iconState f))) _ Hl)
    as (ol & El & [Hl0 Hl1] & Hlpos & _).
  destruct (clamp01_divQ
              (inject_Z (max (iconState f)) - a_cur (x (iconState f))) _ Hr)
    as (or_ & Er & [Hr0 Hr1] & Hrpos & _).
  rewrite El, Er. destruct expanding; cbn [fadeOpacity isPositive].
  - split; [cbn; split; nra|]. split; [cbn; split; nra|].
    split; [discriminate|]. intros _ Hlt.
    split.
    + destruct (Qlt_le_dec 0 (1 - progress * (1 - ol))); [reflexivity | nra].
    + destruct (Qlt_le_dec 0 (1 - progress * (1 - or_))); [reflexivity | nra].
  - split; [cbn; split; assumption|]. split; [cbn; split; assumption|].
    split; [|discriminate]. intros _. split.
    + destruct (Qlt_le_dec 0 ol) as [H|H].
      * split; intros _; [apply Hlpos; exact H | reflexivity].
      * split; [discriminate|]. intros Hc. apply Hlpos in Hc. lra.
    + destruct (Qlt_le_dec 0 or_) as [H|H].
      * split; intros _; [apply Hrpos in H; lra | reflexivity].
      * split; [discriminate|]. intros Hc.
        assert (Hc' : (0 < or_)%Q) by (apply Hrpos; lra). lra.
Qed.

End FooterFadingFacts.

Lemma paintLeftRightFading_follows_scroll_witness :
  DocumentView.inUnit
    (fst (fst (Footer.paintLeftRightFading 20 20 false (1 # 2) footer_wide)))
  /\ snd (fst (Footer.paintLeftRightFading 20 20 false (1 # 2) footer_wide)) = true.
Proof.
  pose proof (paintLeftRightFading_follows_scroll 20 20 false (1 # 2)
                footer_wide ltac:(lia) ltac:(lia)
                ltac:(split; discriminate)) as H.
  cbv zeta in H.
  destruct (Footer.paintLeftRightFading 20 20 false (1 # 2) footer_wide)
    as [[ol pl] [or_ pr]] eqn:E.
  destruct H as (H1 & _ & H3 & _). cbn [fst snd].
  split; [exact H1|].
  apply (proj1 (H3 eq_refl)). vm_compute. reflexivity.
Defined.
